(** * python-fsa: the definition pipeline of the command-line tools

    A shallow embedding of the text-processing code of [main3-0.py]
    (flat transition records, DOT graph text, JSON codec, the interactive
    test loop), of the dialogue of [fsm_creator.py] and of the first
    builders of [main.py], with the properties of the automaton-definition
    pipeline stated over it.  The engine classes [DFA] and [NFA] of the
    [python_fsa] package are a parameter of the development: the tools
    are modelled for every behaviour of their constructors.

    Python [str] values are [string]s (characters are code points below
    256), tuples and lists are [list]s, a Python [set] is a duplicate-free
    list that is only ever observed through membership, and a Python
    [dict] is an association list kept in insertion order. *)

From Stdlib Require Import String Ascii List Bool Arith Lia Permutation Sorted.
Import ListNotations.
Local Open Scope string_scope.
Local Open Scope bool_scope.

(* ================================================================== *)
(** ** Python string primitives used by the tools *)
(* ================================================================== *)

Module PyStr.

(** [str.isspace] on one character: TAB..CR, FS..US, SPACE, NEL, NBSP. *)
Definition isspace (c : ascii) : bool :=
  let n := nat_of_ascii c in
  (((9 <=? n) && (n <=? 13)) || ((28 <=? n) && (n <=? 32))
   || (n =? 133) || (n =? 160))%nat.

Fixpoint lstrip (s : string) : string :=
  match s with
  | EmptyString => EmptyString
  | String c s' => if isspace c then lstrip s' else s
  end.

Fixpoint rstrip (s : string) : string :=
  match s with
  | EmptyString => EmptyString
  | String c s' =>
      match rstrip s' with
      | EmptyString => if isspace c then EmptyString else String c EmptyString
      | r => String c r
      end
  end.

(** [s.strip()] *)
Definition strip (s : string) : string := rstrip (lstrip s).

(** [s.startswith(p)] *)
Definition startswith (p s : string) : bool := String.prefix p s.

(** [sub in s] *)
Fixpoint contains (sub s : string) : bool :=
  String.prefix sub s ||
  match s with
  | EmptyString => false
  | String _ s' => contains sub s'
  end.

(** [s.split(sep)] for a non-empty separator: the text is cut at every
    occurrence of [sep], found left to right without overlap.  [skip]
    counts the characters of a separator still to be dropped; the head of
    the result is the piece being read. *)
Fixpoint split_go (sep : string) (skip : nat) (s : string) : list string :=
  match s with
  | EmptyString => [EmptyString]
  | String c s' =>
      match skip with
      | S k => split_go sep k s'
      | O =>
          if String.prefix sep s
          then EmptyString :: split_go sep (String.length sep - 1) s'
          else match split_go sep 0 s' with
               | p :: ps => String c p :: ps
               | [] => [String c EmptyString]
               end
      end
  end.

Definition split (sep s : string) : list string := split_go sep 0 s.

(** [s.replace(old, new)] for a non-empty [old]. *)
Fixpoint replace_go (old new : string) (skip : nat) (s : string) : string :=
  match s with
  | EmptyString => EmptyString
  | String c s' =>
      match skip with
      | S k => replace_go old new k s'
      | O =>
          if String.prefix old s
          then new ++ replace_go old new (String.length old - 1) s'
          else String c (replace_go old new 0 s')
      end
  end.

Definition replace (old new s : string) : string := replace_go old new 0 s.

(** [c.lower()] on code points below 256: A-Z and the Latin-1 capitals. *)
Definition lower_char (c : ascii) : ascii :=
  let n := nat_of_ascii c in
  if (((65 <=? n) && (n <=? 90))
      || ((192 <=? n) && (n <=? 222) && negb (n =? 215)))%nat
  then ascii_of_nat (n + 32) else c.

Fixpoint lower (s : string) : string :=
  match s with
  | EmptyString => EmptyString
  | String c s' => String (lower_char c) (lower s')
  end.

(** truthiness of a string: [if s:] *)
Definition nonempty (s : string) : bool :=
  match s with EmptyString => false | _ => true end.

(** [tuple(s)] / [list(s)] on a string: its one-character strings. *)
Fixpoint chars (s : string) : list string :=
  match s with
  | EmptyString => []
  | String c s' => String c EmptyString :: chars s'
  end.

End PyStr.

(* ================================================================== *)
(** ** Python containers *)
(* ================================================================== *)

(** [x in xs] for a tuple, list or set of strings. *)
Definition mem (x : string) (xs : list string) : bool :=
  existsb (String.eqb x) xs.

(** [s.add(x)] on a set. *)
Definition set_add (x : string) (s : list string) : list string :=
  if mem x s then s else (s ++ [x])%list.

(** [set(xs)]: the distinct members of [xs]. *)
Definition set_of (xs : list string) : list string :=
  fold_left (fun s x => set_add x s) xs [].

(** [sorted(xs)]: ascending in the code-point order of [str]. *)
Fixpoint insert_sorted (x : string) (xs : list string) : list string :=
  match xs with
  | [] => [x]
  | y :: ys => if String.leb x y then x :: xs else y :: insert_sorted x ys
  end.

Definition sorted (xs : list string) : list string :=
  fold_right insert_sorted [] xs.

(** Keys of the transition dictionaries: the tuple [(state, symbol)]. *)
Definition key : Type := string * string.

Definition key_eqb (k1 k2 : key) : bool :=
  String.eqb (fst k1) (fst k2) && String.eqb (snd k1) (snd k2).

Section Dict.
Context {K V : Type} (keq : K -> K -> bool).

(** [d.get(k)] *)
Fixpoint dict_find (k : K) (d : list (K * V)) : option V :=
  match d with
  | [] => None
  | (k', v) :: d' => if keq k k' then Some v else dict_find k d'
  end.

(** [d.get(k, default)] *)
Definition dict_get (k : K) (d : list (K * V)) (default : V) : V :=
  match dict_find k d with Some v => v | None => default end.

(** [k in d] *)
Definition dict_mem (k : K) (d : list (K * V)) : bool :=
  match dict_find k d with Some _ => true | None => false end.

(** [d[k] = v]: an existing key keeps its place, a new one goes last. *)
Fixpoint dict_set (k : K) (v : V) (d : list (K * V)) : list (K * V) :=
  match d with
  | [] => [(k, v)]
  | (k', v') :: d' =>
      if keq k k' then (k', v) :: d' else (k', v') :: dict_set k v d'
  end.
End Dict.

(* ================================================================== *)
(** ** Automaton definitions and construction errors *)
(* ================================================================== *)

(** The engine class a definition is handed to: [DFA] or [NFA]. *)
Inductive kind : Type := DFA | NFA.

(** A transition value: one state (a [str]) or a tuple of states. *)
Inductive target : Type :=
| Single (next_state : string)
| Many (next_states : list string).

Definition targets_of (t : target) : list string :=
  match t with Single s => [s] | Many l => l end.

(** The keyword arguments of [DFA(...)] / [NFA(...)] together with the
    class that receives them.  The engine classes themselves come from the
    [python_fsa] package and are not part of the tools; an automaton object
    is represented by the definition it was built from, and its attributes
    by the fields of that definition: a list stands for the members the
    attribute holds, whatever order and repetition the engine keeps.
    [initial] is [None] where Python passes [None]. *)
Module Automaton.
Record t : Type := make {
  cls : kind;
  alphabet : list string;
  states : list string;
  initial : option string;
  final : list string;
  transitions : list (key * target)
}.
End Automaton.
Definition automaton : Type := Automaton.t.

(** The failures of the pipeline.  The tools report them as a message
    followed by [sys.exit(1)], or as a raised [ValueError]; [MalformedKey]
    is the unpacking error of a composite key, which names no key, and
    [EngineError] is any exception raised by an engine class. *)
Inductive error : Type :=
| MissingArguments
| MalformedRecord (t : string)
| UnknownState (state : string)
| UnknownSymbol (symbol : string)
| DuplicateTransition (state symbol : string)
| InconsistentDeterminism (state symbol : string) (next_states : list string)
| MalformedKey
| EndOfInput
| TypeError
| EngineError.

Definition result (A : Type) : Type := (error + A)%type.

Definition bind {A B : Type} (r : result A) (f : A -> result B) : result B :=
  match r with inl e => inl e | inr a => f a end.

Notation "x <- r ;; k" := (bind r (fun x => k))
  (at level 61, r at next level, right associativity).

(** The engine classes, taken as a parameter of the tools: a constructor
    call either raises or returns an object, and an engine tells which for
    every definition it can be given. *)
Module Engine.
Definition t : Type := automaton -> bool.

(** [DFA(...)] / [NFA(...)]: the object, or the exception raised. *)
Definition construct (engine : t) (args : automaton) : result automaton :=
  if engine args then inr args else inl EngineError.

(** The constructor call followed by the return of the object with its
    type tag. *)
Definition construct_tagged (engine : t) (r : automaton * kind)
    : result (automaton * kind) :=
  a <- construct engine (fst r) ;; inr (a, snd r).
End Engine.

(** [tuple(s.strip() for s in text.split(','))] *)
Definition comma_fields (text : string) : list string :=
  map PyStr.strip (PyStr.split "," text).

(* ================================================================== *)
(** ** The graph-text reconstructor: [parse_dot_file] of main3-0.py *)
(* ================================================================== *)

Module Dot.
Import PyStr.

(** The double-quote character of the label attribute. *)
Definition dq : string := String "034"%char EmptyString.

(** The local variables of the scan. *)
Record scan : Type := mk_scan {
  states : list string;
  alphabet : list string;
  transitions : list (key * list string);
  initial_state : option string;
  final_states : list string;
  automaton_type : kind
}.

Definition scan0 : scan := mk_scan [] [] [] None [] DFA.

(** One [part] of a final-state line. *)
Definition mark_final (st : scan) (part : string) : scan :=
  if contains "doublecircle" part then
    let state_name := strip (replace "node [shape = doublecircle]" "" part) in
    if nonempty state_name then
      mk_scan (set_add state_name (states st)) (alphabet st) (transitions st)
              (initial_state st) (set_add state_name (final_states st))
              (automaton_type st)
    else st
  else st.

(** The fields of a transition line: [(from_state, to_state, symbols)]. *)
Definition parse_edge (line : string) : string * string * list string :=
  let parts := split "->" line in
  let from_state := strip (nth 0 parts "") in
  let to_part := strip (nth 1 parts "") in
  let label_match := split ("label = " ++ dq) to_part in
  let label_str :=
    if (1 <? List.length label_match)%nat
    then nth 0 (split dq (nth 1 label_match "")) ""
    else "" in
  let to_state :=
    if (1 <? List.length label_match)%nat
    then strip (replace " [" "" (strip (nth 0 label_match "")))
    else strip to_part in
  let symbols :=
    if nonempty label_str then map strip (split "," label_str) else [""] in
  (from_state, to_state, symbols).

(** [for symbol in symbols: if symbol: alphabet.add(symbol)] *)
Definition add_symbol (alphabet : list string) (symbol : string) : list string :=
  if nonempty symbol then set_add symbol alphabet else alphabet.

(** The body of the second loop over [symbols]: the target is appended to
    the list kept for [(from_state, symbol)], and a list longer than one
    entry switches the type to ['nfa']. *)
Definition add_transition (from_state to_state : string)
    (st : scan) (symbol : string) : scan :=
  let current_transitions :=
    (dict_get key_eqb (from_state, symbol) (transitions st) [] ++ [to_state])%list in
  mk_scan (states st) (alphabet st)
          (dict_set key_eqb (from_state, symbol) current_transitions
                    (transitions st))
          (initial_state st) (final_states st)
          (if (1 <? List.length current_transitions)%nat
           then NFA else automaton_type st).

Definition add_edge (st : scan) (line : string) : scan :=
  let '(from_state, to_state, symbols) := parse_edge line in
  let st1 :=
    mk_scan (set_add to_state (set_add from_state (states st)))
            (fold_left add_symbol symbols (alphabet st))
            (transitions st) (initial_state st) (final_states st)
            (automaton_type st) in
  fold_left (add_transition from_state to_state) symbols st1.

(** The target of the start edge [null -> target]. *)
Definition parse_initial (line : string) : string :=
  strip (replace ";" "" (strip (replace "null ->" "" line))).

(** The body of [for line in lines]. *)
Definition scan_line (st : scan) (raw : string) : scan :=
  let line := strip raw in
  if startswith "node [shape = doublecircle]" line then
    fold_left mark_final (split ";" line) st
  else if startswith "node [shape = circle]" line then st
  else if contains "->" line && negb (startswith "null ->" line) then
    add_edge st line
  else if startswith "null ->" line then
    let initial := parse_initial line in
    mk_scan (set_add initial (states st)) (alphabet st) (transitions st)
            (Some initial) (final_states st) (automaton_type st)
  else st.

Definition newline : string := String "010"%char EmptyString.

Definition scan_source (dot_source : string) : scan :=
  fold_left scan_line (split newline dot_source) scan0.

(** The conversion of the target lists: a single value for ['dfa'], guarded
    by the length test, and a sorted duplicate-free tuple for ['nfa']. *)
Fixpoint process_transitions (automaton_type : kind)
    (items : list (key * list string))
    (processed_transitions : list (key * target))
    : result (list (key * target)) :=
  match items with
  | [] => inr processed_transitions
  | ((state, symbol), next_states_list) :: rest =>
      match automaton_type with
      | DFA =>
          if negb (List.length next_states_list =? 1)%nat
          then inl (InconsistentDeterminism state symbol next_states_list)
          else process_transitions automaton_type rest
                 (dict_set key_eqb (state, symbol)
                    (Single (nth 0 next_states_list "")) processed_transitions)
      | NFA =>
          process_transitions automaton_type rest
            (dict_set key_eqb (state, symbol)
               (Many (sorted (set_of next_states_list))) processed_transitions)
      end
  end.

(** The loop that makes sure every state of a transition is in [states]. *)
Definition ensure_states (states : list string) (item : key * target)
    : list string :=
  let '((s, _), next_s) := item in
  let states := if mem s states then states else set_add s states in
  match next_s with
  | Many l =>
      fold_left (fun st ns => if mem ns st then st else set_add ns st) l states
  | Single ns => if mem ns states then states else set_add ns states
  end.

(** [parse_dot_file] up to its last statement, from the text of the file
    on: the definition that the engine class is called with, and the type
    tag. *)
Definition constructor_arguments (dot_source : string)
    : result (automaton * kind) :=
  let st := scan_source dot_source in
  processed_transitions <-
    process_transitions (automaton_type st) (transitions st) [] ;;
  let states := fold_left ensure_states processed_transitions (states st) in
  inr (Automaton.make (automaton_type st) (alphabet st) states
         (initial_state st) (final_states st) processed_transitions,
       automaton_type st).

(** [parse_dot_file]: the engine class is called inside the [try] block,
    so an exception of the constructor ends the program like the guard of
    the conversion does. *)
Definition parse_dot_file (engine : Engine.t) (dot_source : string)
    : result (automaton * kind) :=
  r <- constructor_arguments dot_source ;; Engine.construct_tagged engine r.

End Dot.

(* ================================================================== *)
(** ** The flat transition-record builder: [main] of main3-0.py *)
(* ================================================================== *)

Module Cli.

(** The ['dfa'] loop over [args.transitions]. *)
Fixpoint build_dfa (alphabet states : list string) (records : list string)
    (transitions : list (key * string)) : result (list (key * string)) :=
  match records with
  | [] => inr transitions
  | t :: rest =>
      match comma_fields t with
      | [state; symbol; next_state] =>
          if negb (mem state states) then inl (UnknownState state)
          else if negb (mem symbol alphabet) then inl (UnknownSymbol symbol)
          else if negb (mem next_state states) then inl (UnknownState next_state)
          else if dict_mem key_eqb (state, symbol) transitions
          then inl (DuplicateTransition state symbol)
          else build_dfa alphabet states rest
                 (dict_set key_eqb (state, symbol) next_state transitions)
      | _ => inl (MalformedRecord t)
      end
  end.

(** [for ns in next_states_for_transition: if ns not in states: ...] *)
Fixpoint check_next_states (states next_states : list string) : result unit :=
  match next_states with
  | [] => inr tt
  | ns :: rest =>
      if negb (mem ns states) then inl (UnknownState ns)
      else check_next_states states rest
  end.

(** The ['nfa'] loop over [args.transitions]: the tuple of a repeated pair
    is extended with [+=]. *)
Fixpoint build_nfa (alphabet states : list string) (records : list string)
    (transitions : list (key * list string))
    : result (list (key * list string)) :=
  match records with
  | [] => inr transitions
  | t :: rest =>
      match comma_fields t with
      | state :: symbol :: ((_ :: _) as next_states_for_transition) =>
          if negb (mem state states) then inl (UnknownState state)
          else if negb (mem symbol alphabet) then inl (UnknownSymbol symbol)
          else
            _ <- check_next_states states next_states_for_transition ;;
            build_nfa alphabet states rest
              (match dict_find key_eqb (state, symbol) transitions with
               | Some old =>
                   dict_set key_eqb (state, symbol)
                     (old ++ next_states_for_transition)%list transitions
               | None =>
                   dict_set key_eqb (state, symbol)
                     next_states_for_transition transitions
               end)
      | _ => inl (MalformedRecord t)
      end
  end.

(** [for state in final_states: if state not in states: ...] *)
Fixpoint check_final (states final_states : list string) : result unit :=
  match final_states with
  | [] => inr tt
  | state :: rest =>
      if negb (mem state states) then inl (UnknownState state)
      else check_final states rest
  end.

(** The branch of [main] that builds an automaton from the command-line
    arguments, up to the constructor call; [type] is one of the two
    choices of [--type]. *)
Definition constructor_arguments (type : kind)
    (alphabet states initial final : string)
    (transitions : list string) : result automaton :=
  if negb (PyStr.nonempty alphabet && PyStr.nonempty states
           && PyStr.nonempty initial && PyStr.nonempty final
           && match transitions with [] => false | _ => true end)
  then inl MissingArguments
  else
    let alphabet := comma_fields alphabet in
    let states := comma_fields states in
    let initial := PyStr.strip initial in
    let final_states := comma_fields final in
    if negb (mem initial states) then inl (UnknownState initial)
    else
      _ <- check_final states final_states ;;
      match type with
      | DFA =>
          table <- build_dfa alphabet states transitions [] ;;
          inr (Automaton.make DFA alphabet states (Some initial) final_states
                 (map (fun kv => (fst kv, Single (snd kv))) table))
      | NFA =>
          table <- build_nfa alphabet states transitions [] ;;
          inr (Automaton.make NFA alphabet states (Some initial) final_states
                 (map (fun kv => (fst kv, Many (snd kv))) table))
      end.

(** The same branch with its call [DFA(...)] / [NFA(...)]. *)
Definition create (engine : Engine.t) (type : kind)
    (alphabet states initial final : string)
    (transitions : list string) : result automaton :=
  args <- constructor_arguments type alphabet states initial final
            transitions ;;
  Engine.construct engine args.

End Cli.

(* ================================================================== *)
(** ** The interactive builder: [main] of fsm_creator.py *)
(* ================================================================== *)

Module Creator.

Definition validate_state_in_states (state : string) (states : list string)
    : bool := mem state states.

Definition validate_symbol_in_alphabet (symbol : string)
    (alphabet : list string) : bool := mem symbol alphabet.

(** [transitions[k] += to_states_input] on a stored value. *)
Definition iadd (old : target) (to_states_input : list string)
    : result target :=
  match old with
  | Many l => inr (Many (l ++ to_states_input)%list)
  | Single _ => inl TypeError
  end.

(** The [while True] loop that reads the transitions; [inputs] are the
    lines typed by the user.  A rejected line is answered with a message
    and the loop goes on ([continue]); the loop ends at [done]. *)
Fixpoint enter_transitions (automaton_type : kind)
    (alphabet states : list string) (inputs : list string)
    (transitions : list (key * target)) : result (list (key * target)) :=
  match inputs with
  | [] => inl EndOfInput
  | line :: rest =>
      let transition_input := PyStr.strip (PyStr.strip line) in
      if String.eqb (PyStr.lower transition_input) "done" then inr transitions
      else
        let next := enter_transitions automaton_type alphabet states rest in
        match comma_fields transition_input with
        | from_state :: symbol :: ((first :: _) as to_states_input) =>
            if negb (validate_state_in_states from_state states)
            then next transitions
            else if negb (validate_symbol_in_alphabet symbol alphabet)
            then next transitions
            else if negb (forallb (fun ts => validate_state_in_states ts states)
                            to_states_input)
            then next transitions
            else
              match automaton_type with
              | DFA =>
                  if (1 <? List.length to_states_input)%nat
                  then next transitions
                  else next (dict_set key_eqb (from_state, symbol)
                               (Single first) transitions)
              | NFA =>
                  match dict_find key_eqb (from_state, symbol) transitions with
                  | Some old =>
                      v <- iadd old to_states_input ;;
                      next (dict_set key_eqb (from_state, symbol) v transitions)
                  | None =>
                      next (dict_set key_eqb (from_state, symbol)
                              (Many to_states_input) transitions)
                  end
              end
        | _ => next transitions
        end
  end.

End Creator.

(* ================================================================== *)
(** ** The definition codec: [serialize_automaton], [deserialize_automaton] *)
(* ================================================================== *)

Module Json.
(** A transition value of the persisted record: a string or a list. *)
Inductive value : Type :=
| Str (s : string)
| List (l : list string).

(** The persisted record, with the names of its JSON members. *)
Record record : Type := make {
  type : string;
  alphabet : list string;
  states : list string;
  initial : option string;
  final : list string;
  transitions : list (string * value)
}.
End Json.

Module Codec.

(** [f"{state},{symbol}"] *)
Definition composite_key (k : key) : string := fst k ++ "," ++ snd k.

(** The value stored under a key: as it is for a [DFA], [list(...)] of it
    for an [NFA]. *)
Definition encode_value (cls : kind) (next_state_or_states : target)
    : Json.value :=
  match cls, next_state_or_states with
  | DFA, Single s => Json.Str s
  | DFA, Many l => Json.List l
  | NFA, Many l => Json.List l
  | NFA, Single s => Json.List (PyStr.chars s)
  end.

(** The loop of [serialize_automaton] over the transitions. *)
Definition encode_item (cls : kind) (data : list (string * Json.value))
    (item : key * target) : list (string * Json.value) :=
  dict_set String.eqb (composite_key (fst item))
    (encode_value cls (snd item)) data.

(** [serialize_automaton]: the dictionary written for an automaton, read
    from its attributes.  [list(automaton.alphabet)] and the like
    enumerate what the object holds; here they are the fields of the
    definition as they stand, which gives the members of the lists
    written, not the order of the enumeration. *)
Definition serialize_automaton (a : automaton) : Json.record :=
  Json.make
    (match Automaton.cls a with DFA => "dfa" | NFA => "nfa" end)
    (Automaton.alphabet a) (Automaton.states a) (Automaton.initial a)
    (Automaton.final a)
    (fold_left (encode_item (Automaton.cls a)) (Automaton.transitions a) []).

(** [tuple(value)] *)
Definition tuple_of (v : Json.value) : list string :=
  match v with Json.List l => l | Json.Str s => PyStr.chars s end.

(** The value stored for a persisted value: as it is for ['dfa'],
    [tuple(value)] otherwise. *)
Definition decode_value (automaton_type : string) (v : Json.value) : target :=
  if String.eqb automaton_type "dfa"
  then match v with Json.Str s => Single s | Json.List l => Many l end
  else Many (tuple_of v).

(** The loop of [deserialize_automaton] over the persisted transitions;
    the unpacking [state, symbol = key.split(',')] needs exactly two
    parts. *)
Fixpoint decode_items (automaton_type : string)
    (items : list (string * Json.value)) (transitions : list (key * target))
    : result (list (key * target)) :=
  match items with
  | [] => inr transitions
  | (k, v) :: rest =>
      match PyStr.split "," k with
      | [state; symbol] =>
          decode_items automaton_type rest
            (dict_set key_eqb (state, symbol) (decode_value automaton_type v)
               transitions)
      | _ => inl MalformedKey
      end
  end.

(** [deserialize_automaton] up to its [return]: the definition that the
    engine class is called with. *)
Definition constructor_arguments (data : Json.record) : result automaton :=
  transitions <- decode_items (Json.type data) (Json.transitions data) [] ;;
  inr (Automaton.make
         (if String.eqb (Json.type data) "dfa" then DFA else NFA)
         (Json.alphabet data) (Json.states data) (Json.initial data)
         (Json.final data) transitions).

(** [deserialize_automaton]: the definition is handed to [DFA(...)] or
    [NFA(...)], whose exception is an error of the decoding. *)
Definition deserialize_automaton (engine : Engine.t) (data : Json.record)
    : result automaton :=
  args <- constructor_arguments data ;; Engine.construct engine args.

End Codec.

(* ================================================================== *)
(** ** Vocabulary of the statements *)
(* ================================================================== *)

(** Number of separators [,] in a string. *)
Fixpoint count_sep (s : string) : nat :=
  match s with
  | EmptyString => 0
  | String c s' => (if Ascii.eqb c ","%char then 1 else 0) + count_sep s'
  end.

(** The targets recorded for key [k] in a list of edge occurrences, in
    order of appearance. *)
Definition occ (k : key) (es : list (key * string)) : list string :=
  map snd (filter (fun e => key_eqb k (fst e)) es).

(** A line of graph text is a transition line when the scan reaches its
    third branch. *)
Definition is_edge_line (line : string) : bool :=
  negb (PyStr.startswith "node [shape = doublecircle]" line)
  && negb (PyStr.startswith "node [shape = circle]" line)
  && (PyStr.contains "->" line && negb (PyStr.startswith "null ->" line)).

(** A line designates the initial state when the scan reaches its fourth
    branch, which is the case exactly when it starts with the start edge
    of the sentinel [null]. *)
Definition is_initial_line (raw : string) : bool :=
  PyStr.startswith "null ->" (PyStr.strip raw).

(** The edge occurrences a line contributes: one per symbol of its label. *)
Definition line_edges (raw : string) : list (key * string) :=
  let line := PyStr.strip raw in
  if is_edge_line line then
    let '(from_state, to_state, symbols) := Dot.parse_edge line in
    map (fun symbol => ((from_state, symbol), to_state)) symbols
  else [].

(** All edge occurrences of a graph text, in order of appearance. *)
Definition edges (dot_source : string) : list (key * string) :=
  flat_map line_edges (PyStr.split Dot.newline dot_source).

(** The part of the scan that the classification depends on: the target
    lists and the type. *)
Definition core (st : Dot.scan) : list (key * list string) * kind :=
  (Dot.transitions st, Dot.automaton_type st).

(** The effect of one edge occurrence on that part. *)
Definition record_edge (c : list (key * list string) * kind)
    (e : key * string) : list (key * list string) * kind :=
  let current := (dict_get key_eqb (fst e) (fst c) [] ++ [snd e])%list in
  (dict_set key_eqb (fst e) current (fst c),
   if (1 <? List.length current)%nat then NFA else snd c).

(** Closure of a scan: the endpoints of every recorded transition are
    states, every non-empty symbol of a key is in the alphabet, and the
    empty symbol is not. *)
Definition closed_entry (states alphabet : list string)
    (kv : key * list string) : Prop :=
  In (fst (fst kv)) states /\ incl (snd kv) states
  /\ (snd (fst kv) <> "" -> In (snd (fst kv)) alphabet).

Definition closed_scan (st : Dot.scan) : Prop :=
  Forall (closed_entry (Dot.states st) (Dot.alphabet st)) (Dot.transitions st)
  /\ ~ In "" (Dot.alphabet st).

(** The pair and the targets a flat record names. *)
Definition record_key (t : string) : key :=
  (nth 0 (comma_fields t) "", nth 1 (comma_fields t) "").

Definition record_targets (t : string) : list string :=
  skipn 2 (comma_fields t).

(** A flat record that passes the checks of the ['nfa'] loop. *)
Definition valid_nfa_record (alphabet states : list string) (t : string)
    : bool :=
  match comma_fields t with
  | state :: symbol :: ((_ :: _) as next_states) =>
      mem state states && mem symbol alphabet
      && forallb (fun ns => mem ns states) next_states
  | _ => false
  end.

(** A flat record that passes the membership checks of the ['dfa'] loop. *)
Definition valid_dfa_record (alphabet states : list string) (t : string)
    : bool :=
  match comma_fields t with
  | [state; symbol; next_state] =>
      mem state states && mem symbol alphabet && mem next_state states
  | _ => false
  end.

(** The targets that the records name for the pair [k], in record order. *)
Definition named_targets (k : key) (records : list string) : list string :=
  flat_map (fun t => if key_eqb k (record_key t) then record_targets t else [])
           records.

(** A definition as the builders assemble it: single targets for a [DFA],
    tuples for an [NFA]. *)
Definition assembled_value (cls : kind) (v : target) : Prop :=
  match cls, v with
  | DFA, Single _ | NFA, Many _ => True
  | _, _ => False
  end.

Definition assembled (d : automaton) : Prop :=
  Forall (fun kv => assembled_value (Automaton.cls d) (snd kv))
         (Automaton.transitions d).

(** State and symbol of a transition key are free of the separator. *)
Definition separator_free (d : automaton) : Prop :=
  Forall (fun kv => count_sep (fst (fst kv)) = 0 /\ count_sep (snd (fst kv)) = 0)
         (Automaton.transitions d).

(** Following the words of the specification of [decode]: the composite
    key cut at its first separator, if it has one. *)
Fixpoint split_at_first_separator (k : string) : option (string * string) :=
  match k with
  | EmptyString => None
  | String c k' =>
      if Ascii.eqb c ","%char then Some (EmptyString, k')
      else match split_at_first_separator k' with
           | Some (state, symbol) => Some (String c state, symbol)
           | None => None
           end
  end.

(** A composite key is well formed when it holds exactly one separator. *)
Definition one_separator (kv : string * Json.value) : Prop :=
  count_sep (fst kv) = 1.

(** The two parts of a composite key. *)
Definition key_parts (k : string) : key :=
  (nth 0 (PyStr.split "," k) "", nth 1 (PyStr.split "," k) "").

(** The pair that a composite key with one separator stands for: the text
    before the separator and the text after it. *)
Definition cut_key (k : string) : key :=
  match split_at_first_separator k with
  | Some (state, symbol) => (state, symbol)
  | None => (k, "")
  end.

(** The characters of a string, each as a string of its own. *)
Definition letters (s : string) : list string :=
  map (fun c => String c EmptyString) (list_ascii_of_string s).

(** A persisted value taken verbatim: a list gives its members, a string
    is kept whole in a ['dfa'] record and gives its characters
    otherwise. *)
Definition stored_value (automaton_type : string) (v : Json.value) : target :=
  match v with
  | Json.List l => Many l
  | Json.Str s =>
      if String.eqb automaton_type "dfa" then Single s else Many (letters s)
  end.

(** Two lists with the same members. *)
Definition same_members (l1 l2 : list string) : Prop :=
  forall x, In x l1 <-> In x l2.

(** Two persisted values that name the same state or the same states. *)
Definition same_value (v1 v2 : Json.value) : Prop :=
  match v1, v2 with
  | Json.Str s1, Json.Str s2 => s1 = s2
  | Json.List l1, Json.List l2 => same_members l1 l2
  | _, _ => False
  end.

(** Two persisted records that describe the same automaton. *)
Definition same_record (r1 r2 : Json.record) : Prop :=
  Json.type r1 = Json.type r2
  /\ Json.initial r1 = Json.initial r2
  /\ same_members (Json.alphabet r1) (Json.alphabet r2)
  /\ same_members (Json.states r1) (Json.states r2)
  /\ same_members (Json.final r1) (Json.final r2)
  /\ (forall k v, In (k, v) (Json.transitions r1) ->
        exists v', In (k, v') (Json.transitions r2) /\ same_value v v')
  /\ (forall k v, In (k, v) (Json.transitions r2) ->
        exists v', In (k, v') (Json.transitions r1) /\ same_value v' v).

(** The definition that a persisted record describes, field by field:
    the class of its type tag, its four members as they are and, entry
    after entry, the value of each composite key under the pair the key
    stands for. *)
Definition record_definition (data : Json.record) : automaton :=
  Automaton.make
    (if String.eqb (Json.type data) "dfa" then DFA else NFA)
    (Json.alphabet data) (Json.states data) (Json.initial data)
    (Json.final data)
    (fold_left
       (fun transitions kv =>
          dict_set key_eqb (cut_key (fst kv))
            (stored_value (Json.type data) (snd kv)) transitions)
       (Json.transitions data) []).

(* ================================================================== *)
(** ** Sample inputs *)
(* ================================================================== *)

(** [source -> target [label = "label"];] *)
Definition edge_line (source target label : string) : string :=
  "    " ++ source ++ " -> " ++ target ++ " [label = " ++ Dot.dq ++ label
  ++ Dot.dq ++ "];".

Definition unlines (ls : list string) : string := String.concat Dot.newline ls.

(** Scenario 1: [q1] under the double-circle marker, the start edge to
    [q0] and four labelled edges. *)
Definition scenario1 : string :=
  unlines [ "digraph finite_state_machine {";
            "    rankdir=LR;";
            "    node [shape = doublecircle] q1;";
            "    node [shape = circle];";
            "    null -> q0;";
            edge_line "q0" "q0" "0";
            edge_line "q0" "q1" "1";
            edge_line "q1" "q1" "0";
            edge_line "q1" "q0" "1";
            "}" ].

(** One edge, written twice. *)
Definition repeated_edge : string :=
  unlines [ "null -> q0;"; edge_line "q0" "q1" "a"; edge_line "q0" "q1" "a" ].

(** A graph with an edge and no start edge. *)
Definition no_start_edge : string :=
  unlines [ "digraph {"; edge_line "q0" "q1" "a"; "}" ].

(** A graph with an unlabelled edge. *)
Definition unlabelled_edge : string :=
  unlines [ "null -> q0;"; "q0 -> q1" ].

(** The lines of [mixed_edges] in another order. *)
Definition mixed_edges_reordered : string :=
  String.concat Dot.newline
    [ "q1 -> q0"; "null -> q0;";
      "    q0 -> q1 [label = " ++ Dot.dq ++ "a, b" ++ Dot.dq ++ "];" ].

(** A graph with a labelled and an unlabelled edge. *)
Definition mixed_edges : string :=
  unlines [ "null -> q0;"; edge_line "q0" "q1" "a, b"; "q1 -> q0" ].

(** A graph with two start edges. *)
Definition two_start_edges : string :=
  unlines [ "null -> q0;"; edge_line "q0" "q1" "a"; "null -> q2;" ].

(** One edge whose label names the symbol [a] twice. *)
Definition doubled_symbol : string :=
  unlines [ "null -> q0;"; edge_line "q0" "q1" "a,a" ].

(** A graph with two targets for one pair and no start edge. *)
Definition branching_no_start_edge : string :=
  unlines [ "digraph {"; edge_line "q0" "q1" "a"; edge_line "q0" "q2" "a";
            "}" ].

(** A ['dfa'] record whose initial state, final state, transition symbol
    and transition target are all outside its declared sets. *)
Definition dangling_dfa_record : Json.record :=
  Json.make "dfa" ["0"] ["q0"] (Some "q9") ["q7"] [("q0,x", Json.Str "q5")].

(** An ['nfa'] record whose initial state is not among its states. *)
Definition dangling_nfa_record : Json.record :=
  Json.make "nfa" ["0"] ["q0"] (Some "q9") ["q0"]
    [("q0,0", Json.List ["q0"])].

(** An engine for the examples: [NFA(...)] looks its initial state up
    among its states and raises when it is not one of them (or is
    [None]); [DFA(...)] keeps its arguments without looking at them. *)
Definition sample_engine : Engine.t :=
  fun args =>
    match Automaton.cls args, Automaton.initial args with
    | DFA, _ => true
    | NFA, Some q => mem q (Automaton.states args)
    | NFA, None => false
    end.

(* ================================================================== *)
(** ** The interactive test loop at the end of [main] of main3-0.py *)
(* ================================================================== *)

Module Repl.

(** What one pass of the [while True] loop does with the line read. *)
Inductive action : Type :=
| Exit
| Skip
| Invalid (invalid_symbols : list string)
| Step
| Accepts (input_symbols : list string).

(** [tuple(user_input.split(',')) if ',' in user_input else
    tuple(user_input)] *)
Definition input_symbols (user_input : string) : list string :=
  if PyStr.contains "," user_input
  then PyStr.split "," user_input
  else PyStr.chars user_input.

(** [[s for s in input_symbols if s not in automaton.alphabet]] *)
Definition invalid_symbols (alphabet input_symbols : list string)
    : list string :=
  filter (fun s => negb (mem s alphabet)) input_symbols.

(** The body of the loop up to the call of the engine: [Accepts] stands
    for [automaton.accepts(input_symbols)], [Step] for the step-by-step
    mode. *)
Definition dispatch (alphabet : list string) (line : string) : action :=
  let user_input := PyStr.strip line in
  if String.eqb (PyStr.lower user_input) "exit" then Exit
  else if negb (PyStr.nonempty user_input) then Skip
  else
    let input_symbols := input_symbols user_input in
    match invalid_symbols alphabet input_symbols with
    | (_ :: _) as invalid => Invalid invalid
    | [] =>
        if String.eqb (PyStr.lower user_input) "step" then Step
        else Accepts input_symbols
    end.

End Repl.

(* ================================================================== *)
(** ** The dialogue of fsm_creator.py up to the saved JSON *)
(* ================================================================== *)

Module CreatorMain.

(** [get_input]: the lines typed are read until one passes the
    validation; the answer is returned stripped, with the lines left. *)
Fixpoint get_input (validation_func : string -> bool) (inputs : list string)
    : result (string * list string) :=
  match inputs with
  | [] => inl EndOfInput
  | line :: rest =>
      let user_input := PyStr.strip line in
      if validation_func user_input then inr (user_input, rest)
      else get_input validation_func rest
  end.

Definition validate_list_input (input_str : string) : bool :=
  PyStr.nonempty input_str.

(** [for fs in final_states: if not validate_state_in_states(fs, states)] *)
Fixpoint check_final (states final_states : list string) : result unit :=
  match final_states with
  | [] => inr tt
  | fs :: rest =>
      if negb (Creator.validate_state_in_states fs states)
      then inl (UnknownState fs)
      else check_final states rest
  end.

(** [main] up to [automaton_data]: the type, the alphabet, the states, the
    initial state, the final states and the transitions, read in this
    order from the lines typed. *)
Definition automaton_data (inputs : list string) : result automaton :=
  r <- get_input (fun x => String.eqb x "dfa" || String.eqb x "nfa") inputs ;;
  let automaton_type := if String.eqb (fst r) "dfa" then DFA else NFA in
  r <- get_input validate_list_input (snd r) ;;
  let alphabet := comma_fields (fst r) in
  r <- get_input validate_list_input (snd r) ;;
  let states := comma_fields (fst r) in
  r <- get_input (fun x => Creator.validate_state_in_states x states) (snd r) ;;
  let initial_state := fst r in
  r <- get_input validate_list_input (snd r) ;;
  let final_states := comma_fields (fst r) in
  _ <- check_final states final_states ;;
  transitions <-
    Creator.enter_transitions automaton_type alphabet states (snd r) [] ;;
  inr (Automaton.make automaton_type alphabet states (Some initial_state)
         final_states transitions).

(** [{f"{k[0]},{k[1]}": v for k, v in transitions.items()}] *)
Definition json_transitions (transitions : list (key * target))
    : list (string * Json.value) :=
  fold_left
    (fun d kv =>
       dict_set String.eqb (fst (fst kv) ++ "," ++ snd (fst kv))
         (match snd kv with
          | Single s => Json.Str s
          | Many l => Json.List l
          end) d)
    transitions [].

(** [json_data]: the copy of [automaton_data] with string keys that is
    written to the JSON file. *)
Definition json_data (d : automaton) : Json.record :=
  Json.make
    (match Automaton.cls d with DFA => "dfa" | NFA => "nfa" end)
    (Automaton.alphabet d) (Automaton.states d) (Automaton.initial d)
    (Automaton.final d) (json_transitions (Automaton.transitions d)).

End CreatorMain.

(* ================================================================== *)
(** ** The first version of the flat builders: [main] of main.py *)
(* ================================================================== *)

Module Legacy.

(** The three messages of main.py, each followed by [sys.exit(1)]. *)
Inductive failure : Type :=
| InvalidFormat (t : string)
| InvalidTransition (t : string)
| InvalidNextState (ns t : string).

(** The ['dfa'] loop: the fields are not stripped and an assignment
    replaces what the pair had. *)
Fixpoint build_dfa (alphabet states : list string) (records : list string)
    (transitions : list (key * string)) : failure + list (key * string) :=
  match records with
  | [] => inr transitions
  | t :: rest =>
      match PyStr.split "," t with
      | [state; symbol; next_state] =>
          if negb (mem state states) || negb (mem next_state states)
             || negb (mem symbol alphabet)
          then inl (InvalidTransition t)
          else build_dfa alphabet states rest
                 (dict_set key_eqb (state, symbol) next_state transitions)
      | _ => inl (InvalidFormat t)
      end
  end.

Fixpoint check_next_states (states next_states : list string) (t : string)
    : failure + unit :=
  match next_states with
  | [] => inr tt
  | ns :: rest =>
      if negb (mem ns states) then inl (InvalidNextState ns t)
      else check_next_states states rest t
  end.

(** The ['nfa'] loop: the tuple of a record replaces what the pair had. *)
Fixpoint build_nfa (alphabet states : list string) (records : list string)
    (transitions : list (key * list string))
    : failure + list (key * list string) :=
  match records with
  | [] => inr transitions
  | t :: rest =>
      match PyStr.split "," t with
      | state :: symbol :: ((_ :: _) as next_states) =>
          if negb (mem state states) || negb (mem symbol alphabet)
          then inl (InvalidTransition t)
          else
            match check_next_states states next_states t with
            | inl e => inl e
            | inr _ =>
                build_nfa alphabet states rest
                  (dict_set key_eqb (state, symbol) next_states transitions)
            end
      | _ => inl (InvalidFormat t)
      end
  end.

End Legacy.

(* ================================================================== *)
(** ** Further vocabulary *)
(* ================================================================== *)

(** The code-point order of [str], as a relation. *)
Definition str_le (a b : string) : Prop := String.leb a b = true.

(** The entry a three-field record stores in the deterministic table. *)
Definition dfa_entry (t : string) : key * string :=
  (record_key t, nth 2 (comma_fields t) "").

(** A stored transition whose state, symbol and targets are declared. *)
Definition declared_entry (alphabet states : list string)
    (kv : key * target) : Prop :=
  In (fst (fst kv)) states /\ In (snd (fst kv)) alphabet
  /\ incl (targets_of (snd kv)) states.

(** A definition whose initial state, final states and transitions are
    all within its declared states and alphabet. *)
Definition well_formed (d : automaton) : Prop :=
  (exists q, Automaton.initial d = Some q /\ In q (Automaton.states d))
  /\ incl (Automaton.final d) (Automaton.states d)
  /\ Forall (declared_entry (Automaton.alphabet d) (Automaton.states d))
            (Automaton.transitions d).

(** The last start edge among the lines of a graph text. *)
Definition last_start_edge (lines : list string) : option string :=
  match find is_initial_line (rev lines) with
  | Some raw => Some (Dot.parse_initial (PyStr.strip raw))
  | None => None
  end.

(** The initial state and the final states of a scan are among its states. *)
Definition anchored (st : Dot.scan) : Prop :=
  (forall q, Dot.initial_state st = Some q -> In q (Dot.states st))
  /\ incl (Dot.final_states st) (Dot.states st).

(** The shape of a finalized transition value: a single state for a DFA;
    for an NFA a non-empty tuple in ascending order without repeats. *)
Definition finalized_value (ty : kind) (v : target) : Prop :=
  match ty with
  | DFA => exists s, v = Single s
  | NFA => exists l, v = Many l /\ Sorted str_le l /\ NoDup l /\ l <> []
  end.

(** Symbols of a scan: those of the keys and of the alphabet hold no
    separator. *)
Definition symbols_clean (st : Dot.scan) : Prop :=
  Forall (fun kv : key * list string => count_sep (snd (fst kv)) = 0)
         (Dot.transitions st)
  /\ Forall (fun s => count_sep s = 0) (Dot.alphabet st).

(** The value the conversion stores for a scanned target list. *)
Definition finalize (ty : kind) (l : list string) : target :=
  match ty with
  | DFA => Single (nth 0 l "")
  | NFA => Many (sorted (set_of l))
  end.

(** The transition relation of a definition: [x] is a target of key [k]. *)
Definition delta (a : automaton) (k : key) (x : string) : Prop :=
  exists v, In (k, v) (Automaton.transitions a) /\ In x (targets_of v).

(** The pair and the targets of a record of main.py, whose fields are
    not stripped. *)
Definition raw_key (t : string) : key :=
  (nth 0 (PyStr.split "," t) "", nth 1 (PyStr.split "," t) "").

Definition raw_targets (t : string) : list string :=
  skipn 2 (PyStr.split "," t).

(** The last record that names the pair [k]. *)
Definition last_record (k : key) (records : list string) : option string :=
  find (fun t => key_eqb k (raw_key t)) (rev records).

(** A persisted value that is a list. *)
Definition is_list_value (v : Json.value) : Prop :=
  match v with Json.List _ => True | Json.Str _ => False end.

(* ================================================================== *)
(** ** Containers: basic facts *)
(* ================================================================== *)

Lemma mem_In x xs : mem x xs = true <-> In x xs.
Proof.
  unfold mem. rewrite existsb_exists. split.
  - intros [y [Hy E]]. apply String.eqb_eq in E. now subst.
  - intros H. exists x. split; [assumption | apply String.eqb_refl].
Qed.

Lemma set_add_In x y s : In y (set_add x s) <-> y = x \/ In y s.
Proof.
  unfold set_add. destruct (mem x s) eqn:E.
  - apply mem_In in E. split; [now right | intros [-> | H]; assumption].
  - rewrite in_app_iff. simpl. intuition.
Qed.

Lemma set_add_incl x s : incl s (set_add x s).
Proof. intros y Hy. apply set_add_In. now right. Qed.

Lemma set_of_gen_In xs : forall acc y,
  In y (fold_left (fun s x => set_add x s) xs acc) <-> In y acc \/ In y xs.
Proof.
  induction xs as [|x xs IH]; intros acc y; simpl.
  - intuition.
  - rewrite IH, set_add_In. intuition.
Qed.

Lemma set_of_In xs y : In y (set_of xs) <-> In y xs.
Proof. unfold set_of. rewrite set_of_gen_In. simpl. intuition. Qed.

Lemma insert_sorted_In x xs y : In y (insert_sorted x xs) <-> y = x \/ In y xs.
Proof.
  induction xs as [|z zs IH]; simpl.
  - intuition.
  - destruct (String.leb x z); simpl; [intuition | rewrite IH; intuition].
Qed.

Lemma sorted_In xs y : In y (sorted xs) <-> In y xs.
Proof.
  induction xs as [|x xs IH]; simpl; [tauto|].
  rewrite insert_sorted_In, IH. intuition.
Qed.

Lemma key_eqb_eq k1 k2 : key_eqb k1 k2 = true <-> k1 = k2.
Proof.
  destruct k1 as [a b], k2 as [c d]. unfold key_eqb. simpl.
  rewrite andb_true_iff, !String.eqb_eq. split.
  - intros [-> ->]. reflexivity.
  - intros E. inversion E. auto.
Qed.

Lemma key_eqb_refl k : key_eqb k k = true.
Proof. now apply key_eqb_eq. Qed.

Lemma key_eqb_neq k1 k2 : key_eqb k1 k2 = false <-> k1 <> k2.
Proof.
  rewrite <- key_eqb_eq. destruct (key_eqb k1 k2); split; congruence.
Qed.

(** Dictionaries over a key type whose test decides equality. *)
Section DictFacts.
Context {K V : Type} (keq : K -> K -> bool).
Hypothesis keq_eq : forall a b, keq a b = true <-> a = b.

Lemma dict_find_set_same k v (d : list (K * V)) :
  dict_find keq k (dict_set keq k v d) = Some v.
Proof.
  induction d as [|[k' v'] d IH]; simpl.
  - assert (keq k k = true) as -> by now apply keq_eq. reflexivity.
  - destruct (keq k k') eqn:E; simpl; rewrite E; auto.
Qed.

Lemma dict_find_set_other k k' v (d : list (K * V)) :
  k <> k' -> dict_find keq k' (dict_set keq k v d) = dict_find keq k' d.
Proof.
  intros N. induction d as [|[k0 v0] d IH]; simpl.
  - destruct (keq k' k) eqn:E; [apply keq_eq in E; congruence | reflexivity].
  - destruct (keq k k0) eqn:E; simpl.
    + apply keq_eq in E. subst k0.
      destruct (keq k' k) eqn:E'; [apply keq_eq in E'; congruence | reflexivity].
    + now rewrite IH.
Qed.

Lemma dict_find_In k v (d : list (K * V)) :
  dict_find keq k d = Some v -> In (k, v) d.
Proof.
  induction d as [|[k' v'] d IH]; simpl; [discriminate|].
  destruct (keq k k') eqn:E.
  - apply keq_eq in E. subst. intros [= ->]. now left.
  - intros H. right. auto.
Qed.

Lemma dict_find_None k (d : list (K * V)) :
  dict_find keq k d = None <-> ~ In k (map fst d).
Proof.
  induction d as [|[k' v'] d IH]; simpl; [tauto|].
  destruct (keq k k') eqn:E.
  - apply keq_eq in E. subst. split; [discriminate | intros H; exfalso; auto].
  - rewrite IH. split.
    + intros H [E' | H']; [subst; rewrite (proj2 (keq_eq k k) eq_refl) in E;
                           discriminate | auto].
    + tauto.
Qed.

Lemma dict_find_NoDup k v (d : list (K * V)) :
  NoDup (map fst d) -> In (k, v) d -> dict_find keq k d = Some v.
Proof.
  induction d as [|[k' v'] d IH]; simpl; [tauto|].
  intros ND [E | H].
  - inversion E; subst. now rewrite (proj2 (keq_eq k k) eq_refl).
  - inversion ND; subst. destruct (keq k k') eqn:E.
    + apply keq_eq in E. subst. exfalso. apply H2.
      change k' with (fst (k', v)). now apply in_map.
    + auto.
Qed.

Lemma dict_set_fresh k v (d : list (K * V)) :
  ~ In k (map fst d) -> dict_set keq k v d = (d ++ [(k, v)])%list.
Proof.
  induction d as [|[k' v'] d IH]; simpl; [reflexivity|].
  intros N. destruct (keq k k') eqn:E.
  - apply keq_eq in E. subst. exfalso. auto.
  - rewrite IH; auto.
Qed.

Lemma dict_set_Forall (P : K * V -> Prop) k v (d : list (K * V)) :
  Forall P d -> P (k, v) -> Forall P (dict_set keq k v d).
Proof.
  intros H Hk. induction H as [|[k' v'] d Hx Hd IH]; simpl.
  - constructor; [assumption | constructor].
  - destruct (keq k k') eqn:E.
    + apply keq_eq in E. subst. constructor; assumption.
    + constructor; assumption.
Qed.

Lemma dict_set_In k v kv (d : list (K * V)) :
  In kv (dict_set keq k v d) -> kv = (k, v) \/ In kv d.
Proof.
  induction d as [|[k' v'] d IH]; simpl.
  - intros [<- | []]. now left.
  - destruct (keq k k') eqn:E; simpl.
    + apply keq_eq in E. subst. intros [<- | H]; auto.
    + intros [<- | H]; auto. destruct (IH H); auto.
Qed.

Lemma dict_mem_In k (d : list (K * V)) :
  dict_mem keq k d = true <-> In k (map fst d).
Proof.
  unfold dict_mem. destruct (dict_find keq k d) eqn:E.
  - split; [intros _ | reflexivity]. apply dict_find_In in E.
    change k with (fst (k, v)). now apply in_map.
  - apply dict_find_None in E. split; [discriminate | tauto].
Qed.
End DictFacts.

(* ================================================================== *)
(** ** Splitting at the separator *)
(* ================================================================== *)

Lemma prefix_empty s : String.prefix "" s = true.
Proof. destruct s; reflexivity. Qed.

Lemma prefix_sep c s :
  String.prefix "," (String c s) = Ascii.eqb c ","%char.
Proof.
  change (String.prefix "," (String c s))
    with (if ascii_dec ","%char c then String.prefix "" s else false).
  destruct (ascii_dec "," c) as [E | N].
  - subst c. rewrite prefix_empty. reflexivity.
  - symmetry. apply Ascii.eqb_neq. congruence.
Qed.

Lemma split_sep_step c s :
  PyStr.split "," (String c s)
  = if Ascii.eqb c ","%char then EmptyString :: PyStr.split "," s
    else match PyStr.split "," s with
         | p :: ps => String c p :: ps
         | [] => [String c EmptyString]
         end.
Proof.
  unfold PyStr.split. cbn [PyStr.split_go]. rewrite prefix_sep. reflexivity.
Qed.

Lemma split_sep_length s :
  List.length (PyStr.split "," s) = S (count_sep s).
Proof.
  induction s as [|c s IH]; [reflexivity|].
  rewrite split_sep_step. simpl count_sep.
  destruct (Ascii.eqb c ","); simpl.
  - now rewrite IH.
  - destruct (PyStr.split "," s); simpl in *; lia.
Qed.

Lemma split_sep_none s : count_sep s = 0 -> PyStr.split "," s = [s].
Proof.
  induction s as [|c s IH]; [reflexivity|].
  rewrite split_sep_step. simpl.
  destruct (Ascii.eqb c ","); simpl; [discriminate|].
  intros H. now rewrite (IH H).
Qed.

Lemma split_sep_join a b :
  count_sep a = 0 -> PyStr.split "," (a ++ "," ++ b) = a :: PyStr.split "," b.
Proof.
  induction a as [|c a IH]; intros H.
  - simpl. now rewrite split_sep_step.
  - simpl in H.
    change (String c a ++ "," ++ b) with (String c (a ++ "," ++ b)).
    rewrite split_sep_step.
    destruct (Ascii.eqb c ","); [discriminate|].
    simpl in H. now rewrite (IH H).
Qed.

Lemma split_composite_key state symbol :
  count_sep state = 0 -> count_sep symbol = 0 ->
  PyStr.split "," (Codec.composite_key (state, symbol)) = [state; symbol].
Proof.
  intros H1 H2. unfold Codec.composite_key. simpl fst. simpl snd.
  now rewrite split_sep_join, split_sep_none.
Qed.

Lemma split_sep_concat s : String.concat "," (PyStr.split "," s) = s.
Proof.
  induction s as [|c s IH]; [reflexivity|].
  rewrite split_sep_step.
  pose proof (split_sep_length s) as L.
  destruct (PyStr.split "," s) as [|p ps]; [discriminate|].
  destruct (Ascii.eqb c ",") eqn:E.
  - apply Ascii.eqb_eq in E. subst c.
    change (String.concat "," ("" :: p :: ps))
      with ("" ++ "," ++ String.concat "," (p :: ps)).
    now rewrite IH.
  - destruct ps as [|q ps].
    + simpl in *. now rewrite IH.
    + change (String.concat "," (String c p :: q :: ps))
        with (String c (p ++ "," ++ String.concat "," (q :: ps))).
      f_equal. exact IH.
Qed.

Lemma count_sep_app a b : count_sep (a ++ b) = count_sep a + count_sep b.
Proof. induction a as [|c a IH]; simpl; [reflexivity | rewrite IH; lia]. Qed.

(** A key with exactly one separator splits into the text before it and
    the text after it, neither of which holds a separator. *)
Lemma split_one_sep k :
  count_sep k = 1 ->
  exists state symbol,
    PyStr.split "," k = [state; symbol] /\ k = state ++ "," ++ symbol
    /\ count_sep state = 0 /\ count_sep symbol = 0
    /\ split_at_first_separator k = Some (state, symbol).
Proof.
  induction k as [|c k IH]; [discriminate|].
  simpl count_sep. rewrite split_sep_step.
  simpl split_at_first_separator.
  destruct (Ascii.eqb c ",") eqn:E.
  - intros H. assert (H0 : count_sep k = 0) by lia.
    apply Ascii.eqb_eq in E. subst c.
    exists "", k. rewrite (split_sep_none k H0). auto.
  - simpl. intros H. destruct (IH H) as (st & sy & Hs & Hk & H1 & H2 & H3).
    exists (String c st), sy. rewrite Hs, H3. subst k. simpl. rewrite E.
    auto.
Qed.

Lemma split_two_parts k state symbol :
  PyStr.split "," k = [state; symbol] -> count_sep k = 1.
Proof.
  intros H. pose proof (split_sep_length k) as L. rewrite H in L.
  simpl in L. lia.
Qed.

Lemma key_parts_inj k1 k2 :
  count_sep k1 = 1 -> count_sep k2 = 1 -> key_parts k1 = key_parts k2 ->
  k1 = k2.
Proof.
  intros H1 H2 E.
  destruct (split_one_sep k1 H1) as (s1 & a1 & S1 & -> & _).
  destruct (split_one_sep k2 H2) as (s2 & a2 & S2 & -> & _).
  unfold key_parts in E. rewrite S1, S2 in E. simpl in E.
  now inversion E.
Qed.

(* ================================================================== *)
(** ** The codec *)
(* ================================================================== *)

Lemma key_parts_composite k :
  count_sep (fst k) = 0 -> count_sep (snd k) = 0 ->
  key_parts (Codec.composite_key k) = k.
Proof.
  destruct k as [state symbol]. simpl. intros H1 H2. unfold key_parts.
  now rewrite split_composite_key.
Qed.

Lemma count_sep_composite k :
  count_sep (fst k) = 0 -> count_sep (snd k) = 0 ->
  count_sep (Codec.composite_key k) = 1.
Proof.
  intros H1 H2. unfold Codec.composite_key.
  rewrite !count_sep_app, H1, H2. reflexivity.
Qed.

Lemma encode_fold cls l : forall acc,
  NoDup (map fst acc ++ map (fun kv => Codec.composite_key (fst kv)) l) ->
  fold_left (Codec.encode_item cls) l acc
  = (acc ++ map (fun kv => (Codec.composite_key (fst kv),
                            Codec.encode_value cls (snd kv))) l)%list.
Proof.
  induction l as [|kv l IH]; intros acc ND; simpl.
  - now rewrite app_nil_r.
  - unfold Codec.encode_item at 2.
    rewrite (dict_set_fresh String.eqb String.eqb_eq).
    + rewrite IH.
      * now rewrite <- app_assoc.
      * rewrite map_app. simpl. rewrite <- app_assoc. exact ND.
    + simpl in ND. apply NoDup_remove_2 in ND. intros H. apply ND.
      apply in_or_app. now left.
Qed.

Lemma decode_items_ok ty items : forall acc,
  Forall one_separator items ->
  NoDup (map fst acc ++ map (fun kv => key_parts (fst kv)) items) ->
  Codec.decode_items ty items acc
  = inr (acc ++ map (fun kv => (key_parts (fst kv),
                                Codec.decode_value ty (snd kv))) items)%list.
Proof.
  induction items as [|[k v] items IH]; intros acc Hs ND; simpl.
  - now rewrite app_nil_r.
  - inversion Hs as [|? ? Hk Hrest]; subst.
    destruct (split_one_sep k Hk) as (st & sy & Hsplit & _).
    rewrite Hsplit. unfold key_parts at 1. rewrite Hsplit. simpl nth.
    rewrite (dict_set_fresh key_eqb key_eqb_eq).
    + rewrite IH; [now rewrite <- app_assoc | assumption |].
      rewrite map_app. simpl. rewrite <- app_assoc.
      simpl in ND. unfold key_parts in ND at 1. rewrite Hsplit in ND.
      exact ND.
    + simpl in ND. unfold key_parts in ND at 1. rewrite Hsplit in ND.
      apply NoDup_remove_2 in ND. intros H. apply ND.
      apply in_or_app. now left.
Qed.

(** [decode_items] fails exactly when some key does not hold one
    separator, with the unpacking error. *)
Lemma decode_items_error ty items : forall acc e,
  Codec.decode_items ty items acc = inl e <->
  e = MalformedKey /\ Exists (fun kv => count_sep (fst kv) <> 1) items.
Proof.
  induction items as [|[k v] items IH]; intros acc e; simpl.
  - split; [discriminate|]. intros [_ H]. inversion H.
  - destruct (Nat.eq_dec (count_sep k) 1) as [Hk | Hk].
    + destruct (split_one_sep k Hk) as (st & sy & Hsplit & _).
      rewrite Hsplit, IH. split; intros [-> H]; split; auto.
      inversion H; subst; [contradiction | assumption].
    + assert (Codec.decode_items ty ((k, v) :: items) acc = inl MalformedKey)
        as Hfail.
      { simpl. pose proof (split_sep_length k) as L.
        destruct (PyStr.split "," k) as [|a [|b [|c r]]]; simpl in L;
          try reflexivity. lia. }
      simpl in Hfail. rewrite Hfail. split.
      * intros [= <-]. split; auto.
      * intros [-> _]. reflexivity.
Qed.

(** A run of the loop to its end has met well-formed keys only. *)
Lemma decode_items_wellformed ty items acc transitions :
  Codec.decode_items ty items acc = inr transitions ->
  Forall one_separator items.
Proof.
  intros H.
  destruct (Forall_Exists_dec one_separator
              (fun kv => Nat.eq_dec (count_sep (fst kv)) 1) items)
    as [F | E]; [exact F|].
  assert (Codec.decode_items ty items acc = inl MalformedKey) as F
    by (apply decode_items_error; auto).
  congruence.
Qed.

Lemma chars_letters s : PyStr.chars s = letters s.
Proof.
  unfold letters. induction s as [|c s IH]; simpl; [reflexivity|].
  now rewrite IH.
Qed.

Lemma decode_value_stored ty v : Codec.decode_value ty v = stored_value ty v.
Proof.
  unfold Codec.decode_value, stored_value, Codec.tuple_of.
  destruct (String.eqb ty "dfa"), v; try reflexivity.
  now rewrite chars_letters.
Qed.

Lemma key_parts_cut k : count_sep k = 1 -> key_parts k = cut_key k.
Proof.
  intros Hk. destruct (split_one_sep k Hk) as (st & sy & S & _ & _ & _ & C).
  unfold key_parts, cut_key. now rewrite S, C.
Qed.

(** With well-formed keys the loop of [deserialize_automaton] stores,
    entry after entry, the value taken verbatim under the pair that the
    key stands for. *)
Lemma decode_items_fold ty items : forall acc,
  Forall one_separator items ->
  Codec.decode_items ty items acc
  = inr (fold_left
           (fun transitions kv =>
              dict_set key_eqb (cut_key (fst kv)) (stored_value ty (snd kv))
                transitions)
           items acc).
Proof.
  induction items as [|[k v] items IH]; intros acc Hs; simpl.
  - reflexivity.
  - inversion Hs as [|? ? Hk Hrest]; subst. unfold one_separator in Hk.
    simpl in Hk.
    destruct (split_one_sep k Hk) as (st & sy & S & _ & _ & _ & C).
    rewrite S, IH by assumption.
    replace (cut_key k) with (st, sy) by (unfold cut_key; now rewrite C).
    now rewrite decode_value_stored.
Qed.

Lemma constructor_arguments_record data :
  Forall one_separator (Json.transitions data) ->
  Codec.constructor_arguments data = inr (record_definition data).
Proof.
  intros Hs. unfold Codec.constructor_arguments.
  now rewrite decode_items_fold.
Qed.

Lemma NoDup_map_on {A B : Type} (f : A -> B) (l : list A) :
  (forall x y, In x l -> In y l -> f x = f y -> x = y) ->
  NoDup l -> NoDup (map f l).
Proof.
  intros Hinj ND. induction ND as [|x l Hx ND IH]; simpl; constructor.
  - intros H. apply in_map_iff in H. destruct H as (y & E & Hy).
    assert (y = x) by (apply Hinj; simpl; auto). subst. contradiction.
  - apply IH. intros a b Ha Hb. apply Hinj; simpl; auto.
Qed.

(** With distinct keys the record gives one transition per entry. *)
Lemma record_definition_entries data :
  Forall one_separator (Json.transitions data) ->
  NoDup (map fst (Json.transitions data)) ->
  Automaton.transitions (record_definition data)
  = map (fun kv => (cut_key (fst kv),
                    stored_value (Json.type data) (snd kv)))
        (Json.transitions data).
Proof.
  intros Hs ND.
  pose proof (decode_items_fold (Json.type data) (Json.transitions data) []
                Hs) as F.
  rewrite decode_items_ok in F; [|exact Hs|].
  - injection F as F. unfold record_definition. cbn. rewrite <- F. cbn.
    apply map_ext_in. intros [k v] Hin. cbn.
    rewrite Forall_forall in Hs. specialize (Hs _ Hin).
    rewrite key_parts_cut by exact Hs. now rewrite decode_value_stored.
  - cbn. rewrite <- map_map. apply NoDup_map_on; [|assumption].
    intros k1 k2 H1 H2. rewrite Forall_forall in Hs.
    apply in_map_iff in H1. destruct H1 as (kv1 & <- & H1).
    apply in_map_iff in H2. destruct H2 as (kv2 & <- & H2).
    apply key_parts_inj; [exact (Hs _ H1) | exact (Hs _ H2)].
Qed.

(** The engine class is the only source of [EngineError], and raises
    nothing else. *)
Lemma construct_inr engine args a :
  Engine.construct engine args = inr a -> a = args /\ engine args = true.
Proof.
  unfold Engine.construct. destruct (engine args); [|discriminate].
  intros [= <-]. auto.
Qed.

Lemma construct_accepted engine args :
  engine args = true -> Engine.construct engine args = inr args.
Proof. unfold Engine.construct. now intros ->. Qed.

Lemma construct_refused engine args :
  engine args = false -> Engine.construct engine args = inl EngineError.
Proof. unfold Engine.construct. now intros ->. Qed.

Lemma deserialize_inr engine data a :
  Codec.deserialize_automaton engine data = inr a ->
  Codec.constructor_arguments data = inr a.
Proof.
  unfold Codec.deserialize_automaton.
  destruct (Codec.constructor_arguments data) as [e|args]; simpl;
    [discriminate|].
  intros H. apply construct_inr in H. destruct H as [-> _]. reflexivity.
Qed.

Lemma decode_encode_value cls v :
  assembled_value cls v ->
  Codec.decode_value (match cls with DFA => "dfa" | NFA => "nfa" end)
    (Codec.encode_value cls v) = v.
Proof. destruct cls, v; simpl; intros H; try contradiction; reflexivity. Qed.

Lemma encode_decode_arguments (d : automaton) :
  NoDup (map fst (Automaton.transitions d)) ->
  separator_free d ->
  assembled d ->
  Codec.constructor_arguments (Codec.serialize_automaton d) = inr d.
Proof.
  destruct d as [cls al sts ini fin trs].
  unfold separator_free, assembled. simpl. intros ND SF AS.
  unfold Codec.constructor_arguments, Codec.serialize_automaton. simpl.
  rewrite encode_fold; simpl.
  - rewrite decode_items_ok; simpl.
    + rewrite map_map. simpl.
      assert (map (fun x : key * target =>
                 (key_parts (Codec.composite_key (fst x)),
                  Codec.decode_value
                    (match cls with DFA => "dfa" | NFA => "nfa" end)
                    (Codec.encode_value cls (snd x)))) trs = trs) as ->.
      { rewrite <- (map_id trs) at 2. apply map_ext_in.
        intros [k v] Hin. simpl.
        rewrite Forall_forall in SF, AS.
        destruct (SF _ Hin) as [H1 H2]. simpl in H1, H2.
        rewrite key_parts_composite by assumption.
        rewrite decode_encode_value; [reflexivity | exact (AS _ Hin)]. }
      destruct cls; reflexivity.
    + apply Forall_forall. intros kv Hin. apply in_map_iff in Hin.
      destruct Hin as ([k v] & <- & Hin). unfold one_separator. simpl.
      rewrite Forall_forall in SF. destruct (SF _ Hin).
      now apply count_sep_composite.
    + rewrite map_map. simpl.
      erewrite map_ext_in; [exact ND|].
      intros [k v] Hin. simpl. rewrite Forall_forall in SF.
      destruct (SF _ Hin). now apply key_parts_composite.
  - apply NoDup_map_on; [|exact (NoDup_map_inv _ _ ND)].
    intros [k1 v1] [k2 v2] H1 H2 E. simpl in E.
    rewrite Forall_forall in SF.
    destruct (SF _ H1) as [A1 B1]. destruct (SF _ H2) as [A2 B2].
    simpl in *.
    assert (k1 = k2).
    { rewrite <- (key_parts_composite k1), <- (key_parts_composite k2)
        by assumption. now rewrite E. }
    subst k2. f_equal.
    assert (F1 : dict_find key_eqb k1 trs = Some v1)
      by (apply (dict_find_NoDup key_eqb key_eqb_eq); assumption).
    assert (F2 : dict_find key_eqb k1 trs = Some v2)
      by (apply (dict_find_NoDup key_eqb key_eqb_eq); assumption).
    congruence.
Qed.

(** C2. Round-trip law of the codec: for an assembled definition [d] whose
    transition keys hold no separator in state or symbol, decoding the
    encoding of [d] calls the engine class on [d] itself, so that for an
    automaton [d] that the engine builds the decoding succeeds and gives
    back [d]: the same kind, alphabet, states, initial state, final states
    and the same target for every transition key. (In this model a set is
    the list its iteration yields, so the fields are even equal as
    lists.) *)
Theorem decode_encode_roundtrip (engine : Engine.t) (d : automaton) :
  NoDup (map fst (Automaton.transitions d)) ->
  separator_free d ->
  assembled d ->
  Codec.deserialize_automaton engine (Codec.serialize_automaton d)
  = Engine.construct engine d
  /\ (engine d = true ->
      Codec.deserialize_automaton engine (Codec.serialize_automaton d)
      = inr d).
Proof.
  intros ND SF AS.
  assert (Codec.deserialize_automaton engine (Codec.serialize_automaton d)
          = Engine.construct engine d) as E.
  { unfold Codec.deserialize_automaton.
    now rewrite encode_decode_arguments. }
  split; [exact E|].
  intros Hd. rewrite E. now apply construct_accepted.
Qed.

Lemma decode_encode_roundtrip_witness :
  Codec.deserialize_automaton sample_engine
    (Codec.serialize_automaton
       (Automaton.make NFA ["a"; "b"] ["s0"; "s1"; "s2"] (Some "s0") ["s2"]
          [(("s0", "a"), Many ["s1"; "s0"]); (("s1", "b"), Many ["s2"])]))
  = inr (Automaton.make NFA ["a"; "b"] ["s0"; "s1"; "s2"] (Some "s0") ["s2"]
           [(("s0", "a"), Many ["s1"; "s0"]); (("s1", "b"), Many ["s2"])]).
Proof.
  apply decode_encode_roundtrip.
  - simpl. repeat constructor; simpl; intuition discriminate.
  - unfold separator_free. simpl. repeat constructor.
  - unfold assembled. simpl. repeat constructor.
  - reflexivity.
Defined.

(** C7 (as the code has it). [deserialize_automaton] cuts a composite key
    at every separator and unpacks exactly two parts: it fails with the
    unpacking error, which names no key, exactly when some key holds a
    number of separators other than one, whether none or several.  When
    every key holds exactly one separator, the engine class is called with
    the definition that stores each value under the text before the
    separator of its key and the text after it, and decoding fails only
    if that call raises: these are the two failures of decoding. *)
Theorem decode_malformed_key (engine : Engine.t) (data : Json.record) :
  (Codec.deserialize_automaton engine data = inl MalformedKey <->
   Exists (fun kv => count_sep (fst kv) <> 1) (Json.transitions data))
  /\ (Forall one_separator (Json.transitions data) ->
      Codec.deserialize_automaton engine data
      = Engine.construct engine (record_definition data))
  /\ (forall e,
        Codec.deserialize_automaton engine data = inl e ->
        e = MalformedKey
        \/ (e = EngineError
            /\ Forall one_separator (Json.transitions data)
            /\ engine (record_definition data) = false))
  /\ (forall k v, In (k, v) (Json.transitions data) -> count_sep k = 1 ->
      exists state symbol,
        cut_key k = (state, symbol) /\ k = state ++ "," ++ symbol
        /\ count_sep state = 0 /\ count_sep symbol = 0).
Proof.
  split; [|split; [|split]].
  - unfold Codec.deserialize_automaton, Codec.constructor_arguments.
    destruct (Codec.decode_items (Json.type data) (Json.transitions data) [])
      as [e|transitions] eqn:E; simpl.
    + apply decode_items_error in E. destruct E as [-> E]. tauto.
    + split.
      * intros H. unfold Engine.construct in H.
        destruct (engine _); discriminate.
      * intros H.
        assert (Codec.decode_items (Json.type data) (Json.transitions data) []
                = inl MalformedKey) as F
          by (apply decode_items_error; auto).
        congruence.
  - intros Hs. unfold Codec.deserialize_automaton.
    now rewrite constructor_arguments_record.
  - intros e. unfold Codec.deserialize_automaton.
    destruct (Codec.constructor_arguments data) as [e'|args] eqn:E; simpl.
    + intros [= <-]. left. unfold Codec.constructor_arguments in E.
      destruct (Codec.decode_items (Json.type data) (Json.transitions data)
                  []) as [e''|t] eqn:D; simpl in E; [|discriminate].
      apply decode_items_error in D. destruct D as [-> _]. congruence.
    + assert (Hs : Forall one_separator (Json.transitions data)).
      { unfold Codec.constructor_arguments in E.
        destruct (Codec.decode_items (Json.type data)
                    (Json.transitions data) []) as [e''|t] eqn:D;
          simpl in E; [discriminate|].
        exact (decode_items_wellformed _ _ _ _ D). }
      rewrite (constructor_arguments_record data Hs) in E.
      injection E as <-.
      unfold Engine.construct.
      destruct (engine (record_definition data)) eqn:He; [discriminate|].
      intros [= <-]. right. auto.
  - intros k v _ Hk.
    destruct (split_one_sep k Hk) as (st & sy & _ & H2 & H3 & H4 & H5).
    exists st, sy. unfold cut_key. rewrite H5. auto.
Qed.

Lemma decode_malformed_key_witness :
  Codec.deserialize_automaton sample_engine
    (Json.make "nfa" ["a"] ["q0"; "q1"] (Some "q0") ["q1"]
       [("q0,a", Json.List ["q1"; "q0"])])
  = inr (Automaton.make NFA ["a"] ["q0"; "q1"] (Some "q0") ["q1"]
           [(("q0", "a"), Many ["q1"; "q0"])]).
Proof.
  apply (proj1 (proj2 (decode_malformed_key sample_engine
                         (Json.make "nfa" ["a"] ["q0"; "q1"] (Some "q0")
                            ["q1"] [("q0,a", Json.List ["q1"; "q0"])])))).
  repeat constructor.
Defined.

(** C7, the claim as written fails: the key [q0,a,b] has a first
    separator, which cuts it into [q0] and [a,b], and decoding a record
    with that key fails all the same, whatever the engine. *)
Lemma decode_two_separators_fails :
  split_at_first_separator "q0,a,b" = Some ("q0", "a,b")
  /\ (forall engine,
        Codec.deserialize_automaton engine
          (Json.make "dfa" ["a"; "a,b"] ["q0"; "q1"] (Some "q0") ["q1"]
             [("q0,a,b", Json.Str "q1")])
        = inl MalformedKey).
Proof. split; reflexivity. Qed.

(** C10 (as the code has it). [deserialize_automaton] tests nothing itself
    but the shape of the keys: for every persisted record whose keys hold
    exactly one separator each, its own statements raise nothing and build
    the definition of the record verbatim, whatever the membership
    relations among its fields, with one transition per entry when the
    keys are distinct; what decoding returns is what the engine class
    returns for that definition: the definition when the class accepts
    it, an error at decode time when the class refuses it. *)
Theorem decode_no_validation (engine : Engine.t) (data : Json.record) :
  Forall one_separator (Json.transitions data) ->
  Codec.constructor_arguments data = inr (record_definition data)
  /\ (engine (record_definition data) = true ->
      Codec.deserialize_automaton engine data = inr (record_definition data))
  /\ (engine (record_definition data) = false ->
      Codec.deserialize_automaton engine data = inl EngineError)
  /\ (NoDup (map fst (Json.transitions data)) ->
      Automaton.transitions (record_definition data)
      = map (fun kv => (cut_key (fst kv),
                        stored_value (Json.type data) (snd kv)))
            (Json.transitions data)).
Proof.
  intros Hs. pose proof (constructor_arguments_record data Hs) as E.
  split; [exact E|].
  unfold Codec.deserialize_automaton. rewrite E. simpl.
  split; [|split]; intros H.
  - now apply construct_accepted.
  - now apply construct_refused.
  - now apply record_definition_entries.
Qed.

(** A ['dfa'] record whose initial state, final state, transition symbol
    and transition target are all outside its declared sets is decoded
    where [DFA(...)] accepts it. *)
Lemma decode_no_validation_witness :
  Codec.deserialize_automaton sample_engine dangling_dfa_record
  = inr (Automaton.make DFA ["0"] ["q0"] (Some "q9") ["q7"]
           [(("q0", "x"), Single "q5")]).
Proof.
  apply (proj1 (proj2 (decode_no_validation sample_engine dangling_dfa_record
                         ltac:(repeat constructor)))).
  reflexivity.
Defined.

(** C10, the claim as written fails: the keys of the ['nfa'] record are
    well formed and its initial state is outside its states; [NFA(...)]
    raises on it, which is an error at decode time. *)
Lemma decode_dangling_initial_fails :
  Forall one_separator (Json.transitions dangling_nfa_record)
  /\ record_definition dangling_nfa_record
     = Automaton.make NFA ["0"] ["q0"] (Some "q9") ["q0"]
         [(("q0", "0"), Many ["q0"])]
  /\ Codec.deserialize_automaton sample_engine dangling_nfa_record
     = inl EngineError.
Proof. split; [repeat constructor | split; reflexivity]. Qed.

(* ================================================================== *)
(** ** The scan of the graph text *)
(* ================================================================== *)

Section Scan.
Import Dot.

Lemma mark_final_fields st part :
  transitions (mark_final st part) = transitions st
  /\ automaton_type (mark_final st part) = automaton_type st
  /\ initial_state (mark_final st part) = initial_state st
  /\ alphabet (mark_final st part) = alphabet st
  /\ incl (states st) (states (mark_final st part)).
Proof.
  unfold mark_final.
  destruct (PyStr.contains "doublecircle" part);
    [destruct (PyStr.nonempty _)|]; simpl; repeat split;
    auto using incl_refl, set_add_incl.
Qed.

Lemma mark_final_fold parts : forall st,
  transitions (fold_left mark_final parts st) = transitions st
  /\ automaton_type (fold_left mark_final parts st) = automaton_type st
  /\ initial_state (fold_left mark_final parts st) = initial_state st
  /\ alphabet (fold_left mark_final parts st) = alphabet st
  /\ incl (states st) (states (fold_left mark_final parts st)).
Proof.
  induction parts as [|p ps IH]; intros st; simpl.
  - repeat split; apply incl_refl.
  - destruct (IH (mark_final st p)) as (A & B & C & D & E).
    destruct (mark_final_fields st p) as (A' & B' & C' & D' & E').
    repeat split; try congruence. eapply incl_tran; eassumption.
Qed.

Lemma add_transition_fields f t st sym :
  states (add_transition f t st sym) = states st
  /\ alphabet (add_transition f t st sym) = alphabet st
  /\ initial_state (add_transition f t st sym) = initial_state st
  /\ core (add_transition f t st sym) = record_edge (core st) ((f, sym), t).
Proof. repeat split. Qed.

Lemma add_transition_fold f t syms : forall st,
  states (fold_left (add_transition f t) syms st) = states st
  /\ alphabet (fold_left (add_transition f t) syms st) = alphabet st
  /\ initial_state (fold_left (add_transition f t) syms st) = initial_state st
  /\ core (fold_left (add_transition f t) syms st)
     = fold_left record_edge (map (fun sym => ((f, sym), t)) syms) (core st).
Proof.
  induction syms as [|sym syms IH]; intros st; simpl.
  - repeat split.
  - destruct (IH (add_transition f t st sym)) as (A & B & C & D).
    repeat split; assumption.
Qed.

(** What a line does to the target lists and the type is to record its
    edge occurrences. *)
Lemma scan_line_core st raw :
  core (scan_line st raw) = fold_left record_edge (line_edges raw) (core st).
Proof.
  unfold scan_line, line_edges, is_edge_line.
  destruct (PyStr.startswith "node [shape = doublecircle]" (PyStr.strip raw));
    cbn [negb andb].
  - destruct (mark_final_fold (PyStr.split ";" (PyStr.strip raw)) st)
      as (A & B & _). unfold core. cbn [fold_left]. now rewrite A, B.
  - destruct (PyStr.startswith "node [shape = circle]" (PyStr.strip raw));
      cbn [negb andb]; [reflexivity|].
    destruct (PyStr.contains "->" (PyStr.strip raw)
              && negb (PyStr.startswith "null ->" (PyStr.strip raw))) eqn:E.
    + unfold add_edge.
      destruct (parse_edge (PyStr.strip raw)) as [[f t] syms].
      destruct (add_transition_fold f t syms
        (mk_scan (set_add t (set_add f (states st)))
           (fold_left add_symbol syms (alphabet st)) (transitions st)
           (initial_state st) (final_states st) (automaton_type st)))
        as (_ & _ & _ & D).
      exact D.
    + destruct (PyStr.startswith "null ->" (PyStr.strip raw));
        reflexivity.
Qed.

Lemma scan_lines_core ls : forall st,
  core (fold_left scan_line ls st)
  = fold_left record_edge (flat_map line_edges ls) (core st).
Proof.
  induction ls as [|l ls IH]; intros st; simpl; [reflexivity|].
  now rewrite IH, scan_line_core, fold_left_app.
Qed.

Lemma scan_source_core dot_source :
  core (scan_source dot_source)
  = fold_left record_edge (edges dot_source) ([], DFA).
Proof. unfold scan_source, edges. now rewrite scan_lines_core. Qed.

End Scan.

Lemma dict_get_set_same k (v : list string) d default :
  dict_get key_eqb k (dict_set key_eqb k v d) default = v.
Proof.
  unfold dict_get. now rewrite (dict_find_set_same key_eqb key_eqb_eq).
Qed.

Lemma dict_get_set_other k k' (v : list string) d default :
  k <> k' ->
  dict_get key_eqb k' (dict_set key_eqb k v d) default
  = dict_get key_eqb k' d default.
Proof.
  intros N. unfold dict_get.
  now rewrite (dict_find_set_other key_eqb key_eqb_eq).
Qed.

Lemma occ_snoc k es e :
  occ k (es ++ [e])
  = (occ k es ++ (if key_eqb k (fst e) then [snd e] else []))%list.
Proof.
  unfold occ. rewrite filter_app, map_app. simpl.
  destruct (key_eqb k (fst e)); reflexivity.
Qed.

(** The state of the aggregation after the edge occurrences [es]. *)
Lemma record_edges_spec es :
  let c := fold_left record_edge es ([], DFA) in
  (forall k, dict_get key_eqb k (fst c) [] = occ k es)
  /\ (snd c = NFA <-> exists k, 2 <= List.length (occ k es))
  /\ (snd c = DFA -> Forall (fun kv => List.length (snd kv) = 1) (fst c)).
Proof.
  induction es as [|e es IH] using rev_ind.
  - simpl. split; [reflexivity | split; [split|]].
    + discriminate.
    + intros [k Hk]. simpl in Hk. lia.
    + constructor.
  - rewrite fold_left_app. simpl fold_left.
    set (c := fold_left record_edge es ([], DFA)) in *.
    simpl in IH. destruct IH as (G & T & F).
    unfold record_edge. cbn zeta. simpl fst. simpl snd.
    assert (Hcur : (dict_get key_eqb (fst e) (fst c) [] ++ [snd e])%list
                   = occ (fst e) (es ++ [e])).
    { rewrite occ_snoc, key_eqb_refl, G. reflexivity. }
    rewrite Hcur. split; [|split; [split|]].
    + intros k. destruct (key_eqb k (fst e)) eqn:E.
      * apply key_eqb_eq in E. subst k. apply dict_get_set_same.
      * rewrite dict_get_set_other.
        -- rewrite occ_snoc, E, app_nil_r. apply G.
        -- apply key_eqb_neq in E. congruence.
    + destruct (1 <? List.length (occ (fst e) (es ++ [e])))%nat eqn:L.
      * intros _. exists (fst e). apply Nat.ltb_lt in L. lia.
      * intros H. apply T in H. destruct H as [k Hk]. exists k.
        rewrite occ_snoc, length_app. lia.
    + destruct (1 <? List.length (occ (fst e) (es ++ [e])))%nat eqn:L;
        [reflexivity|].
      intros [k Hk]. apply T. apply Nat.ltb_ge in L.
      destruct (key_eqb k (fst e)) eqn:E.
      * apply key_eqb_eq in E. subst k. lia.
      * exists k. rewrite occ_snoc, E, app_nil_r in Hk. exact Hk.
    + destruct (1 <? List.length (occ (fst e) (es ++ [e])))%nat eqn:L;
        [discriminate|].
      intros H. apply (dict_set_Forall key_eqb key_eqb_eq); [auto|].
      simpl. apply Nat.ltb_ge in L.
      rewrite occ_snoc, key_eqb_refl, length_app in *. simpl in *. lia.
Qed.

(* ================================================================== *)
(** ** Finalization of the reconstructed definition *)
(* ================================================================== *)

Lemma process_transitions_total ty items : forall acc,
  (ty = DFA -> Forall (fun kv => List.length (snd kv) = 1) items) ->
  exists p, Dot.process_transitions ty items acc = inr p.
Proof.
  induction items as [|[[state symbol] l] items IH]; intros acc H; simpl.
  - now exists acc.
  - destruct ty.
    + specialize (H eq_refl). inversion H as [|? ? Hl Hrest]; subst.
      simpl in Hl. rewrite Hl. simpl. apply IH. intros _. exact Hrest.
    + apply IH. discriminate.
Qed.

(** Every finalized entry comes from a scanned entry of the same key, and
    its targets are among the scanned ones. *)
Lemma process_transitions_entries ty items : forall acc p,
  Dot.process_transitions ty items acc = inr p ->
  forall k v, In (k, v) p ->
    In (k, v) acc \/ exists l, In (k, l) items /\ incl (targets_of v) l.
Proof.
  induction items as [|[[state symbol] l] items IH]; intros acc p Hp k v Hin;
    simpl in Hp.
  - inversion Hp; subst. now left.
  - destruct ty.
    + destruct (List.length l =? 1)%nat eqn:L; simpl in Hp; [|discriminate].
      destruct (IH _ _ Hp _ _ Hin) as [Hacc | (l' & Hl' & Hincl)].
      * apply (dict_set_In key_eqb key_eqb_eq) in Hacc.
        destruct Hacc as [E | Hacc]; [|now left].
        inversion E; subst. right. exists l. split; [now left|].
        apply Nat.eqb_eq in L. destruct l as [|x [|y r]]; try discriminate.
        simpl. apply incl_refl.
      * right. exists l'. split; [now right | assumption].
    + destruct (IH _ _ Hp _ _ Hin) as [Hacc | (l' & Hl' & Hincl)].
      * apply (dict_set_In key_eqb key_eqb_eq) in Hacc.
        destruct Hacc as [E | Hacc]; [|now left].
        inversion E; subst. right. exists l. split; [now left|].
        intros x Hx. cbn [targets_of] in Hx.
        rewrite sorted_In, set_of_In in Hx. exact Hx.
      * right. exists l'. split; [now right | assumption].
Qed.

(** The guard of the deterministic conversion stops at the first entry
    whose list is not a singleton. *)
Lemma process_transitions_guard items : forall acc,
  ~ Forall (fun kv => List.length (snd kv) = 1) items ->
  exists pre state symbol targets post,
    items = (pre ++ ((state, symbol), targets) :: post)%list
    /\ Forall (fun kv => List.length (snd kv) = 1) pre
    /\ List.length targets <> 1
    /\ Dot.process_transitions DFA items acc
       = inl (InconsistentDeterminism state symbol targets).
Proof.
  induction items as [|[[state symbol] l] items IH]; intros acc H.
  - exfalso. apply H. constructor.
  - destruct (Nat.eq_dec (List.length l) 1) as [E | N].
    + destruct (IH (dict_set key_eqb (state, symbol) (Single (nth 0 l "")) acc))
        as (pre & s' & a' & t' & post & -> & Hpre & Ht & Hr).
      { intros F. apply H. constructor; assumption. }
      exists (((state, symbol), l) :: pre), s', a', t', post.
      repeat split; auto. simpl. rewrite E. simpl. exact Hr.
    + exists [], state, symbol, l, items. repeat split; auto.
      simpl. apply Nat.eqb_neq in N. now rewrite N.
Qed.

Lemma ensure_states_incl item states : incl states (Dot.ensure_states states item).
Proof.
  destruct item as [[s a] v]. unfold Dot.ensure_states.
  assert (A : incl states (if mem s states then states else set_add s states))
    by (destruct (mem s states); auto using incl_refl, set_add_incl).
  eapply incl_tran; [exact A|].
  generalize (if mem s states then states else set_add s states). intros st0.
  destruct v as [ns | l].
  - destruct (mem ns st0); auto using incl_refl, set_add_incl.
  - revert st0. induction l as [|x l IH]; intros st0; simpl;
      [apply incl_refl|].
    eapply incl_tran; [|apply IH].
    destruct (mem x st0); auto using incl_refl, set_add_incl.
Qed.

Lemma ensure_states_fold_incl items : forall states,
  incl states (fold_left Dot.ensure_states items states).
Proof.
  induction items as [|it items IH]; intros states; simpl;
    [apply incl_refl|].
  eapply incl_tran; [apply ensure_states_incl | apply IH].
Qed.

(** [parse_dot_file] always reaches the call of the engine class: the
    conversion of the scanned lists cannot fail. *)
Lemma constructor_arguments_total dot_source :
  exists p,
    Dot.process_transitions
      (Dot.automaton_type (Dot.scan_source dot_source))
      (Dot.transitions (Dot.scan_source dot_source)) [] = inr p
    /\ Dot.constructor_arguments dot_source
       = inr (Automaton.make
                (Dot.automaton_type (Dot.scan_source dot_source))
                (Dot.alphabet (Dot.scan_source dot_source))
                (fold_left Dot.ensure_states p
                   (Dot.states (Dot.scan_source dot_source)))
                (Dot.initial_state (Dot.scan_source dot_source))
                (Dot.final_states (Dot.scan_source dot_source)) p,
              Dot.automaton_type (Dot.scan_source dot_source)).
Proof.
  pose proof (scan_source_core dot_source) as C.
  destruct (record_edges_spec (edges dot_source)) as (_ & _ & F).
  rewrite <- C in F. simpl in F.
  destruct (process_transitions_total _ _ [] F) as [p Hp].
  exists p. split; [exact Hp|].
  unfold Dot.constructor_arguments. rewrite Hp. reflexivity.
Qed.

(** What [parse_dot_file] returns is what the engine class returns for
    the definition it is called with. *)
Lemma parse_dot_file_arguments engine dot_source r :
  Dot.constructor_arguments dot_source = inr r ->
  Dot.parse_dot_file engine dot_source = Engine.construct_tagged engine r.
Proof. unfold Dot.parse_dot_file. now intros ->. Qed.

Lemma parse_dot_file_inr engine dot_source a ty :
  Dot.parse_dot_file engine dot_source = inr (a, ty) ->
  Dot.constructor_arguments dot_source = inr (a, ty).
Proof.
  unfold Dot.parse_dot_file, Engine.construct_tagged.
  destruct (Dot.constructor_arguments dot_source) as [e|[a' ty']]; simpl;
    [discriminate|].
  destruct (Engine.construct engine a') as [e|a''] eqn:E; simpl;
    [discriminate|].
  apply construct_inr in E. destruct E as [-> _]. now intros [= -> ->].
Qed.

Lemma parse_dot_file_accepted engine dot_source a ty :
  Dot.parse_dot_file engine dot_source = inr (a, ty) -> engine a = true.
Proof.
  unfold Dot.parse_dot_file, Engine.construct_tagged.
  destruct (Dot.constructor_arguments dot_source) as [e|[a' ty']]; simpl;
    [discriminate|].
  destruct (Engine.construct engine a') as [e|a''] eqn:E; simpl;
    [discriminate|].
  apply construct_inr in E. destruct E as [-> E]. now intros [= <- _].
Qed.

(** The only failure of [parse_dot_file] on a graph text is an exception
    of the engine class. *)
Lemma parse_dot_file_error engine dot_source e :
  Dot.parse_dot_file engine dot_source = inl e -> e = EngineError.
Proof.
  destruct (constructor_arguments_total dot_source) as (p & _ & Hp).
  rewrite (parse_dot_file_arguments engine _ _ Hp).
  unfold Engine.construct_tagged, Engine.construct. simpl.
  destruct (engine _); simpl; [discriminate|]. now intros [= <-].
Qed.

(** C1 (as the code has it). For every graph text the reconstructor calls
    the engine class of the kind it inferred, with a definition of that
    kind, and an automaton that it returns is that definition with that
    kind as its type tag.  The kind is nondeterministic exactly when some
    (source, symbol) pair received more than one target occurrence during
    the scan, each symbol named by the label of an edge line giving one
    occurrence and repeats of the same target included; it is
    deterministic exactly when every pair received at most one. *)
Theorem kind_inference (dot_source : string) :
  exists a,
    (forall engine,
       Dot.parse_dot_file engine dot_source
       = Engine.construct_tagged engine (a, Automaton.cls a))
    /\ (forall engine a' ty,
          Dot.parse_dot_file engine dot_source = inr (a', ty) ->
          a' = a /\ ty = Automaton.cls a)
    /\ (Automaton.cls a = NFA <->
        exists k, 2 <= List.length (occ k (edges dot_source)))
    /\ (Automaton.cls a = DFA <->
        forall k, List.length (occ k (edges dot_source)) <= 1).
Proof.
  destruct (constructor_arguments_total dot_source) as (p & _ & Hparse).
  eexists. split; [|split].
  - intros engine. exact (parse_dot_file_arguments engine _ _ Hparse).
  - intros engine a' ty H. apply parse_dot_file_inr in H.
    rewrite Hparse in H. inversion H; subst. split; reflexivity.
  - simpl.
    pose proof (scan_source_core dot_source) as C.
    destruct (record_edges_spec (edges dot_source)) as (_ & T & _).
    rewrite <- C in T. simpl in T.
    split; [exact T|].
    destruct (Dot.automaton_type (Dot.scan_source dot_source)).
    + split; [|reflexivity]. intros _ k.
      destruct (le_lt_dec (List.length (occ k (edges dot_source))) 1)
        as [L | L]; [exact L|].
      assert (DFA = NFA) by (apply T; exists k; lia). discriminate.
    + split; [discriminate|]. intros H.
      destruct (proj1 T eq_refl) as [k Hk]. specialize (H k). lia.
Qed.

(** C1, the claim as written fails: in [repeated_edge] the only pair
    [(q0, a)] has the single distinct target [q1], written twice, and the
    text is classified nondeterministic; so is [doubled_symbol], where the
    pair is written on a single edge line whose label names [a] twice. *)
Lemma repeated_edge_classified_nfa :
  (forall k, List.length (set_of (occ k (edges repeated_edge))) <= 1)
  /\ Dot.parse_dot_file sample_engine repeated_edge
     = inr (Automaton.make NFA ["a"] ["q0"; "q1"] (Some "q0") []
              [(("q0", "a"), Many ["q1"])], NFA)
  /\ (forall k, List.length (set_of (occ k (edges doubled_symbol))) <= 1)
  /\ map (fun raw => List.length (line_edges raw))
         (PyStr.split Dot.newline doubled_symbol) = [0; 2]
  /\ Dot.parse_dot_file sample_engine doubled_symbol
     = inr (Automaton.make NFA ["a"] ["q0"; "q1"] (Some "q0") []
              [(("q0", "a"), Many ["q1"])], NFA).
Proof.
  assert (E : edges repeated_edge
              = [(("q0", "a"), "q1"); (("q0", "a"), "q1")])
    by (vm_compute; reflexivity).
  assert (E' : edges doubled_symbol
               = [(("q0", "a"), "q1"); (("q0", "a"), "q1")])
    by (vm_compute; reflexivity).
  split; [|split; [|split; [|split]]].
  - rewrite E. intros k. unfold occ. simpl.
    destruct (key_eqb k ("q0", "a")); vm_compute; lia.
  - vm_compute. reflexivity.
  - rewrite E'. intros k. unfold occ. simpl.
    destruct (key_eqb k ("q0", "a")); vm_compute; lia.
  - vm_compute. reflexivity.
  - vm_compute. reflexivity.
Qed.

(** C9 (as the code has it). The guard of the deterministic conversion
    tests the length of the scanned list, repeats included: when the type
    is ['dfa'] and some entry has two distinct targets, the conversion
    fails, with an error that carries the pair and the list of the first
    entry, in the order of the scan, whose list is not a single target;
    that entry is the one with the two distinct targets when the entries
    before it are single targets.  No graph text triggers the guard: the
    only failure of [parse_dot_file] on a text is an exception of the
    engine class. *)
Theorem determinism_guard :
  (forall items acc k l x y,
     In (k, l) items -> In x l -> In y l -> x <> y ->
     exists pre state symbol targets post,
       items = (pre ++ ((state, symbol), targets) :: post)%list
       /\ Forall (fun kv => List.length (snd kv) = 1) pre
       /\ List.length targets <> 1
       /\ Dot.process_transitions DFA items acc
          = inl (InconsistentDeterminism state symbol targets))
  /\ (forall pre state symbol l post acc x y,
        Forall (fun kv => List.length (snd kv) = 1) pre ->
        In x l -> In y l -> x <> y ->
        Dot.process_transitions DFA
          (pre ++ ((state, symbol), l) :: post)%list acc
        = inl (InconsistentDeterminism state symbol l))
  /\ (forall engine dot_source e,
        Dot.parse_dot_file engine dot_source = inl e -> e = EngineError).
Proof.
  split; [|split].
  - intros items acc k l x y Hin Hx Hy N.
    apply process_transitions_guard. intros F.
    rewrite Forall_forall in F. specialize (F _ Hin). simpl in F.
    destruct l as [|a [|b r]]; simpl in *; try discriminate; intuition congruence.
  - intros pre state symbol l post acc x y Hpre Hx Hy N.
    assert (L : (List.length l =? 1)%nat = false).
    { apply Nat.eqb_neq.
      destruct l as [|a [|b r]]; simpl in *; try discriminate;
        intuition congruence. }
    revert acc. induction Hpre as [|[[s0 a0] l0] pre H0 Hpre IH]; intros acc;
      simpl.
    + now rewrite L.
    + simpl in H0. rewrite H0. simpl. apply IH.
  - intros engine dot_source e. apply parse_dot_file_error.
Qed.

Lemma determinism_guard_witness :
  Dot.process_transitions DFA
    [(("q0", "a"), ["q1"]); (("q1", "b"), ["q0"; "q2"])] []
  = inl (InconsistentDeterminism "q1" "b" ["q0"; "q2"]).
Proof.
  apply (proj1 (proj2 determinism_guard)
           [(("q0", "a"), ["q1"])] "q1" "b" ["q0"; "q2"] [] [] "q0" "q2").
  - repeat constructor.
  - simpl. auto.
  - simpl. auto.
  - discriminate.
Defined.

(** C9, the claim as written fails: the pair [(q1, b)] is the one with two
    distinct targets, and the error carries the pair [(q0, a)], whose one
    target was recorded twice. *)
Lemma guard_names_first_long_entry :
  Dot.process_transitions DFA
    [(("q0", "a"), ["q1"; "q1"]); (("q1", "b"), ["q0"; "q2"])] []
  = inl (InconsistentDeterminism "q0" "a" ["q1"; "q1"]).
Proof. reflexivity. Qed.

(* ================================================================== *)
(** ** The initial state and the closure of the scan *)
(* ================================================================== *)

Section ScanInvariants.
Import Dot.

Lemma add_edge_initial st line :
  initial_state (add_edge st line) = initial_state st.
Proof.
  unfold add_edge. destruct (parse_edge line) as [[f t] syms].
  destruct (add_transition_fold f t syms
    (mk_scan (set_add t (set_add f (states st)))
       (fold_left add_symbol syms (alphabet st)) (transitions st)
       (initial_state st) (final_states st) (automaton_type st)))
    as (_ & _ & C & _).
  exact C.
Qed.

(** Only a start edge of the sentinel sets the initial state. *)
Lemma scan_line_initial st raw :
  is_initial_line raw = false ->
  initial_state (scan_line st raw) = initial_state st.
Proof.
  unfold is_initial_line, scan_line. intros H. rewrite H.
  destruct (PyStr.startswith "node [shape = doublecircle]" (PyStr.strip raw)).
  - now destruct (mark_final_fold (PyStr.split ";" (PyStr.strip raw)) st)
      as (_ & _ & C & _).
  - destruct (PyStr.startswith "node [shape = circle]" (PyStr.strip raw));
      [reflexivity|].
    destruct (PyStr.contains "->" (PyStr.strip raw) && negb false);
      [apply add_edge_initial | reflexivity].
Qed.

Lemma scan_lines_initial ls : forall st,
  (forall raw, In raw ls -> is_initial_line raw = false) ->
  initial_state (fold_left scan_line ls st) = initial_state st.
Proof.
  induction ls as [|l ls IH]; intros st H; simpl; [reflexivity|].
  rewrite IH by (intros; apply H; now right).
  apply scan_line_initial. apply H. now left.
Qed.

Lemma nonempty_true s : PyStr.nonempty s = true <-> s <> "".
Proof. destruct s; simpl; split; congruence. Qed.

Lemma add_symbol_fold_In syms : forall al x,
  In x (fold_left add_symbol syms al) <-> In x al \/ (In x syms /\ x <> "").
Proof.
  induction syms as [|sym syms IH]; intros al x; simpl.
  - tauto.
  - rewrite IH. unfold add_symbol.
    destruct (PyStr.nonempty sym) eqn:E.
    + apply nonempty_true in E. rewrite set_add_In.
      split; [intros [[-> | H] | [H1 H2]] | intros [H | [[-> | H1] H2]]];
        auto.
    + assert (sym = "") by (destruct sym; [reflexivity | discriminate]).
      subst sym. split; [intros [H | [H1 H2]] | intros [H | [[<- | H1] H2]]];
        auto. contradiction.
Qed.

Lemma closed_entry_mono S A S' A' kv :
  incl S S' -> incl A A' -> closed_entry S A kv -> closed_entry S' A' kv.
Proof.
  intros HS HA (H1 & H2 & H3). repeat split.
  - now apply HS.
  - eapply incl_tran; eassumption.
  - intros N. apply HA. now apply H3.
Qed.

Lemma add_transition_closed f t st sym :
  closed_scan st -> In f (states st) -> In t (states st) ->
  (sym <> "" -> In sym (alphabet st)) ->
  closed_scan (add_transition f t st sym).
Proof.
  intros [HF HE] Hf Ht Hs. split; simpl; [|exact HE].
  apply (dict_set_Forall key_eqb key_eqb_eq); [exact HF|].
  repeat split; simpl; auto.
  apply incl_app.
  - unfold dict_get.
    destruct (dict_find key_eqb (f, sym) (transitions st)) eqn:E.
    + apply (dict_find_In key_eqb key_eqb_eq) in E.
      rewrite Forall_forall in HF. now destruct (HF _ E) as (_ & H & _).
    + intros x [].
  - intros x [<- | []]. exact Ht.
Qed.

Lemma add_transition_fold_closed f t syms : forall st,
  closed_scan st -> In f (states st) -> In t (states st) ->
  (forall sym, In sym syms -> sym <> "" -> In sym (alphabet st)) ->
  closed_scan (fold_left (add_transition f t) syms st).
Proof.
  induction syms as [|sym syms IH]; intros st HC Hf Ht Hs; simpl;
    [exact HC|].
  apply IH.
  - apply add_transition_closed; auto. apply Hs. now left.
  - exact Hf.
  - exact Ht.
  - intros s' H N. simpl. apply Hs; [now right | exact N].
Qed.

Lemma add_edge_closed st line : closed_scan st -> closed_scan (add_edge st line).
Proof.
  intros [HF HE]. unfold add_edge.
  destruct (parse_edge line) as [[f t] syms].
  apply add_transition_fold_closed; simpl.
  - split; simpl.
    + eapply Forall_impl; [|exact HF]. intros kv.
      apply closed_entry_mono.
      * eapply incl_tran; apply set_add_incl.
      * intros x Hx. apply add_symbol_fold_In. now left.
    + rewrite add_symbol_fold_In. intros [H | [_ H]]; auto.
  - apply set_add_In. right. apply set_add_In. now left.
  - apply set_add_In. now left.
  - intros sym H N. apply add_symbol_fold_In. now right.
Qed.

Lemma scan_line_closed st raw : closed_scan st -> closed_scan (scan_line st raw).
Proof.
  intros HC. unfold scan_line.
  destruct (PyStr.startswith "node [shape = doublecircle]" (PyStr.strip raw)).
  - destruct (mark_final_fold (PyStr.split ";" (PyStr.strip raw)) st)
      as (A & _ & _ & D & E).
    destruct HC as [HF HE]. split; rewrite ?A, ?D; [|exact HE].
    eapply Forall_impl; [|exact HF]. intros kv.
    apply closed_entry_mono; [exact E | apply incl_refl].
  - destruct (PyStr.startswith "node [shape = circle]" (PyStr.strip raw));
      [exact HC|].
    destruct (PyStr.contains "->" (PyStr.strip raw)
              && negb (PyStr.startswith "null ->" (PyStr.strip raw)));
      [now apply add_edge_closed|].
    destruct (PyStr.startswith "null ->" (PyStr.strip raw)); [|exact HC].
    destruct HC as [HF HE]. split; simpl; [|exact HE].
    eapply Forall_impl; [|exact HF]. intros kv.
    apply closed_entry_mono; [apply set_add_incl | apply incl_refl].
Qed.

Lemma scan_source_closed dot_source : closed_scan (scan_source dot_source).
Proof.
  unfold scan_source.
  assert (G : forall ls st, closed_scan st ->
                closed_scan (fold_left scan_line ls st)).
  { induction ls as [|l ls IH]; intros st H; simpl; [exact H|].
    apply IH. now apply scan_line_closed. }
  apply G. split; simpl; [constructor | tauto].
Qed.

End ScanInvariants.

(** C5 (as the code has it). The reconstructor has no check for a missing
    start edge: for a graph text none of whose lines is a start edge of the
    sentinel, the scan and the conversion raise nothing and the engine
    class is called with a definition whose initial state is [None].  The
    outcome is that of the class: an automaton without initial state when
    it accepts the definition, its exception when it does not. *)
Theorem no_start_edge_initial_none (dot_source : string) :
  (forall raw, In raw (PyStr.split Dot.newline dot_source) ->
     is_initial_line raw = false) ->
  exists a,
    Automaton.initial a = None
    /\ (forall engine,
          Dot.parse_dot_file engine dot_source
          = Engine.construct_tagged engine (a, Automaton.cls a))
    /\ (forall engine,
          engine a = true ->
          Dot.parse_dot_file engine dot_source = inr (a, Automaton.cls a))
    /\ (forall engine,
          engine a = false ->
          Dot.parse_dot_file engine dot_source = inl EngineError).
Proof.
  intros H. destruct (constructor_arguments_total dot_source) as (p & _ & Hp).
  eexists. split; [|split; [|split]].
  2: { intros engine. exact (parse_dot_file_arguments engine _ _ Hp). }
  - simpl. unfold Dot.scan_source. now rewrite scan_lines_initial.
  - intros engine He. rewrite (parse_dot_file_arguments engine _ _ Hp).
    unfold Engine.construct_tagged. simpl fst.
    rewrite construct_accepted by exact He. reflexivity.
  - intros engine He. rewrite (parse_dot_file_arguments engine _ _ Hp).
    unfold Engine.construct_tagged. simpl fst.
    rewrite construct_refused by exact He. reflexivity.
Qed.

Lemma no_start_edge_initial_none_witness :
  exists a,
    Automaton.initial a = None
    /\ (forall engine,
          Dot.parse_dot_file engine branching_no_start_edge
          = Engine.construct_tagged engine (a, Automaton.cls a))
    /\ (forall engine,
          engine a = true ->
          Dot.parse_dot_file engine branching_no_start_edge
          = inr (a, Automaton.cls a))
    /\ (forall engine,
          engine a = false ->
          Dot.parse_dot_file engine branching_no_start_edge
          = inl EngineError).
Proof.
  apply no_start_edge_initial_none.
  intros raw H. vm_compute in H.
  destruct H as [<- | [<- | [<- | [<- | []]]]]; reflexivity.
Defined.

(** C5, the claim as written fails: [no_start_edge] has no start edge, and
    its reconstruction ends with an automaton whose initial state is
    [None]; where a text without start edge does fail, as
    [branching_no_start_edge] does, the error is the exception of the
    engine class. *)
Lemma no_start_edge_is_reconstructed :
  (forall raw, In raw (PyStr.split Dot.newline no_start_edge) ->
     is_initial_line raw = false)
  /\ Dot.parse_dot_file sample_engine no_start_edge
     = inr (Automaton.make DFA ["a"] ["q0"; "q1"] None []
              [(("q0", "a"), Single "q1")], DFA)
  /\ Dot.parse_dot_file sample_engine branching_no_start_edge
     = inl EngineError.
Proof.
  split; [|split].
  - intros raw H. vm_compute in H.
    destruct H as [<- | [<- | [<- | []]]]; reflexivity.
  - vm_compute. reflexivity.
  - vm_compute. reflexivity.
Qed.

(** C6 (as the code has it). In every reconstructed definition the source
    and the targets of every transition are members of the state set, and
    every non-empty symbol of a transition key is a member of the
    alphabet; the empty symbol of an unlabelled transition is never a
    member of the alphabet. *)
Theorem reconstructed_closure (engine : Engine.t) (dot_source : string)
    (a : automaton) (ty : kind) :
  Dot.parse_dot_file engine dot_source = inr (a, ty) ->
  (forall k v, In (k, v) (Automaton.transitions a) ->
     In (fst k) (Automaton.states a)
     /\ (forall x, In x (targets_of v) -> In x (Automaton.states a))
     /\ (snd k <> "" -> In (snd k) (Automaton.alphabet a)))
  /\ ~ In "" (Automaton.alphabet a).
Proof.
  intros H. apply parse_dot_file_inr in H.
  destruct (constructor_arguments_total dot_source) as (p & Hp & Hparse).
  rewrite Hparse in H. inversion H; subst. clear H. simpl.
  destruct (scan_source_closed dot_source) as [HF HE].
  split; [|exact HE].
  intros k v Hin.
  destruct (process_transitions_entries _ _ _ _ Hp _ _ Hin)
    as [[] | (l & Hl & Hincl)].
  rewrite Forall_forall in HF. destruct (HF _ Hl) as (H1 & H2 & H3).
  simpl in H1, H2, H3. repeat split.
  - now apply ensure_states_fold_incl.
  - intros x Hx. apply ensure_states_fold_incl. apply H2. now apply Hincl.
  - exact H3.
Qed.

Lemma reconstructed_closure_witness :
  (forall k v,
     In (k, v) [(("q0", "a"), Single "q1"); (("q0", "b"), Single "q1");
                (("q1", ""), Single "q0")] ->
     In (fst k) ["q0"; "q1"]
     /\ (forall x, In x (targets_of v) -> In x ["q0"; "q1"])
     /\ (snd k <> "" -> In (snd k) ["a"; "b"]))
  /\ ~ In "" ["a"; "b"].
Proof.
  apply (reconstructed_closure sample_engine mixed_edges
           (Automaton.make DFA ["a"; "b"] ["q0"; "q1"] (Some "q0") []
              [(("q0", "a"), Single "q1"); (("q0", "b"), Single "q1");
               (("q1", ""), Single "q0")]) DFA).
  vm_compute. reflexivity.
Defined.

(** C6, the claim as written fails: the unlabelled edge of
    [unlabelled_edge] gives the transition key [(q0, "")], and the
    alphabet of the reconstructed definition is empty. *)
Lemma empty_symbol_not_in_alphabet :
  exists a,
    Dot.parse_dot_file sample_engine unlabelled_edge = inr (a, DFA)
    /\ In (("q0", ""), Single "q1") (Automaton.transitions a)
    /\ ~ In "" (Automaton.alphabet a).
Proof.
  eexists. split; [vm_compute; reflexivity|]. simpl. split; [now left | tauto].
Qed.

(** C8. Scenario 1 reconstructs a deterministic automaton with the states
    [q0] and [q1], the alphabet [0], [1], the initial state [q0], the final
    state [q1] and the four transitions, each with a single target: that
    definition is the one [DFA(...)] is called with, and the automaton
    returned. *)
Theorem scenario1_reconstruction :
  (forall engine,
     Dot.parse_dot_file engine scenario1
     = Engine.construct_tagged engine
         (Automaton.make DFA ["0"; "1"] ["q1"; "q0"] (Some "q0") ["q1"]
            [(("q0", "0"), Single "q0"); (("q0", "1"), Single "q1");
             (("q1", "0"), Single "q1"); (("q1", "1"), Single "q0")], DFA))
  /\ Dot.parse_dot_file sample_engine scenario1
     = inr (Automaton.make DFA ["0"; "1"] ["q1"; "q0"] (Some "q0") ["q1"]
              [(("q0", "0"), Single "q0"); (("q0", "1"), Single "q1");
               (("q1", "0"), Single "q1"); (("q1", "1"), Single "q0")], DFA).
Proof.
  split.
  - intros engine. apply parse_dot_file_arguments. vm_compute. reflexivity.
  - vm_compute. reflexivity.
Qed.

(** A start edge of the sentinel is taken by the fourth branch of the scan
    and by no other. *)
Lemma scan_line_initial_set st raw :
  is_initial_line raw = true ->
  Dot.initial_state (Dot.scan_line st raw)
  = Some (Dot.parse_initial (PyStr.strip raw)).
Proof.
  unfold is_initial_line, Dot.scan_line, PyStr.startswith. intros H.
  assert (P : forall a p c r,
             String.prefix (String a p) (String c r)
             = if ascii_dec a c then String.prefix p r else false)
    by reflexivity.
  rewrite H.
  destruct (PyStr.strip raw) as [|c1 [|c2 r]]; try discriminate.
  - rewrite P in H. destruct (ascii_dec "n" c1); discriminate.
  - rewrite !P in H.
    destruct (ascii_dec "n" c1); [|discriminate].
    destruct (ascii_dec "u" c2); [|discriminate]. subst c1 c2.
    rewrite andb_false_r. reflexivity.
Qed.

(* ================================================================== *)
(** ** The flat builders *)
(* ================================================================== *)

Lemma check_next_states_ok states ns :
  Cli.check_next_states states ns = inr tt
  <-> forallb (fun n => mem n states) ns = true.
Proof.
  induction ns as [|n ns IH]; simpl; [tauto|].
  destruct (mem n states); simpl; [exact IH|]. split; discriminate.
Qed.

Lemma check_next_states_cases states ns :
  Cli.check_next_states states ns = inr tt
  \/ exists e, Cli.check_next_states states ns = inl e.
Proof.
  induction ns as [|n ns IH]; simpl; [now left|].
  destruct (mem n states); simpl; [exact IH | right; eauto].
Qed.

(** The ['nfa'] loop succeeds exactly on lists of valid records. *)
Lemma build_nfa_succeeds alphabet states records : forall acc,
  (exists table, Cli.build_nfa alphabet states records acc = inr table)
  <-> Forall (fun t => valid_nfa_record alphabet states t = true) records.
Proof.
  induction records as [|t rs IH]; intros acc; simpl.
  - split; [constructor | eauto].
  - rewrite Forall_cons_iff. unfold valid_nfa_record at 1.
    destruct (comma_fields t) as [|state [|symbol [|n ns]]].
    1-3: split; [intros [? H]; discriminate | intros [H _]; discriminate].
    destruct (mem state states); simpl.
    2: split; [intros [? H]; discriminate | intros [H _]; discriminate].
    destruct (mem symbol alphabet); simpl.
    2: split; [intros [? H]; discriminate | intros [H _]; discriminate].
    destruct (mem n states) eqn:En; simpl.
    2: split; [intros [? H]; discriminate | intros [H _]; discriminate].
    destruct (check_next_states_cases states ns) as [Hc | [e Hc]].
    + rewrite Hc. simpl. rewrite IH.
      apply check_next_states_ok in Hc. rewrite Hc. tauto.
    + rewrite Hc. simpl.
      assert (forallb (fun ns0 => mem ns0 states) ns = false) as ->.
      { destruct (forallb (fun ns0 => mem ns0 states) ns) eqn:F;
          [|reflexivity].
        apply check_next_states_ok in F. congruence. }
      split; [intros [? H]; discriminate | intros [H _]; discriminate].
Qed.

(** Each record extends the tuple kept for its pair. *)
Lemma build_nfa_targets alphabet states records : forall acc table,
  Cli.build_nfa alphabet states records acc = inr table ->
  forall k,
    dict_get key_eqb k table []
    = (dict_get key_eqb k acc [] ++ named_targets k records)%list.
Proof.
  induction records as [|t rs IH]; intros acc table H k; simpl in H.
  - inversion H; subst. unfold named_targets. simpl. now rewrite app_nil_r.
  - unfold named_targets. simpl. unfold record_key, record_targets.
    destruct (comma_fields t) as [|state [|symbol [|n ns]]]; try discriminate.
    destruct (mem state states); simpl in H; [|discriminate].
    destruct (mem symbol alphabet); simpl in H; [|discriminate].
    destruct (mem n states); simpl in H; [|discriminate].
    destruct (Cli.check_next_states states ns); simpl in H; [discriminate|].
    rewrite (IH _ _ H k). fold (named_targets k rs).
    rewrite app_assoc. f_equal. simpl nth. simpl skipn.
    destruct (key_eqb k (state, symbol)) eqn:E.
    + apply key_eqb_eq in E. subst k. unfold dict_get at 2.
      destruct (dict_find key_eqb (state, symbol) acc);
        now rewrite dict_get_set_same.
    + rewrite app_nil_r. apply key_eqb_neq in E.
      destruct (dict_find key_eqb (state, symbol) acc);
        apply dict_get_set_other; congruence.
Qed.

Lemma named_targets_In k records x :
  In x (named_targets k records)
  <-> exists t, In t records /\ record_key t = k /\ In x (record_targets t).
Proof.
  unfold named_targets. rewrite in_flat_map. split.
  - intros (t & Ht & Hx). destruct (key_eqb k (record_key t)) eqn:E;
      [|contradiction].
    apply key_eqb_eq in E. eauto.
  - intros (t & Ht & <- & Hx). exists t. rewrite key_eqb_refl. auto.
Qed.

(** C4 (as the code has it). In a nondeterministic flat build the value
    kept for a pair is a tuple, extended by [+=] with the targets of every
    record that names the pair: it is the concatenation, in record order,
    of those records' target lists, so for two records of the same pair it
    is the first list followed by the second. Its members are the union of
    the lists, and reordering the records changes neither the success of
    the build nor the members kept for any pair; repeated targets are
    kept. *)
Theorem nfa_accumulation (alphabet states records : list string)
    (table : list (key * list string)) :
  Cli.build_nfa alphabet states records [] = inr table ->
  (forall k, dict_get key_eqb k table [] = named_targets k records)
  /\ (forall t1 t2, records = [t1; t2] -> record_key t1 = record_key t2 ->
        dict_get key_eqb (record_key t1) table []
        = (record_targets t1 ++ record_targets t2)%list
        /\ forall x, In x (dict_get key_eqb (record_key t1) table [])
                     <-> In x (record_targets t1) \/ In x (record_targets t2))
  /\ (forall records', Permutation records records' ->
        exists table',
          Cli.build_nfa alphabet states records' [] = inr table'
          /\ forall k x, In x (dict_get key_eqb k table' [])
                         <-> In x (dict_get key_eqb k table [])).
Proof.
  intros H.
  assert (G : forall k, dict_get key_eqb k table [] = named_targets k records).
  { intros k. now rewrite (build_nfa_targets _ _ _ _ _ H k). }
  split; [exact G | split].
  - intros t1 t2 -> E.
    assert (E' : dict_get key_eqb (record_key t1) table []
                 = (record_targets t1 ++ record_targets t2)%list).
    { rewrite G. unfold named_targets. simpl.
      rewrite <- E, key_eqb_refl, app_nil_r. reflexivity. }
    split; [exact E'|]. intros x. rewrite E'. apply in_app_iff.
  - intros records' P.
    assert (V : Forall (fun t => valid_nfa_record alphabet states t = true)
                  records)
      by (apply (build_nfa_succeeds alphabet states records []); eauto).
    assert (V' : Forall (fun t => valid_nfa_record alphabet states t = true)
                   records')
      by (eapply Permutation_Forall; eassumption).
    apply (build_nfa_succeeds alphabet states records' []) in V'.
    destruct V' as [table' H']. exists table'. split; [exact H'|].
    intros k x. rewrite G.
    rewrite (build_nfa_targets _ _ _ _ _ H' k). simpl.
    rewrite !named_targets_In.
    split; intros (t & Ht & Hk & Hx); exists t; repeat split; auto.
    + eapply Permutation_in; [apply Permutation_sym|]; eassumption.
    + eapply Permutation_in; eassumption.
Qed.

Lemma nfa_accumulation_witness :
  dict_get key_eqb ("s0", "a") [(("s0", "a"), ["s1"; "s0"; "s2"])] []
  = named_targets ("s0", "a") ["s0,a,s1"; "s0 , a , s0, s2"].
Proof.
  apply (nfa_accumulation ["a"; "b"] ["s0"; "s1"; "s2"]
           ["s0,a,s1"; "s0 , a , s0, s2"]
           [(("s0", "a"), ["s1"; "s0"; "s2"])]).
  vm_compute. reflexivity.
Defined.

(** C4, the claim as written fails: two records that name the same target
    for one pair leave that target twice in the accumulated value. *)
Lemma nfa_accumulation_keeps_duplicates :
  Cli.build_nfa ["a"] ["q0"; "q1"] ["q0,a,q1"; "q0,a,q1"] []
  = inr [(("q0", "a"), ["q1"; "q1"])]
  /\ ~ NoDup ["q1"; "q1"].
Proof.
  split; [vm_compute; reflexivity|].
  intros H. inversion H as [|? ? N _]. apply N. now left.
Qed.

(** The ['dfa'] loop of main3-0.py: a successful build has stored one
    entry per record, in record order, and all its pairs are distinct, so
    no record has replaced the target of another. *)
Lemma build_dfa_table alphabet states records : forall acc table,
  NoDup (map fst acc) ->
  Cli.build_dfa alphabet states records acc = inr table ->
  table = (acc ++ map (fun t => (record_key t, nth 2 (comma_fields t) ""))
                      records)%list
  /\ NoDup (map fst table).
Proof.
  induction records as [|t rs IH]; intros acc table ND H; simpl in H.
  - inversion H; subst. rewrite app_nil_r. auto.
  - simpl. unfold record_key.
    destruct (comma_fields t) as [|state [|symbol [|next [|x r]]]];
      try discriminate.
    destruct (mem state states); simpl in H; [|discriminate].
    destruct (mem symbol alphabet); simpl in H; [|discriminate].
    destruct (mem next states); simpl in H; [|discriminate].
    destruct (dict_mem key_eqb (state, symbol) acc) eqn:M; [discriminate|].
    assert (F : ~ In (state, symbol) (map fst acc)).
    { intros HI. apply (dict_mem_In key_eqb key_eqb_eq) in HI. congruence. }
    rewrite (dict_set_fresh key_eqb key_eqb_eq) in H by exact F.
    apply IH in H.
    + destruct H as [-> H2]. split; [|exact H2].
      now rewrite <- app_assoc.
    + rewrite map_app. simpl. apply NoDup_app; try assumption.
      * repeat constructor. simpl. tauto.
      * intros k Hk [<- | []]. contradiction.
Qed.

(** On records that pass the membership checks the only failure of the
    ['dfa'] loop is the duplicate-transition error. *)
Lemma build_dfa_valid_cases alphabet states records : forall acc,
  Forall (fun t => valid_dfa_record alphabet states t = true) records ->
  (exists table, Cli.build_dfa alphabet states records acc = inr table)
  \/ (exists state symbol,
        Cli.build_dfa alphabet states records acc
        = inl (DuplicateTransition state symbol)).
Proof.
  induction records as [|t rs IH]; intros acc V; simpl; [eauto|].
  inversion V as [|? ? Vt Vrs]; subst. unfold valid_dfa_record in Vt.
  destruct (comma_fields t) as [|state [|symbol [|next [|x r]]]];
    try discriminate.
  apply andb_true_iff in Vt. destruct Vt as [Vt V3].
  apply andb_true_iff in Vt. destruct Vt as [V1 V2].
  rewrite V1, V2, V3. simpl.
  destruct (dict_mem key_eqb (state, symbol) acc); [right; eauto|].
  now apply IH.
Qed.

(** main3-0.py rejects a second definition of a pair: a list of valid
    records in which two records name the same pair ends in the
    duplicate-transition error. *)
Lemma build_dfa_rejects_duplicates alphabet states records :
  Forall (fun t => valid_dfa_record alphabet states t = true) records ->
  ~ NoDup (map record_key records) ->
  exists state symbol,
    Cli.build_dfa alphabet states records []
    = inl (DuplicateTransition state symbol).
Proof.
  intros V D.
  destruct (build_dfa_valid_cases alphabet states records [] V)
    as [[table H] | H]; [|exact H].
  exfalso. apply D.
  destruct (build_dfa_table alphabet states records [] table
              (NoDup_nil key) H) as [-> ND].
  simpl in ND. now rewrite map_map in ND.
Qed.

(** C3, where the code departs from the claim: the interactive builder of
    fsm_creator.py stores a deterministic transition without looking for an
    earlier one, so a second definition of [(q0, 0)] silently replaces the
    target [q0] by [q1]; the same records given to main3-0.py end in the
    duplicate-transition error. *)
Theorem creator_dfa_overwrites_duplicate :
  Creator.enter_transitions DFA ["0"; "1"] ["q0"; "q1"]
    ["q0,0,q0"; "q0,0,q1"; "done"] []
  = inr [(("q0", "0"), Single "q1")]
  /\ Cli.build_dfa ["0"; "1"] ["q0"; "q1"] ["q0,0,q0"; "q0,0,q1"] []
     = inl (DuplicateTransition "q0" "0").
Proof. split; vm_compute; reflexivity. Qed.

(* ================================================================== *)
(** ** Further properties of the flat builders *)
(* ================================================================== *)

Lemma split_sep_pieces s :
  Forall (fun p => count_sep p = 0) (PyStr.split "," s).
Proof.
  induction s as [|c s IH]; [repeat constructor|].
  rewrite split_sep_step. destruct (Ascii.eqb c ",") eqn:E.
  - constructor; [reflexivity | exact IH].
  - destruct (PyStr.split "," s) as [|p ps]; [repeat constructor; simpl; now rewrite E|].
    inversion IH; subst. constructor; [|assumption]. simpl. now rewrite E.
Qed.

Lemma count_sep_lstrip s : count_sep (PyStr.lstrip s) <= count_sep s.
Proof.
  induction s as [|c s IH]; simpl; [lia|].
  destruct (PyStr.isspace c); simpl; lia.
Qed.

Lemma count_sep_rstrip s : count_sep (PyStr.rstrip s) <= count_sep s.
Proof.
  induction s as [|c s IH]; simpl; [lia|].
  destruct (PyStr.rstrip s) as [|d r].
  - destruct (PyStr.isspace c); simpl; lia.
  - simpl in *. lia.
Qed.

Lemma count_sep_strip s : count_sep s = 0 -> count_sep (PyStr.strip s) = 0.
Proof.
  intros H. unfold PyStr.strip.
  pose proof (count_sep_rstrip (PyStr.lstrip s)).
  pose proof (count_sep_lstrip s). lia.
Qed.

(** No field of a comma-separated text holds a separator. *)
Lemma comma_fields_sep_free t :
  Forall (fun p => count_sep p = 0) (comma_fields t).
Proof.
  unfold comma_fields. apply Forall_forall. intros p Hp.
  apply in_map_iff in Hp. destruct Hp as (q & <- & Hq).
  apply count_sep_strip.
  pose proof (split_sep_pieces t) as F. rewrite Forall_forall in F. auto.
Qed.

Lemma build_dfa_app alphabet states pre rest : forall acc,
  Cli.build_dfa alphabet states (pre ++ rest) acc
  = bind (Cli.build_dfa alphabet states pre acc)
         (Cli.build_dfa alphabet states rest).
Proof.
  induction pre as [|t pre IH]; intros acc; simpl; [reflexivity|].
  destruct (comma_fields t) as [|state [|symbol [|next [|x r]]]];
    try reflexivity.
  destruct (mem state states); simpl; [|reflexivity].
  destruct (mem symbol alphabet); simpl; [|reflexivity].
  destruct (mem next states); simpl; [|reflexivity].
  destruct (dict_mem key_eqb (state, symbol) acc); [reflexivity|].
  apply IH.
Qed.

Lemma build_nfa_app alphabet states pre rest : forall acc,
  Cli.build_nfa alphabet states (pre ++ rest) acc
  = bind (Cli.build_nfa alphabet states pre acc)
         (Cli.build_nfa alphabet states rest).
Proof.
  induction pre as [|t pre IH]; intros acc; simpl; [reflexivity|].
  destruct (comma_fields t) as [|state [|symbol [|n ns]]]; try reflexivity.
  destruct (mem state states); simpl; [|reflexivity].
  destruct (mem symbol alphabet); simpl; [|reflexivity].
  destruct (mem n states); simpl; [|reflexivity].
  destruct (Cli.check_next_states states ns); simpl; [reflexivity|].
  apply IH.
Qed.

Lemma build_dfa_succeeds alphabet states records : forall acc,
  NoDup (map fst acc) ->
  (exists table, Cli.build_dfa alphabet states records acc = inr table)
  <-> Forall (fun t => valid_dfa_record alphabet states t = true) records
      /\ NoDup (map fst acc ++ map record_key records).
Proof.
  induction records as [|t rs IH]; intros acc ND.
  - simpl. rewrite app_nil_r. split; [intros _; auto | eauto].
  - rewrite Forall_cons_iff. cbn [map Cli.build_dfa].
    unfold valid_dfa_record at 1. unfold record_key at 1.
    destruct (comma_fields t) as [|state [|symbol [|next [|x r]]]].
    1-3,5: split; [intros [? H]; discriminate | intros [[H _] _]; discriminate].
    cbn [nth].
    destruct (mem state states); cbn [negb andb].
    2: split; [intros [? H]; discriminate | intros [[H _] _]; discriminate].
    destruct (mem symbol alphabet); cbn [negb andb].
    2: split; [intros [? H]; discriminate | intros [[H _] _]; discriminate].
    destruct (mem next states); cbn [negb andb].
    2: split; [intros [? H]; discriminate | intros [[H _] _]; discriminate].
    destruct (dict_mem key_eqb (state, symbol) acc) eqn:M.
    + split; [intros [? H]; discriminate|]. intros [_ N]. exfalso.
      apply (dict_mem_In key_eqb key_eqb_eq) in M.
      apply NoDup_remove_2 in N. apply N. apply in_or_app. now left.
    + assert (F : ~ In (state, symbol) (map fst acc)).
      { intros HI. apply (dict_mem_In key_eqb key_eqb_eq) in HI. congruence. }
      rewrite (dict_set_fresh key_eqb key_eqb_eq) by exact F.
      rewrite IH.
      * rewrite map_app. cbn [map fst]. rewrite <- app_assoc. cbn [app].
        tauto.
      * rewrite map_app. cbn [map fst]. apply NoDup_app; try assumption.
        -- repeat constructor. simpl. tauto.
        -- intros k Hk [<- | []]. contradiction.
Qed.

(** X1. The deterministic build of main3-0.py succeeds exactly when every
    record has three fields with a declared state, symbol and target and
    no two records name the same pair; the table then holds one entry per
    record, in record order. *)
Theorem cli_dfa_build_succeeds_iff (alphabet states records : list string) :
  ((exists table, Cli.build_dfa alphabet states records [] = inr table)
   <-> Forall (fun t => valid_dfa_record alphabet states t = true) records
       /\ NoDup (map record_key records))
  /\ (forall table,
        Cli.build_dfa alphabet states records [] = inr table ->
        table = map dfa_entry records).
Proof.
  split.
  - apply (build_dfa_succeeds alphabet states records []). constructor.
  - intros table H.
    now destruct (build_dfa_table alphabet states records [] table
                    (NoDup_nil key) H) as [-> _].
Qed.

(** X2. Fail-fast composition of the deterministic build: building a list
    of records is building its first part and then the rest on the table
    so far, so an error in the first part is the error of the whole build,
    whatever follows. *)
Theorem cli_dfa_build_fail_fast (alphabet states pre rest : list string) :
  Cli.build_dfa alphabet states (pre ++ rest) []
  = bind (Cli.build_dfa alphabet states pre [])
         (Cli.build_dfa alphabet states rest)
  /\ (forall e, Cli.build_dfa alphabet states pre [] = inl e ->
                Cli.build_dfa alphabet states (pre ++ rest) [] = inl e).
Proof.
  split; [apply build_dfa_app|].
  intros e H. now rewrite build_dfa_app, H.
Qed.

(** X3. The duplicate-transition error names the pair of the first record
    that repeats an earlier pair: after valid records with distinct pairs,
    a valid record whose pair was already given fails the build with that
    pair, whatever follows. *)
Theorem cli_dfa_duplicate_named (alphabet states pre post : list string)
    (t : string) :
  Forall (fun r => valid_dfa_record alphabet states r = true) (pre ++ [t]) ->
  NoDup (map record_key pre) ->
  In (record_key t) (map record_key pre) ->
  Cli.build_dfa alphabet states (pre ++ t :: post) []
  = inl (DuplicateTransition (fst (record_key t)) (snd (record_key t))).
Proof.
  intros V ND Hin. apply Forall_app in V. destruct V as [Vpre Vt].
  inversion Vt as [|? ? Vt' _]; subst.
  assert (S : exists table, Cli.build_dfa alphabet states pre [] = inr table).
  { apply (build_dfa_succeeds alphabet states pre []); [constructor|].
    split; assumption. }
  destruct S as [table Hpre].
  rewrite build_dfa_app, Hpre. cbn [bind Cli.build_dfa].
  destruct (build_dfa_table alphabet states pre [] table (NoDup_nil key) Hpre)
    as [-> _].
  unfold valid_dfa_record in Vt'. unfold record_key in *.
  destruct (comma_fields t) as [|state [|symbol [|next [|x r]]]];
    try discriminate.
  cbn [nth fst snd] in *.
  apply andb_true_iff in Vt'. destruct Vt' as [Vt' V3].
  apply andb_true_iff in Vt'. destruct Vt' as [V1 V2].
  rewrite V1, V2, V3. cbn [negb].
  assert (M : dict_mem key_eqb (state, symbol)
                (map (fun t0 => (record_key t0, nth 2 (comma_fields t0) "")) pre)
              = true).
  { apply (dict_mem_In key_eqb key_eqb_eq). rewrite map_map. exact Hin. }
  cbn [app]. unfold record_key in M. now rewrite M.
Qed.

Lemma cli_dfa_duplicate_named_witness :
  Cli.build_dfa ["0"; "1"] ["q0"; "q1"]
    (["q0,0,q0"; "q0,1,q1"] ++ "q0 , 0 , q1" :: ["q9,x,q9"]) []
  = inl (DuplicateTransition (fst (record_key "q0 , 0 , q1"))
           (snd (record_key "q0 , 0 , q1"))).
Proof.
  apply cli_dfa_duplicate_named.
  - repeat constructor.
  - simpl. repeat constructor; simpl; intuition discriminate.
  - simpl. now left.
Defined.

Lemma dict_set_keys {V : Type} k (v : V) (d : list (key * V)) :
  map fst (dict_set key_eqb k v d)
  = if dict_mem key_eqb k d then map fst d else (map fst d ++ [k])%list.
Proof.
  unfold dict_mem. induction d as [|[k' v'] d IH]; simpl; [reflexivity|].
  destruct (key_eqb k k') eqn:E; simpl; [reflexivity|].
  rewrite IH. destruct (dict_find key_eqb k d); reflexivity.
Qed.

Lemma dict_set_keys_NoDup {V : Type} k (v : V) (d : list (key * V)) :
  NoDup (map fst d) -> NoDup (map fst (dict_set key_eqb k v d)).
Proof.
  intros ND. rewrite dict_set_keys.
  destruct (dict_mem key_eqb k d) eqn:M; [exact ND|].
  apply NoDup_app; try assumption.
  - repeat constructor. simpl. tauto.
  - intros k' Hk' [<- | []].
    apply (dict_mem_In key_eqb key_eqb_eq) in Hk'. congruence.
Qed.

Lemma dict_set_keys_In {V : Type} k (v : V) (d : list (key * V)) k' :
  In k' (map fst (dict_set key_eqb k v d)) <-> k' = k \/ In k' (map fst d).
Proof.
  rewrite dict_set_keys. destruct (dict_mem key_eqb k d) eqn:M.
  - apply (dict_mem_In key_eqb key_eqb_eq) in M.
    split; [now right | intros [-> | H]; assumption].
  - rewrite in_app_iff. simpl. intuition.
Qed.

(** The shape of the nondeterministic table, for any table to start from. *)
Lemma build_nfa_shape alphabet states records : forall acc table,
  Cli.build_nfa alphabet states records acc = inr table ->
  NoDup (map fst acc) ->
  Forall (fun kv => snd kv <> []) acc ->
  NoDup (map fst table)
  /\ Forall (fun kv => snd kv <> []) table
  /\ forall k, In k (map fst table)
               <-> In k (map fst acc) \/ In k (map record_key records).
Proof.
  induction records as [|t rs IH]; intros acc table H ND NE; simpl in H.
  - inversion H; subst. simpl. intuition.
  - cbn [map]. unfold record_key at 1.
    destruct (comma_fields t) as [|state [|symbol [|n ns]]]; try discriminate.
    destruct (mem state states); simpl in H; [|discriminate].
    destruct (mem symbol alphabet); simpl in H; [|discriminate].
    destruct (mem n states); simpl in H; [|discriminate].
    destruct (Cli.check_next_states states ns); simpl in H; [discriminate|].
    cbn [nth].
    destruct (dict_find key_eqb (state, symbol) acc) as [old|] eqn:F;
      apply IH in H.
    + destruct H as (A & B & C). repeat split; auto;
        rewrite C, dict_set_keys_In; cbn [In]; intuition.
    + now apply dict_set_keys_NoDup.
    + apply (dict_set_Forall key_eqb key_eqb_eq); [assumption|].
      simpl. destruct old; discriminate.
    + destruct H as (A & B & C). repeat split; auto;
        rewrite C, dict_set_keys_In; cbn [In]; intuition.
    + now apply dict_set_keys_NoDup.
    + apply (dict_set_Forall key_eqb key_eqb_eq); [assumption|].
      simpl. discriminate.
Qed.

(** X4. The nondeterministic build of main3-0.py never rejects a repeated
    pair: it succeeds exactly when every record has at least three fields
    with a declared state, symbol and targets. Its table then holds each
    pair named by a record once, with a non-empty tuple. *)
Theorem cli_nfa_build_shape (alphabet states records : list string) :
  ((exists table, Cli.build_nfa alphabet states records [] = inr table)
   <-> Forall (fun t => valid_nfa_record alphabet states t = true) records)
  /\ (forall table,
        Cli.build_nfa alphabet states records [] = inr table ->
        NoDup (map fst table)
        /\ Forall (fun kv => snd kv <> []) table
        /\ forall k, In k (map fst table) <-> In k (map record_key records)).
Proof.
  split; [apply build_nfa_succeeds|].
  intros table H.
  destruct (build_nfa_shape alphabet states records [] table H
              (NoDup_nil key) (Forall_nil _)) as (A & B & C).
  repeat split; auto; rewrite C; simpl; intuition.
Qed.

Lemma check_final_incl states final_states :
  Cli.check_final states final_states = inr tt -> incl final_states states.
Proof.
  induction final_states as [|f fs IH]; simpl; intros H.
  - intros x [].
  - destruct (mem f states) eqn:M; simpl in H; [|discriminate].
    apply mem_In in M. intros x [<- | Hx]; [assumption | now apply IH].
Qed.

Lemma check_next_states_incl states ns :
  Cli.check_next_states states ns = inr tt -> incl ns states.
Proof.
  induction ns as [|n ns IH]; simpl; intros H.
  - intros x [].
  - destruct (mem n states) eqn:M; simpl in H; [|discriminate].
    apply mem_In in M. intros x [<- | Hx]; [assumption | now apply IH].
Qed.

Lemma build_dfa_declared alphabet states records : forall acc table,
  Cli.build_dfa alphabet states records acc = inr table ->
  Forall (fun kv => In (fst (fst kv)) states /\ In (snd (fst kv)) alphabet
                    /\ In (snd kv) states) acc ->
  Forall (fun kv : key * string =>
            In (fst (fst kv)) states /\ In (snd (fst kv)) alphabet
            /\ In (snd kv) states) table.
Proof.
  induction records as [|t rs IH]; intros acc table H Q; simpl in H.
  - now inversion H; subst.
  - destruct (comma_fields t) as [|state [|symbol [|next [|x r]]]];
      try discriminate.
    destruct (mem state states) eqn:M1; simpl in H; [|discriminate].
    destruct (mem symbol alphabet) eqn:M2; simpl in H; [|discriminate].
    destruct (mem next states) eqn:M3; simpl in H; [|discriminate].
    destruct (dict_mem key_eqb (state, symbol) acc); [discriminate|].
    apply IH in H; [exact H|].
    apply (dict_set_Forall key_eqb key_eqb_eq); [assumption|].
    simpl. rewrite <- !mem_In. auto.
Qed.

Lemma build_nfa_declared alphabet states records : forall acc table,
  Cli.build_nfa alphabet states records acc = inr table ->
  Forall (fun kv => In (fst (fst kv)) states /\ In (snd (fst kv)) alphabet
                    /\ incl (snd kv) states) acc ->
  Forall (fun kv : key * list string =>
            In (fst (fst kv)) states /\ In (snd (fst kv)) alphabet
            /\ incl (snd kv) states) table.
Proof.
  induction records as [|t rs IH]; intros acc table H Q; simpl in H.
  - now inversion H; subst.
  - destruct (comma_fields t) as [|state [|symbol [|n ns]]]; try discriminate.
    destruct (mem state states) eqn:M1; simpl in H; [|discriminate].
    destruct (mem symbol alphabet) eqn:M2; simpl in H; [|discriminate].
    destruct (mem n states) eqn:M3; simpl in H; [|discriminate].
    destruct (Cli.check_next_states states ns) as [|[]] eqn:C; simpl in H;
      [discriminate|].
    apply check_next_states_incl in C.
    assert (I : incl (n :: ns) states).
    { intros x [<- | Hx]; [now apply mem_In | now apply C]. }
    apply mem_In in M1, M2.
    destruct (dict_find key_eqb (state, symbol) acc) as [old|] eqn:F;
      (apply IH in H; [exact H|]);
      (apply (dict_set_Forall key_eqb key_eqb_eq); [assumption|]);
      simpl; repeat split; auto.
    apply incl_app; [|exact I].
    apply (dict_find_In key_eqb key_eqb_eq) in F.
    rewrite Forall_forall in Q. now destruct (Q _ F) as (_ & _ & Q3).
Qed.

(** What a successful [create] returns. *)
Lemma create_fields type alphabet states initial final transitions a :
  Cli.constructor_arguments type alphabet states initial final transitions = inr a ->
  Automaton.cls a = type
  /\ Automaton.alphabet a = comma_fields alphabet
  /\ Automaton.states a = comma_fields states
  /\ well_formed a /\ assembled a
  /\ NoDup (map fst (Automaton.transitions a)).
Proof.
  unfold Cli.constructor_arguments.
  destruct (negb _); [discriminate|].
  destruct (mem (PyStr.strip initial) (comma_fields states)) eqn:MI;
    cbn [negb]; [|discriminate].
  destruct (Cli.check_final (comma_fields states) (comma_fields final))
    as [|[]] eqn:CF; cbn [bind]; [discriminate|].
  apply mem_In in MI. apply check_final_incl in CF.
  destruct type.
  - destruct (Cli.build_dfa (comma_fields alphabet) (comma_fields states)
                transitions []) as [|table] eqn:B; cbn [bind]; [discriminate|].
    intros [= <-]. cbn.
    pose proof (build_dfa_declared _ _ _ _ _ B (Forall_nil _)) as D.
    destruct (build_dfa_table (comma_fields alphabet) (comma_fields states)
                transitions [] table (NoDup_nil key) B) as [_ ND].
    repeat split; auto.
    + eexists; split; [reflexivity | exact MI].
    + apply Forall_forall. intros kv Hkv. apply in_map_iff in Hkv.
      destruct Hkv as (e & <- & He). rewrite Forall_forall in D.
      destruct (D _ He) as (D1 & D2 & D3).
      repeat split; auto. intros x [<- | []]. exact D3.
    + unfold assembled. cbn. apply Forall_forall. intros kv Hkv.
      apply in_map_iff in Hkv. now destruct Hkv as (e & <- & He).
    + rewrite map_map. cbn. exact ND.
  - destruct (Cli.build_nfa (comma_fields alphabet) (comma_fields states)
                transitions []) as [|table] eqn:B; cbn [bind]; [discriminate|].
    intros [= <-]. cbn.
    pose proof (build_nfa_declared _ _ _ _ _ B (Forall_nil _)) as D.
    destruct (build_nfa_shape (comma_fields alphabet) (comma_fields states)
                transitions [] table B (NoDup_nil key) (Forall_nil _))
      as (ND & _ & _).
    repeat split; auto.
    + eexists; split; [reflexivity | exact MI].
    + apply Forall_forall. intros kv Hkv. apply in_map_iff in Hkv.
      destruct Hkv as (e & <- & He). rewrite Forall_forall in D.
      destruct (D _ He) as (D1 & D2 & D3).
      repeat split; auto.
    + unfold assembled. cbn. apply Forall_forall. intros kv Hkv.
      apply in_map_iff in Hkv. now destruct Hkv as (e & <- & He).
    + rewrite map_map. cbn. exact ND.
Qed.

Lemma create_inr engine type alphabet states initial final transitions a :
  Cli.create engine type alphabet states initial final transitions = inr a ->
  Cli.constructor_arguments type alphabet states initial final transitions
  = inr a
  /\ engine a = true.
Proof.
  unfold Cli.create.
  destruct (Cli.constructor_arguments type alphabet states initial final
              transitions) as [e|args]; simpl; [discriminate|].
  intros H. apply construct_inr in H. destruct H as [-> H]. auto.
Qed.

(** X5. Every automaton that main3-0.py creates from command-line
    arguments is well formed: its initial state and final states are
    declared states, and every transition goes from a declared state on a
    declared symbol to declared states only, with a single target for a
    DFA and a tuple for an NFA. *)
Theorem cli_create_well_formed
    (engine : Engine.t) (type : kind) (alphabet states initial final : string)
    (transitions : list string) (a : automaton) :
  Cli.create engine type alphabet states initial final transitions = inr a ->
  Automaton.cls a = type /\ well_formed a /\ assembled a.
Proof.
  intros H. apply create_inr in H. destruct H as [H _].
  destruct (create_fields _ _ _ _ _ _ _ H) as (A & _ & _ & W & S & _).
  auto.
Qed.

Lemma cli_create_well_formed_witness :
  Automaton.cls
    (Automaton.make NFA ["a"; "b"] ["s0"; "s1"; "s2"] (Some "s0") ["s2"]
       [(("s0", "a"), Many ["s1"; "s0"]); (("s1", "b"), Many ["s2"])]) = NFA
  /\ well_formed
       (Automaton.make NFA ["a"; "b"] ["s0"; "s1"; "s2"] (Some "s0") ["s2"]
          [(("s0", "a"), Many ["s1"; "s0"]); (("s1", "b"), Many ["s2"])])
  /\ assembled
       (Automaton.make NFA ["a"; "b"] ["s0"; "s1"; "s2"] (Some "s0") ["s2"]
          [(("s0", "a"), Many ["s1"; "s0"]); (("s1", "b"), Many ["s2"])]).
Proof.
  apply (cli_create_well_formed sample_engine NFA "a,b" "s0,s1,s2" "s0" "s2"
           ["s0,a,s1"; "s1,b,s2"; "s0,a,s0"]).
  vm_compute. reflexivity.
Defined.

(* ================================================================== *)
(** ** Further properties of the codec *)
(* ================================================================== *)

(** X6. Saving and loading with main3-0.py: every automaton created from
    command-line arguments is given back unchanged by decoding its
    encoding, because the fields of a comma-separated argument never hold
    the separator of the composite keys. *)
Theorem cli_save_load_roundtrip
    (engine : Engine.t) (type : kind) (alphabet states initial final : string)
    (transitions : list string) (a : automaton) :
  Cli.create engine type alphabet states initial final transitions = inr a ->
  Codec.deserialize_automaton engine (Codec.serialize_automaton a) = inr a.
Proof.
  intros H. apply create_inr in H. destruct H as [H He].
  destruct (create_fields _ _ _ _ _ _ _ H) as (_ & A & S & W & AS & ND).
  unfold Codec.deserialize_automaton.
  rewrite encode_decode_arguments; [now apply construct_accepted | | |];
    try assumption.
  destruct W as (_ & _ & W). unfold separator_free.
  eapply Forall_impl; [|exact W]. intros kv (D1 & D2 & _).
  rewrite S in D1. rewrite A in D2.
  pose proof (comma_fields_sep_free states) as F1.
  pose proof (comma_fields_sep_free alphabet) as F2.
  rewrite Forall_forall in F1, F2. auto.
Qed.

Lemma cli_save_load_roundtrip_witness :
  Codec.deserialize_automaton sample_engine
    (Codec.serialize_automaton
       (Automaton.make DFA ["0"; "1"] ["q0"; "q1"] (Some "q0") ["q1"]
          [(("q0", "0"), Single "q0"); (("q0", "1"), Single "q1")]))
  = inr (Automaton.make DFA ["0"; "1"] ["q0"; "q1"] (Some "q0") ["q1"]
           [(("q0", "0"), Single "q0"); (("q0", "1"), Single "q1")]).
Proof.
  apply (cli_save_load_roundtrip sample_engine DFA " 0, 1" "q0,q1" "q0" "q1"
           ["q0,0,q0"; "q0 ,1, q1"]).
  vm_compute. reflexivity.
Defined.

Lemma dict_set_str_keys_In {V : Type} k (v : V) (d : list (string * V)) k' :
  In k' (map fst (dict_set String.eqb k v d)) <-> k' = k \/ In k' (map fst d).
Proof.
  induction d as [|[k0 v0] d IH]; simpl; [intuition|].
  destruct (String.eqb k k0) eqn:E; simpl.
  - apply String.eqb_eq in E. subst. intuition.
  - rewrite IH. intuition.
Qed.

Lemma encode_keys_In cls l : forall acc k,
  In k (map fst (fold_left (Codec.encode_item cls) l acc))
  <-> In k (map fst acc)
      \/ In k (map (fun kv => Codec.composite_key (fst kv)) l).
Proof.
  induction l as [|kv l IH]; intros acc k; simpl; [intuition|].
  rewrite IH.
  change (Codec.encode_item cls acc kv)
    with (dict_set String.eqb (Codec.composite_key (fst kv))
            (Codec.encode_value cls (snd kv)) acc).
  rewrite dict_set_str_keys_In. intuition.
Qed.

(** X7. A separator inside a state or symbol name breaks the round trip:
    if some transition key of a definition holds the separator in its
    state or its symbol, some composite key of its encoding does not hold
    exactly one separator, and decoding the encoding fails with the
    unpacking error of the key loop, before any engine class is called. *)
Theorem codec_separator_breaks_roundtrip (engine : Engine.t) (d : automaton) :
  Exists (fun kv => count_sep (fst (fst kv)) + count_sep (snd (fst kv)) <> 0)
         (Automaton.transitions d) ->
  Exists (fun kv => count_sep (fst kv) <> 1)
         (Json.transitions (Codec.serialize_automaton d))
  /\ Codec.deserialize_automaton engine (Codec.serialize_automaton d)
     = inl MalformedKey.
Proof.
  intros H. apply Exists_exists in H. destruct H as ([[st sy] v] & Hin & Hc).
  cbn in Hc.
  set (items := Json.transitions (Codec.serialize_automaton d)).
  assert (B : Exists (fun kv => count_sep (fst kv) <> 1) items).
  { assert (Hk : In (Codec.composite_key (st, sy)) (map fst items)).
    { unfold items. cbn. apply encode_keys_In. right.
      apply in_map_iff. exists ((st, sy), v). auto. }
    apply in_map_iff in Hk. destruct Hk as ([k' v'] & E & Hk). cbn in E.
    apply Exists_exists. exists (k', v'). split; [exact Hk|].
    cbn. subst k'. unfold Codec.composite_key. cbn.
    rewrite count_sep_app. cbn. lia. }
  split; [exact B|].
  unfold Codec.deserialize_automaton, Codec.constructor_arguments. fold items.
  assert (D : Codec.decode_items
                (Json.type (Codec.serialize_automaton d)) items []
              = inl MalformedKey).
  { apply decode_items_error. auto. }
  now rewrite D.
Qed.

Lemma codec_separator_breaks_roundtrip_witness :
  Exists (fun kv => count_sep (fst kv) <> 1)
         (Json.transitions
            (Codec.serialize_automaton
               (Automaton.make DFA ["x,y"] ["q0"] (Some "q0") []
                  [(("q0", "x,y"), Single "q0")])))
  /\ Codec.deserialize_automaton sample_engine
       (Codec.serialize_automaton
          (Automaton.make DFA ["x,y"] ["q0"] (Some "q0") []
             [(("q0", "x,y"), Single "q0")]))
     = inl MalformedKey.
Proof.
  apply codec_separator_breaks_roundtrip.
  constructor. cbn. discriminate.
Defined.

Lemma composite_key_parts k :
  count_sep k = 1 -> Codec.composite_key (key_parts k) = k.
Proof.
  intros H. destruct (split_one_sep k H) as (st & sy & S & E & _).
  unfold key_parts. rewrite S. cbn. symmetry. exact E.
Qed.

Lemma decode_then_encode (r : Json.record) (a : automaton) :
  (Json.type r = "dfa"
   \/ (Json.type r = "nfa"
       /\ Forall (fun kv => is_list_value (snd kv)) (Json.transitions r))) ->
  Forall one_separator (Json.transitions r) ->
  NoDup (map fst (Json.transitions r)) ->
  Codec.constructor_arguments r = inr a ->
  Codec.serialize_automaton a = r.
Proof.
  destruct r as [ty al sts ini fin items]. cbn. intros T Hs ND.
  unfold Codec.constructor_arguments. cbn.
  rewrite decode_items_ok; cbn.
  - intros [= <-].
    unfold Codec.serialize_automaton. cbn.
    rewrite encode_fold; cbn.
    + rewrite map_map. cbn [fst snd].
      assert (M : map (fun x : string * Json.value =>
                   (Codec.composite_key (key_parts (fst x)),
                    Codec.encode_value
                      (if String.eqb ty "dfa" then DFA else NFA)
                      (Codec.decode_value ty (snd x)))) items = items).
      { rewrite <- (map_id items) at 2. apply map_ext_in.
        intros [k v] Hin. cbn [fst snd]. rewrite Forall_forall in Hs.
        rewrite (composite_key_parts k (Hs _ Hin)). f_equal.
        destruct T as [-> | [-> L]].
        - destruct v; reflexivity.
        - rewrite Forall_forall in L. specialize (L _ Hin). cbn in L.
          destruct v; [contradiction | reflexivity]. }
      rewrite M. destruct T as [-> | [-> _]]; reflexivity.
    + rewrite map_map. cbn.
      erewrite map_ext_in; [exact ND|].
      intros [k v] Hin. cbn [fst snd]. rewrite Forall_forall in Hs.
      apply composite_key_parts. exact (Hs _ Hin).
  - exact Hs.
  - rewrite <- (map_map fst key_parts). apply NoDup_map_on; [|exact ND].
    intros k1 k2 H1 H2. rewrite Forall_forall in Hs.
    apply in_map_iff in H1. destruct H1 as (e1 & <- & H1).
    apply in_map_iff in H2. destruct H2 as (e2 & <- & H2).
    apply key_parts_inj; [exact (Hs _ H1) | exact (Hs _ H2)].
Qed.

Lemma same_record_refl r : same_record r r.
Proof.
  assert (V : forall v, same_value v v)
    by (intros [s|l]; simpl; [reflexivity | unfold same_members; tauto]).
  unfold same_record, same_members. repeat split; try tauto;
    intros k v H; exists v; auto.
Qed.

(** X8. Encoding after decoding: when a persisted record of type [dfa], or
    of type [nfa] with list values, whose keys are distinct and hold
    exactly one separator each, is decoded to an automaton, the encoding
    of that automaton describes the same automaton as the record: the same
    type and initial state, the same members in the alphabet, the states
    and the final states, the same composite keys and, under each, the
    same state or states. *)
Theorem codec_encode_decode (engine : Engine.t) (r : Json.record)
    (a : automaton) :
  (Json.type r = "dfa"
   \/ (Json.type r = "nfa"
       /\ Forall (fun kv => is_list_value (snd kv)) (Json.transitions r))) ->
  Forall one_separator (Json.transitions r) ->
  NoDup (map fst (Json.transitions r)) ->
  Codec.deserialize_automaton engine r = inr a ->
  same_record (Codec.serialize_automaton a) r.
Proof.
  intros T Hs ND H. apply deserialize_inr in H.
  rewrite (decode_then_encode r a T Hs ND H). apply same_record_refl.
Qed.

Lemma codec_encode_decode_witness :
  same_record
    (Codec.serialize_automaton
       (Automaton.make NFA ["a"] ["s0"; "s1"] (Some "s0") ["s1"]
          [(("s0", "a"), Many ["s0"; "s1"]); (("s1", ""), Many [])]))
    (Json.make "nfa" ["a"] ["s0"; "s1"] (Some "s0") ["s1"]
       [("s0,a", Json.List ["s0"; "s1"]); ("s1,", Json.List [])]).
Proof.
  apply (codec_encode_decode sample_engine).
  - right. split; [reflexivity | repeat constructor].
  - repeat constructor.
  - cbn. repeat constructor; cbn; intuition discriminate.
  - reflexivity.
Defined.

Lemma str_app_assoc (a b c : string) : (a ++ b) ++ c = a ++ (b ++ c).
Proof. induction a as [|x a IH]; cbn; [reflexivity | now rewrite IH]. Qed.

Lemma str_length_app (a b : string) :
  String.length (a ++ b) = String.length a + String.length b.
Proof. induction a as [|x a IH]; cbn; [reflexivity | now rewrite IH]. Qed.

(** X9. Composite keys can collide: the two distinct transition keys with
    state [s,x] and symbol [y], and with state [s] and symbol [x,y], are
    written under the same composite key, so the encoding of a definition
    that holds both keeps a single entry, with the value of the second. *)
Theorem codec_key_collision (cls : kind) (al sts : list string)
    (ini : option string) (fin : list string) (s x y : string)
    (v1 v2 : target) :
  (s ++ "," ++ x, y) <> (s, x ++ "," ++ y)
  /\ Json.transitions
       (Codec.serialize_automaton
          (Automaton.make cls al sts ini fin
             [((s ++ "," ++ x, y), v1); ((s, x ++ "," ++ y), v2)]))
     = [((s ++ "," ++ x) ++ "," ++ y, Codec.encode_value cls v2)].
Proof.
  split.
  - intros E. inversion E as [[E1 E2]].
    apply (f_equal String.length) in E1.
    rewrite str_length_app in E1. cbn in E1. lia.
  - assert (C : (s ++ "," ++ x) ++ "," ++ y = s ++ "," ++ x ++ "," ++ y)
      by (rewrite str_app_assoc; reflexivity).
    unfold Codec.serialize_automaton.
    cbn [Automaton.transitions Automaton.cls Json.transitions fold_left].
    unfold Codec.encode_item, Codec.composite_key. cbn [fst snd].
    rewrite C. cbn [dict_set]. now rewrite String.eqb_refl.
Qed.

(* ================================================================== *)
(** ** Further properties of the graph-text reconstructor *)
(* ================================================================== *)

Section Reconstruction.
Import Dot.

Lemma scan_lines_initial_last ls : forall st,
  initial_state (fold_left scan_line ls st)
  = match last_start_edge ls with
    | Some q => Some q
    | None => initial_state st
    end.
Proof.
  induction ls as [|l ls IH] using rev_ind; intros st; [reflexivity|].
  rewrite fold_left_app. cbn [fold_left].
  unfold last_start_edge. rewrite rev_app_distr. cbn [rev app find].
  destruct (is_initial_line l) eqn:E.
  - now apply scan_line_initial_set.
  - rewrite (scan_line_initial _ _ E). rewrite IH. reflexivity.
Qed.

(** X10. The initial state of a reconstructed automaton is the target of
    the last start edge of the text: a later start edge replaces an
    earlier one, and an automaton reconstructed from a text without any
    start edge has the initial state [None]. *)
Theorem dot_initial_is_last_start_edge
    (engine : Engine.t) (dot_source : string) (a : automaton) (ty : kind) :
  parse_dot_file engine dot_source = inr (a, ty) ->
  Automaton.initial a = last_start_edge (PyStr.split newline dot_source).
Proof.
  intros H. apply parse_dot_file_inr in H.
  destruct (constructor_arguments_total dot_source) as (p & _ & Hp).
  rewrite Hp in H. inversion H; subst. clear H. cbn.
  unfold scan_source. rewrite scan_lines_initial_last. cbn.
  now destruct (last_start_edge _).
Qed.

Lemma dot_initial_is_last_start_edge_witness :
  Some "q2" = last_start_edge (PyStr.split newline two_start_edges).
Proof.
  apply (dot_initial_is_last_start_edge sample_engine two_start_edges
           (Automaton.make DFA ["a"] ["q0"; "q1"; "q2"] (Some "q2") []
              [(("q0", "a"), Single "q1")]) DFA).
  vm_compute. reflexivity.
Defined.

Lemma add_transition_fold_final f t syms : forall st,
  final_states (fold_left (add_transition f t) syms st) = final_states st.
Proof.
  induction syms as [|sym syms IH]; intros st; cbn; [reflexivity|].
  now rewrite IH.
Qed.

Lemma add_edge_fields st line :
  incl (states st) (states (add_edge st line))
  /\ final_states (add_edge st line) = final_states st.
Proof.
  unfold add_edge. destruct (parse_edge line) as [[f t] syms].
  destruct (add_transition_fold f t syms
    (mk_scan (set_add t (set_add f (states st)))
       (fold_left add_symbol syms (alphabet st)) (transitions st)
       (initial_state st) (final_states st) (automaton_type st)))
    as (A & _).
  rewrite A, add_transition_fold_final. cbn. split; [|reflexivity].
  eapply incl_tran; apply set_add_incl.
Qed.

Lemma mark_final_anchored st part : anchored st -> anchored (mark_final st part).
Proof.
  intros [HI HF]. unfold mark_final.
  destruct (PyStr.contains "doublecircle" part); [|split; assumption].
  destruct (PyStr.nonempty _); [|split; assumption].
  split; cbn.
  - intros q Hq. apply set_add_In. right. now apply HI.
  - intros x Hx. apply set_add_In in Hx. apply set_add_In.
    destruct Hx as [-> | Hx]; [now left | right; now apply HF].
Qed.

Lemma scan_line_anchored st raw : anchored st -> anchored (scan_line st raw).
Proof.
  intros HA. unfold scan_line.
  destruct (PyStr.startswith "node [shape = doublecircle]" (PyStr.strip raw)).
  - generalize (PyStr.split ";" (PyStr.strip raw)). intros parts.
    revert st HA. induction parts as [|p ps IH]; intros st HA; cbn;
      [exact HA|].
    apply IH. now apply mark_final_anchored.
  - destruct (PyStr.startswith "node [shape = circle]" (PyStr.strip raw));
      [exact HA|].
    destruct (PyStr.contains "->" (PyStr.strip raw)
              && negb (PyStr.startswith "null ->" (PyStr.strip raw))).
    + destruct HA as [HI HF].
      destruct (add_edge_fields st (PyStr.strip raw)) as [A B].
      split.
      * rewrite add_edge_initial. intros q Hq. apply A. now apply HI.
      * rewrite B. eapply incl_tran; eassumption.
    + destruct (PyStr.startswith "null ->" (PyStr.strip raw)); [|exact HA].
      destruct HA as [HI HF]. split; cbn.
      * intros q [= <-]. apply set_add_In. now left.
      * eapply incl_tran; [exact HF | apply set_add_incl].
Qed.

Lemma scan_source_anchored dot_source : anchored (scan_source dot_source).
Proof.
  unfold scan_source.
  assert (G : forall ls st, anchored st -> anchored (fold_left scan_line ls st)).
  { induction ls as [|l ls IH]; intros st H; cbn; [exact H|].
    apply IH. now apply scan_line_anchored. }
  apply G. split; cbn; [discriminate | intros x []].
Qed.

(** X11. In every reconstructed definition the initial state, when there
    is one, and every final state are members of the state set. *)
Theorem dot_initial_final_in_states
    (engine : Engine.t) (dot_source : string) (a : automaton) (ty : kind) :
  parse_dot_file engine dot_source = inr (a, ty) ->
  (forall q, Automaton.initial a = Some q -> In q (Automaton.states a))
  /\ incl (Automaton.final a) (Automaton.states a).
Proof.
  intros H. apply parse_dot_file_inr in H.
  destruct (constructor_arguments_total dot_source) as (p & _ & Hp).
  rewrite Hp in H. inversion H; subst. clear H. cbn.
  destruct (scan_source_anchored dot_source) as [HI HF].
  split.
  - intros q Hq. apply ensure_states_fold_incl. now apply HI.
  - eapply incl_tran; [exact HF | apply ensure_states_fold_incl].
Qed.

Lemma dot_initial_final_in_states_witness :
  (forall q, Some "q0" = Some q -> In q ["q1"; "q0"])
  /\ incl ["q1"] ["q1"; "q0"].
Proof.
  apply (dot_initial_final_in_states sample_engine scenario1
           (Automaton.make DFA ["0"; "1"] ["q1"; "q0"] (Some "q0") ["q1"]
              [(("q0", "0"), Single "q0"); (("q0", "1"), Single "q1");
               (("q1", "0"), Single "q1"); (("q1", "1"), Single "q0")]) DFA).
  vm_compute. reflexivity.
Defined.

End Reconstruction.

Section Finalization.
Import Dot.

Lemma set_add_NoDup x s : NoDup s -> NoDup (set_add x s).
Proof.
  intros ND. unfold set_add. destruct (mem x s) eqn:M; [exact ND|].
  apply NoDup_app; try assumption.
  - repeat constructor. simpl. tauto.
  - intros y Hy [<- | []]. apply mem_In in Hy. congruence.
Qed.

Lemma set_of_NoDup xs : NoDup (set_of xs).
Proof.
  unfold set_of.
  assert (G : forall acc, NoDup acc ->
                NoDup (fold_left (fun s x => set_add x s) xs acc)).
  { induction xs as [|x xs IH]; intros acc H; cbn; [exact H|].
    apply IH. now apply set_add_NoDup. }
  apply G. constructor.
Qed.

Lemma insert_sorted_NoDup x xs :
  ~ In x xs -> NoDup xs -> NoDup (insert_sorted x xs).
Proof.
  induction xs as [|y ys IH]; intros N ND; cbn.
  - repeat constructor. simpl. tauto.
  - destruct (String.leb x y); [now constructor|].
    inversion ND; subst. constructor.
    + rewrite insert_sorted_In. simpl in N. intuition.
    + apply IH; [simpl in N; tauto | assumption].
Qed.

Lemma sorted_NoDup xs : NoDup xs -> NoDup (sorted xs).
Proof.
  induction 1 as [|x xs N ND IH]; cbn; [constructor|].
  apply insert_sorted_NoDup; [now rewrite sorted_In | exact IH].
Qed.

Lemma insert_sorted_Sorted x xs :
  Sorted str_le xs -> Sorted str_le (insert_sorted x xs).
Proof.
  induction xs as [|y ys IH]; intros S; cbn.
  - repeat constructor.
  - destruct (String.leb x y) eqn:L.
    + constructor; [exact S | constructor; exact L].
    + inversion S as [|? ? S' HR]; subst. constructor; [now apply IH|].
      assert (Lyx : str_le y x).
      { destruct (String.leb_total x y) as [H | H]; [congruence | exact H]. }
      destruct ys as [|z zs]; cbn.
      * constructor. exact Lyx.
      * destruct (String.leb x z); constructor; [exact Lyx|].
        now inversion HR.
Qed.

Lemma sorted_Sorted xs : Sorted str_le (sorted xs).
Proof.
  induction xs as [|x xs IH]; cbn; [constructor|].
  now apply insert_sorted_Sorted.
Qed.

(** The target lists of a scan are never empty. *)
Lemma record_edges_nonempty es :
  Forall (fun kv : key * list string => snd kv <> [])
         (fst (fold_left record_edge es ([], DFA))).
Proof.
  induction es as [|e es IH] using rev_ind; [constructor|].
  rewrite fold_left_app. cbn [fold_left]. unfold record_edge at 1.
  cbn [fst]. apply (dict_set_Forall key_eqb key_eqb_eq); [exact IH|].
  cbn. intros E. apply app_eq_nil in E. destruct E; discriminate.
Qed.

Lemma record_edges_keys es :
  NoDup (map fst (fst (fold_left record_edge es ([], DFA)))).
Proof.
  induction es as [|e es IH] using rev_ind; [constructor|].
  rewrite fold_left_app. cbn [fold_left]. unfold record_edge at 1.
  cbn [fst]. now apply dict_set_keys_NoDup.
Qed.

Lemma process_transitions_shape ty items : forall acc p,
  process_transitions ty items acc = inr p ->
  Forall (fun kv => finalized_value ty (snd kv)) acc ->
  NoDup (map fst acc) ->
  Forall (fun kv : key * list string => snd kv <> []) items ->
  Forall (fun kv => finalized_value ty (snd kv)) p /\ NoDup (map fst p).
Proof.
  induction items as [|[[state symbol] l] items IH];
    intros acc p H Q ND NE; cbn in H.
  - inversion H; subst. auto.
  - inversion NE as [|? ? Hl NE']; subst. cbn in Hl. destruct ty.
    + destruct (negb _); [discriminate|].
      apply IH in H; auto.
      * apply (dict_set_Forall key_eqb key_eqb_eq); [exact Q|].
        cbn. eauto.
      * now apply dict_set_keys_NoDup.
    + apply IH in H; auto.
      * apply (dict_set_Forall key_eqb key_eqb_eq); [exact Q|].
        cbn. eexists. split; [reflexivity|].
        split; [apply sorted_Sorted|].
        split; [apply sorted_NoDup, set_of_NoDup|].
        destruct l as [|x l]; [contradiction|].
        intros E. assert (In x (sorted (set_of (x :: l)))) as Hx
          by (rewrite sorted_In, set_of_In; now left).
        rewrite E in Hx. exact Hx.
      * now apply dict_set_keys_NoDup.
Qed.

(** X12. The transitions of a reconstructed definition have distinct
    keys; for a DFA every value is a single state, and for an NFA every
    value is a non-empty tuple of distinct states in ascending order, so
    the value does not depend on the order or repetition of the edges that
    gave it. *)
Theorem dot_transitions_finalized
    (engine : Engine.t) (dot_source : string) (a : automaton) (ty : kind) :
  parse_dot_file engine dot_source = inr (a, ty) ->
  Automaton.cls a = ty
  /\ NoDup (map fst (Automaton.transitions a))
  /\ Forall (fun kv => finalized_value ty (snd kv)) (Automaton.transitions a).
Proof.
  intros H. apply parse_dot_file_inr in H.
  destruct (constructor_arguments_total dot_source) as (p & Hpt & Hp).
  rewrite Hp in H. inversion H; subst. clear H. cbn.
  pose proof (scan_source_core dot_source) as C.
  pose proof (record_edges_nonempty (edges dot_source)) as NE.
  rewrite <- C in NE. cbn in NE.
  destruct (process_transitions_shape _ _ _ _ Hpt (Forall_nil _)
              (NoDup_nil key) NE) as [Q ND].
  auto.
Qed.

Lemma dot_transitions_finalized_witness :
  Automaton.cls
    (Automaton.make NFA ["a"] ["q0"; "q1"] (Some "q0") []
       [(("q0", "a"), Many ["q1"])]) = NFA
  /\ NoDup (map fst
              (Automaton.transitions
                 (Automaton.make NFA ["a"] ["q0"; "q1"] (Some "q0") []
                    [(("q0", "a"), Many ["q1"])])))
  /\ Forall (fun kv : key * target => finalized_value NFA (snd kv))
       (Automaton.transitions
          (Automaton.make NFA ["a"] ["q0"; "q1"] (Some "q0") []
             [(("q0", "a"), Many ["q1"])])).
Proof.
  apply (dot_transitions_finalized sample_engine repeated_edge).
  vm_compute. reflexivity.
Defined.

Lemma parse_edge_symbols line :
  Forall (fun s => count_sep s = 0) (snd (parse_edge line)).
Proof.
  unfold parse_edge. cbn [snd].
  destruct (PyStr.nonempty _).
  - apply Forall_forall. intros s Hs. apply in_map_iff in Hs.
    destruct Hs as (q & <- & Hq). apply count_sep_strip.
    match type of Hq with In _ (PyStr.split "," ?l) =>
      pose proof (split_sep_pieces l) as F end.
    rewrite Forall_forall in F. auto.
  - repeat constructor.
Qed.

Lemma add_symbol_fold_clean syms : forall al,
  Forall (fun s => count_sep s = 0) syms ->
  Forall (fun s => count_sep s = 0) al ->
  Forall (fun s => count_sep s = 0) (fold_left add_symbol syms al).
Proof.
  intros al Hs Ha. apply Forall_forall. intros x Hx.
  apply add_symbol_fold_In in Hx. rewrite Forall_forall in Hs, Ha.
  destruct Hx as [Hx | [Hx _]]; auto.
Qed.

Lemma add_transition_fold_clean f t syms : forall st,
  Forall (fun s => count_sep s = 0) syms ->
  symbols_clean st ->
  symbols_clean (fold_left (add_transition f t) syms st).
Proof.
  induction syms as [|sym syms IH]; intros st Hs HC; cbn; [exact HC|].
  inversion Hs; subst. apply IH; [assumption|].
  destruct HC as [HT HA]. split; cbn; [|exact HA].
  apply (dict_set_Forall key_eqb key_eqb_eq); assumption.
Qed.

Lemma scan_line_clean st raw : symbols_clean st -> symbols_clean (scan_line st raw).
Proof.
  intros HC. unfold scan_line.
  destruct (PyStr.startswith "node [shape = doublecircle]" (PyStr.strip raw)).
  - destruct (mark_final_fold (PyStr.split ";" (PyStr.strip raw)) st)
      as (A & _ & _ & D & _).
    destruct HC. split; rewrite ?A, ?D; assumption.
  - destruct (PyStr.startswith "node [shape = circle]" (PyStr.strip raw));
      [exact HC|].
    destruct (PyStr.contains "->" (PyStr.strip raw)
              && negb (PyStr.startswith "null ->" (PyStr.strip raw))).
    + unfold add_edge.
      pose proof (parse_edge_symbols (PyStr.strip raw)) as PS.
      destruct (parse_edge (PyStr.strip raw)) as [[f t] syms]. cbn in PS.
      apply add_transition_fold_clean; [exact PS|].
      destruct HC as [HT HA]. split; cbn; [exact HT|].
      now apply add_symbol_fold_clean.
    + destruct (PyStr.startswith "null ->" (PyStr.strip raw)); exact HC.
Qed.

Lemma scan_source_clean dot_source : symbols_clean (scan_source dot_source).
Proof.
  unfold scan_source.
  assert (G : forall ls st, symbols_clean st ->
                symbols_clean (fold_left scan_line ls st)).
  { induction ls as [|l ls IH]; intros st H; cbn; [exact H|].
    apply IH. now apply scan_line_clean. }
  apply G. split; constructor.
Qed.

(** X13. No symbol of a reconstructed definition holds the separator: the
    label of an edge is cut at every comma, so a comma can never be part
    of a symbol, neither in the alphabet nor in a transition key; and the
    members of the alphabet are not empty. *)
Theorem dot_symbols_hold_no_separator
    (engine : Engine.t) (dot_source : string) (a : automaton) (ty : kind) :
  parse_dot_file engine dot_source = inr (a, ty) ->
  Forall (fun s => count_sep s = 0 /\ s <> "") (Automaton.alphabet a)
  /\ Forall (fun kv => count_sep (snd (fst kv)) = 0) (Automaton.transitions a).
Proof.
  intros H. apply parse_dot_file_inr in H.
  destruct (constructor_arguments_total dot_source) as (p & Hpt & Hp).
  rewrite Hp in H. inversion H; subst. clear H. cbn.
  destruct (scan_source_clean dot_source) as [HT HA].
  destruct (scan_source_closed dot_source) as [_ HE].
  split.
  - apply Forall_forall. intros s Hs. rewrite Forall_forall in HA.
    split; [now apply HA | intros ->; contradiction].
  - apply Forall_forall. intros [k v] Hin.
    destruct (process_transitions_entries _ _ _ _ Hpt _ _ Hin)
      as [[] | (l & Hl & _)].
    rewrite Forall_forall in HT. exact (HT _ Hl).
Qed.

Lemma dot_symbols_hold_no_separator_witness :
  Forall (fun s => count_sep s = 0 /\ s <> "") ["a"; "b"]
  /\ Forall (fun kv : key * target => count_sep (snd (fst kv)) = 0)
       [(("q0", "a"), Single "q1"); (("q0", "b"), Single "q1");
        (("q1", ""), Single "q0")].
Proof.
  apply (dot_symbols_hold_no_separator sample_engine mixed_edges
           (Automaton.make DFA ["a"; "b"] ["q0"; "q1"] (Some "q0") []
              [(("q0", "a"), Single "q1"); (("q0", "b"), Single "q1");
               (("q1", ""), Single "q0")]) DFA).
  vm_compute. reflexivity.
Defined.

(** X14. Reconstruction followed by saving and loading: a reconstructed
    definition none of whose state names holds the separator is given back
    unchanged by decoding its encoding. *)
Theorem dot_save_load_roundtrip
    (engine : Engine.t) (dot_source : string) (a : automaton) (ty : kind) :
  parse_dot_file engine dot_source = inr (a, ty) ->
  Forall (fun q => count_sep q = 0) (Automaton.states a) ->
  Codec.deserialize_automaton engine (Codec.serialize_automaton a) = inr a.
Proof.
  intros H HS. pose proof (parse_dot_file_accepted _ _ _ _ H) as He.
  apply parse_dot_file_inr in H.
  unfold Codec.deserialize_automaton.
  rewrite encode_decode_arguments; [now apply construct_accepted | | |];
    clear He;
    destruct (constructor_arguments_total dot_source) as (p & Hpt & Hp);
    rewrite Hp in H; inversion H; subst; clear H; cbn in HS;
    pose proof (scan_source_core dot_source) as C;
    pose proof (record_edges_nonempty (edges dot_source)) as NE;
    rewrite <- C in NE; cbn in NE;
    destruct (process_transitions_shape _ _ _ _ Hpt (Forall_nil _)
                (NoDup_nil key) NE) as [Q ND];
    destruct (scan_source_clean dot_source) as [HT _];
    destruct (scan_source_closed dot_source) as [HF _];
    rewrite Forall_forall in HS, HT, HF, Q; cbn.
  - exact ND.
  - apply Forall_forall. intros [k v] Hin. cbn.
    destruct (process_transitions_entries _ _ _ _ Hpt _ _ Hin)
      as [[] | (l & Hl & _)].
    split; [|exact (HT _ Hl)].
    apply HS. apply ensure_states_fold_incl.
    now destruct (HF _ Hl) as (H1 & _).
  - apply Forall_forall. intros kv Hin. specialize (Q _ Hin). cbn.
    destruct (automaton_type (scan_source dot_source)); cbn in Q.
    + destruct Q as [s ->]. exact I.
    + destruct Q as (l & -> & _). exact I.
Qed.

Lemma dot_save_load_roundtrip_witness :
  Codec.deserialize_automaton sample_engine
    (Codec.serialize_automaton
       (Automaton.make DFA ["a"; "b"] ["q0"; "q1"] (Some "q0") []
          [(("q0", "a"), Single "q1"); (("q0", "b"), Single "q1");
           (("q1", ""), Single "q0")]))
  = inr (Automaton.make DFA ["a"; "b"] ["q0"; "q1"] (Some "q0") []
           [(("q0", "a"), Single "q1"); (("q0", "b"), Single "q1");
            (("q1", ""), Single "q0")]).
Proof.
  apply (dot_save_load_roundtrip sample_engine mixed_edges _ DFA).
  - vm_compute. reflexivity.
  - repeat constructor.
Defined.

End Finalization.

Section EdgeRelation.
Import Dot.

Lemma process_transitions_map ty items : forall acc p,
  process_transitions ty items acc = inr p ->
  NoDup (map fst acc ++ map fst items) ->
  p = (acc ++ map (fun kv => (fst kv, finalize ty (snd kv))) items)%list.
Proof.
  induction items as [|[[state symbol] l] items IH]; intros acc p H ND;
    cbn in H.
  - inversion H; subst. now rewrite app_nil_r.
  - assert (F : ~ In (state, symbol) (map fst acc)).
    { cbn in ND. apply NoDup_remove_2 in ND. intros HI. apply ND.
      apply in_or_app. now left. }
    assert (ND' : NoDup (map fst (acc ++ [((state, symbol), finalize ty l)])
                         ++ map fst items)).
    { rewrite map_app. cbn. rewrite <- app_assoc. exact ND. }
    destruct ty.
    + destruct (negb _); [discriminate|].
      rewrite (dict_set_fresh key_eqb key_eqb_eq) in H by exact F.
      apply IH in H; [|exact ND']. subst p. cbn. now rewrite <- app_assoc.
    + rewrite (dict_set_fresh key_eqb key_eqb_eq) in H by exact F.
      apply IH in H; [|exact ND']. subst p. cbn. now rewrite <- app_assoc.
Qed.

Lemma finalize_In ty l x :
  (ty = DFA -> List.length l = 1) ->
  In x (targets_of (finalize ty l)) <-> In x l.
Proof.
  intros H. destruct ty; cbn.
  - specialize (H eq_refl). destruct l as [|y [|z r]]; try discriminate.
    cbn. tauto.
  - now rewrite sorted_In, set_of_In.
Qed.

(** The transition relation of the result is the edge relation of the text. *)
Lemma transition_relation dot_source a ty :
  constructor_arguments dot_source = inr (a, ty) ->
  forall k x, delta a k x <-> In x (occ k (edges dot_source)).
Proof.
  intros H k x.
  destruct (constructor_arguments_total dot_source) as (p & Hpt & Hp).
  rewrite Hp in H. inversion H; subst. clear H. unfold delta. cbn.
  pose proof (scan_source_core dot_source) as C.
  pose proof (record_edges_keys (edges dot_source)) as ND.
  destruct (record_edges_spec (edges dot_source)) as (G & _ & L).
  rewrite <- C in ND, G, L. cbn in ND, G, L.
  set (st := scan_source dot_source) in *.
  apply process_transitions_map in Hpt; [|exact ND]. cbn in Hpt. subst p.
  assert (Len : forall k' l, In (k', l) (transitions st) ->
                  automaton_type st = DFA -> List.length l = 1).
  { intros k' l Hin E. specialize (L E). rewrite Forall_forall in L.
    exact (L _ Hin). }
  split.
  - intros (v & Hin & Hx). apply in_map_iff in Hin.
    destruct Hin as ([k' l] & E & Hin). cbn in E. inversion E; subst.
    rewrite <- G. unfold dict_get.
    rewrite (dict_find_NoDup key_eqb key_eqb_eq _ _ _ ND Hin).
    apply (finalize_In (automaton_type st)); [|exact Hx]. eauto.
  - intros Hx. rewrite <- G in Hx. unfold dict_get in Hx.
    destruct (dict_find key_eqb k (transitions st)) as [l|] eqn:F;
      [|destruct Hx].
    apply (dict_find_In key_eqb key_eqb_eq) in F.
    exists (finalize (automaton_type st) l). split.
    + apply in_map_iff. exists (k, l). auto.
    + apply finalize_In; [eauto | exact Hx].
Qed.

(** X15. The transition relation of a reconstructed definition is the
    edge relation of the text: a state is a target of the key (source,
    symbol) exactly when some transition line of the text leads from that
    source to that state with that symbol in its label (or, for the empty
    symbol, with no label). *)
Theorem dot_transition_relation
    (engine : Engine.t) (dot_source : string) (a : automaton) (ty : kind) :
  parse_dot_file engine dot_source = inr (a, ty) ->
  forall source symbol target,
    delta a (source, symbol) target
    <-> In ((source, symbol), target) (edges dot_source).
Proof.
  intros H source symbol target. apply parse_dot_file_inr in H.
  rewrite (transition_relation _ _ _ H). unfold occ.
  rewrite in_map_iff. split.
  - intros ([k t] & E & Hin). cbn in E. subst t.
    apply filter_In in Hin. destruct Hin as [Hin Hk]. cbn in Hk.
    apply key_eqb_eq in Hk. now subst k.
  - intros Hin. exists ((source, symbol), target). split; [reflexivity|].
    apply filter_In. split; [exact Hin | apply key_eqb_refl].
Qed.

Lemma dot_transition_relation_witness :
  delta (Automaton.make NFA ["a"] ["q0"; "q1"] (Some "q0") []
           [(("q0", "a"), Many ["q1"])]) ("q0", "a") "q1"
  <-> In (("q0", "a"), "q1") (edges repeated_edge).
Proof.
  apply (dot_transition_relation sample_engine repeated_edge
           (Automaton.make NFA ["a"] ["q0"; "q1"] (Some "q0") []
              [(("q0", "a"), Many ["q1"])]) NFA).
  vm_compute. reflexivity.
Defined.

End EdgeRelation.

Section LineOrder.
Import Dot.

(** A fold whose step only adds members, the same whatever the state. *)
Lemma fold_additive {S A : Type} (f : S -> A -> S) (g : S -> list string)
    (s0 : S) :
  g s0 = [] ->
  (forall st a x, In x (g (f st a)) <-> In x (g st) \/ In x (g (f s0 a))) ->
  forall l st x,
    In x (g (fold_left f l st))
    <-> In x (g st) \/ exists a, In a l /\ In x (g (f s0 a)).
Proof.
  intros H0 Hstep. induction l as [|a l IH]; intros st x; cbn.
  - split; [now left | intros [H | (a & [] & _)]; exact H].
  - rewrite IH, Hstep. split.
    + intros [[H | H] | (b & Hb & H)]; eauto.
    + intros [H | (b & [<- | Hb] & H)]; eauto.
Qed.

Lemma mark_final_additive st part x :
  (In x (states (mark_final st part))
   <-> In x (states st) \/ In x (states (mark_final scan0 part)))
  /\ (In x (final_states (mark_final st part))
      <-> In x (final_states st) \/ In x (final_states (mark_final scan0 part))).
Proof.
  unfold mark_final.
  destruct (PyStr.contains "doublecircle" part); [|cbn; tauto].
  destruct (PyStr.nonempty _); [|cbn; tauto].
  cbn [states final_states scan0]. rewrite !set_add_In. cbn. tauto.
Qed.

Lemma add_edge_members st line :
  states (add_edge st line)
  = set_add (snd (fst (parse_edge line)))
      (set_add (fst (fst (parse_edge line))) (states st))
  /\ alphabet (add_edge st line)
     = fold_left add_symbol (snd (parse_edge line)) (alphabet st)
  /\ final_states (add_edge st line) = final_states st.
Proof.
  unfold add_edge. destruct (parse_edge line) as [[f t] syms]. cbn [fst snd].
  destruct (add_transition_fold f t syms
    (mk_scan (set_add t (set_add f (states st)))
       (fold_left add_symbol syms (alphabet st)) (transitions st)
       (initial_state st) (final_states st) (automaton_type st)))
    as (A & B & _).
  rewrite A, B, add_transition_fold_final. auto.
Qed.

(** What a line adds to the states, the alphabet and the final states does
    not depend on the scan so far. *)
Lemma scan_line_additive st raw x :
  (In x (states (scan_line st raw))
   <-> In x (states st) \/ In x (states (scan_line scan0 raw)))
  /\ (In x (alphabet (scan_line st raw))
      <-> In x (alphabet st) \/ In x (alphabet (scan_line scan0 raw)))
  /\ (In x (final_states (scan_line st raw))
      <-> In x (final_states st) \/ In x (final_states (scan_line scan0 raw))).
Proof.
  unfold scan_line.
  destruct (PyStr.startswith "node [shape = doublecircle]" (PyStr.strip raw)).
  - set (parts := PyStr.split ";" (PyStr.strip raw)).
    pose proof (fold_additive mark_final states scan0 eq_refl
                  (fun s a y => proj1 (mark_final_additive s a y))) as FS.
    pose proof (fold_additive mark_final final_states scan0 eq_refl
                  (fun s a y => proj2 (mark_final_additive s a y))) as FF.
    destruct (mark_final_fold parts st) as (_ & _ & _ & D & _).
    destruct (mark_final_fold parts scan0) as (_ & _ & _ & D0 & _).
    rewrite D, D0. cbn [alphabet scan0].
    rewrite (FS parts st x), (FS parts scan0 x).
    rewrite (FF parts st x), (FF parts scan0 x). cbn. tauto.
  - destruct (PyStr.startswith "node [shape = circle]" (PyStr.strip raw));
      [cbn; tauto|].
    destruct (PyStr.contains "->" (PyStr.strip raw)
              && negb (PyStr.startswith "null ->" (PyStr.strip raw))).
    + destruct (add_edge_members st (PyStr.strip raw)) as (A & B & C).
      destruct (add_edge_members scan0 (PyStr.strip raw)) as (A0 & B0 & C0).
      rewrite A, B, C, A0, B0, C0. cbn [states alphabet final_states scan0].
      rewrite !set_add_In, !add_symbol_fold_In. cbn. tauto.
    + destruct (PyStr.startswith "null ->" (PyStr.strip raw)); [|cbn; tauto].
      cbn [states alphabet final_states scan0].
      rewrite !set_add_In. cbn. tauto.
Qed.

Lemma safe_add_In n S0 y :
  In y (if mem n S0 then S0 else set_add n S0) <-> In y S0 \/ y = n.
Proof.
  destruct (mem n S0) eqn:M.
  - apply mem_In in M. split; [tauto | intros [H | ->]; assumption].
  - rewrite set_add_In. tauto.
Qed.

Lemma fold_safe_add_In l : forall S0 y,
  In y (fold_left (fun st ns => if mem ns st then st else set_add ns st) l S0)
  <-> In y S0 \/ In y l.
Proof.
  induction l as [|n l IH]; intros S0 y; cbn; [tauto|].
  rewrite IH, safe_add_In. intuition.
Qed.

Lemma ensure_states_In item sts x :
  In x (ensure_states sts item)
  <-> In x sts \/ x = fst (fst item) \/ In x (targets_of (snd item)).
Proof.
  destruct item as [[s sym] v]. unfold ensure_states. cbn [fst snd].
  destruct v as [ns | l]; cbn [targets_of].
  - rewrite safe_add_In, safe_add_In. cbn. intuition.
  - rewrite fold_safe_add_In, safe_add_In. intuition.
Qed.

Lemma ensure_states_fold_In items : forall sts x,
  In x (fold_left ensure_states items sts)
  <-> In x sts
      \/ exists kv, In kv items
                    /\ (x = fst (fst kv) \/ In x (targets_of (snd kv))).
Proof.
  induction items as [|it items IH]; intros sts x; cbn.
  - split; [now left | intros [H | (kv & [] & _)]; exact H].
  - rewrite IH, ensure_states_In. split.
    + intros [[H | H] | (kv & Hkv & H)]; eauto.
    + intros [H | (kv & [<- | Hkv] & H)]; eauto.
Qed.

(** The states of the result are the states of the scan. *)
Lemma result_states dot_source a ty :
  constructor_arguments dot_source = inr (a, ty) ->
  ty = automaton_type (scan_source dot_source)
  /\ (forall x, In x (Automaton.states a)
                <-> In x (states (scan_source dot_source)))
  /\ Automaton.alphabet a = alphabet (scan_source dot_source)
  /\ Automaton.final a = final_states (scan_source dot_source).
Proof.
  intros H. destruct (constructor_arguments_total dot_source) as (p & Hpt & Hp).
  rewrite Hp in H. inversion H; subst. clear H. cbn.
  repeat split; auto.
  - rewrite ensure_states_fold_In. intros [Hx | ([k v] & Hin & Hx)];
      [exact Hx|]. cbn in Hx.
    destruct (scan_source_closed dot_source) as [HF _].
    rewrite Forall_forall in HF.
    destruct (process_transitions_entries _ _ _ _ Hpt _ _ Hin)
      as [[] | (l & Hl & Hincl)].
    destruct (HF _ Hl) as (H1 & H2 & _). cbn in H1, H2.
    destruct Hx as [-> | Hx]; [exact H1 | apply H2; now apply Hincl].
  - intros Hx. now apply ensure_states_fold_incl.
Qed.

Lemma scan_lines_members ls x :
  (In x (states (fold_left scan_line ls scan0))
   <-> exists raw, In raw ls /\ In x (states (scan_line scan0 raw)))
  /\ (In x (alphabet (fold_left scan_line ls scan0))
      <-> exists raw, In raw ls /\ In x (alphabet (scan_line scan0 raw)))
  /\ (In x (final_states (fold_left scan_line ls scan0))
      <-> exists raw, In raw ls /\ In x (final_states (scan_line scan0 raw))).
Proof.
  pose proof (fold_additive scan_line states scan0 eq_refl
                (fun s a y => proj1 (scan_line_additive s a y))) as FS.
  pose proof (fold_additive scan_line alphabet scan0 eq_refl
                (fun s a y => proj1 (proj2 (scan_line_additive s a y)))) as FA.
  pose proof (fold_additive scan_line final_states scan0 eq_refl
                (fun s a y => proj2 (proj2 (scan_line_additive s a y)))) as FF.
  rewrite (FS ls scan0 x), (FA ls scan0 x), (FF ls scan0 x). cbn. tauto.
Qed.

Lemma occ_perm k es es' :
  Permutation es es' -> Permutation (occ k es) (occ k es').
Proof.
  unfold occ. induction 1 as [|e l l' P IH|e1 e2 l|l l' l'' P1 IH1 P2 IH2];
    cbn.
  - constructor.
  - destruct (key_eqb k (fst e)); cbn; [now constructor | exact IH].
  - destruct (key_eqb k (fst e1)), (key_eqb k (fst e2)); cbn;
      try apply Permutation_refl. apply perm_swap.
  - eapply Permutation_trans; eassumption.
Qed.

(** X16. The order of the lines of a graph text does not matter for the
    reconstruction, the initial state apart: two texts with the same lines
    in a different order give the same class, the same members of the
    state set, of the alphabet and of the final set, and the same
    transition relation. *)
Theorem dot_line_order_irrelevant
    (engine : Engine.t) (src1 src2 : string) (a1 a2 : automaton)
    (ty1 ty2 : kind) :
  Permutation (PyStr.split newline src1) (PyStr.split newline src2) ->
  parse_dot_file engine src1 = inr (a1, ty1) ->
  parse_dot_file engine src2 = inr (a2, ty2) ->
  ty1 = ty2
  /\ (forall x, In x (Automaton.states a1) <-> In x (Automaton.states a2))
  /\ (forall x, In x (Automaton.alphabet a1) <-> In x (Automaton.alphabet a2))
  /\ (forall x, In x (Automaton.final a1) <-> In x (Automaton.final a2))
  /\ (forall k x, delta a1 k x <-> delta a2 k x).
Proof.
  intros P H1 H2. apply parse_dot_file_inr in H1, H2.
  assert (PE : Permutation (edges src1) (edges src2))
    by (unfold edges; now apply Permutation_flat_map).
  destruct (result_states _ _ _ H1) as (T1 & S1 & A1 & F1).
  destruct (result_states _ _ _ H2) as (T2 & S2 & A2 & F2).
  assert (Ex : forall (Q : string -> Prop),
             (exists raw, In raw (PyStr.split newline src1) /\ Q raw)
             <-> (exists raw, In raw (PyStr.split newline src2) /\ Q raw)).
  { intros Q. split; intros (raw & Hr & Hq); exists raw; split; auto.
    - eapply Permutation_in; eassumption.
    - eapply Permutation_in; [apply Permutation_sym|]; eassumption. }
  split; [|split; [|split; [|split]]].
  - subst ty1 ty2.
    pose proof (scan_source_core src1) as C1.
    pose proof (scan_source_core src2) as C2.
    destruct (record_edges_spec (edges src1)) as (_ & N1 & _).
    destruct (record_edges_spec (edges src2)) as (_ & N2 & _).
    rewrite <- C1 in N1. rewrite <- C2 in N2. cbn in N1, N2.
    assert (E : (exists k, 2 <= List.length (occ k (edges src1)))
                <-> (exists k, 2 <= List.length (occ k (edges src2)))).
    { split; intros [k Hk]; exists k.
      - now rewrite <- (Permutation_length (occ_perm k _ _ PE)).
      - now rewrite (Permutation_length (occ_perm k _ _ PE)). }
    destruct (automaton_type (scan_source src1)),
             (automaton_type (scan_source src2)); try reflexivity.
    + assert (DFA = NFA) by (apply N1, E, N2; reflexivity). discriminate.
    + assert (DFA = NFA) by (apply N2, E, N1; reflexivity). discriminate.
  - intros x. rewrite S1, S2. unfold scan_source.
    rewrite (proj1 (scan_lines_members _ x)).
    rewrite (proj1 (scan_lines_members _ x)). apply Ex.
  - intros x. rewrite A1, A2. unfold scan_source.
    rewrite (proj1 (proj2 (scan_lines_members _ x))).
    rewrite (proj1 (proj2 (scan_lines_members _ x))). apply Ex.
  - intros x. rewrite F1, F2. unfold scan_source.
    rewrite (proj2 (proj2 (scan_lines_members _ x))).
    rewrite (proj2 (proj2 (scan_lines_members _ x))). apply Ex.
  - intros k x. rewrite (transition_relation _ _ _ H1).
    rewrite (transition_relation _ _ _ H2).
    split; apply Permutation_in; [|apply Permutation_sym]; now apply occ_perm.
Qed.

Lemma dot_line_order_irrelevant_witness :
  DFA = DFA
  /\ (forall x, In x ["q0"; "q1"] <-> In x ["q1"; "q0"])
  /\ (forall x, In x ["a"; "b"] <-> In x ["a"; "b"])
  /\ (forall x, In x (@nil string) <-> In x (@nil string))
  /\ (forall k x,
        delta (Automaton.make DFA ["a"; "b"] ["q0"; "q1"] (Some "q0") []
                 [(("q0", "a"), Single "q1"); (("q0", "b"), Single "q1");
                  (("q1", ""), Single "q0")]) k x
        <-> delta (Automaton.make DFA ["a"; "b"] ["q1"; "q0"] (Some "q0") []
                     [(("q1", ""), Single "q0"); (("q0", "a"), Single "q1");
                      (("q0", "b"), Single "q1")]) k x).
Proof.
  apply (dot_line_order_irrelevant sample_engine mixed_edges mixed_edges_reordered
           (Automaton.make DFA ["a"; "b"] ["q0"; "q1"] (Some "q0") []
              [(("q0", "a"), Single "q1"); (("q0", "b"), Single "q1");
               (("q1", ""), Single "q0")])
           (Automaton.make DFA ["a"; "b"] ["q1"; "q0"] (Some "q0") []
              [(("q1", ""), Single "q0"); (("q0", "a"), Single "q1");
               (("q0", "b"), Single "q1")]) DFA DFA).
  - assert (E1 : PyStr.split newline mixed_edges
                 = ["null -> q0;";
                    "    q0 -> q1 [label = " ++ dq ++ "a, b" ++ dq ++ "];";
                    "q1 -> q0"]) by (vm_compute; reflexivity).
    assert (E2 : PyStr.split newline mixed_edges_reordered
                 = ["q1 -> q0"; "null -> q0;";
                    "    q0 -> q1 [label = " ++ dq ++ "a, b" ++ dq ++ "];"])
      by (vm_compute; reflexivity).
    rewrite E1, E2.
    apply (Permutation_sym
             (Permutation_cons_append
                ["null -> q0;";
                 "    q0 -> q1 [label = " ++ dq ++ "a, b" ++ dq ++ "];"]
                "q1 -> q0")).
  - vm_compute. reflexivity.
  - vm_compute. reflexivity.
Defined.

End LineOrder.
(* ================================================================== *)
(** ** The interactive test loop *)
(* ================================================================== *)

Lemma contains_sep s : PyStr.contains "," s = negb (count_sep s =? 0)%nat.
Proof.
  induction s as [|c s IH]; [reflexivity|].
  cbn [PyStr.contains count_sep]. rewrite prefix_sep, IH.
  destruct (Ascii.eqb c ","); cbn; [reflexivity|].
  reflexivity.
Qed.

Lemma chars_shape s :
  Forall (fun c => String.length c = 1) (PyStr.chars s)
  /\ String.concat "" (PyStr.chars s) = s
  /\ (PyStr.chars s = [] -> s = "").
Proof.
  induction s as [|c s (A & B & C)]; cbn.
  - repeat split; constructor.
  - repeat split; [now constructor | | discriminate].
    destruct (PyStr.chars s) as [|d r] eqn:E.
    + rewrite (C eq_refl). reflexivity.
    + cbn in B |- *. now rewrite B.
Qed.

Lemma invalid_symbols_nil alphabet syms :
  Repl.invalid_symbols alphabet syms = [] <->
  Forall (fun s => In s alphabet) syms.
Proof.
  unfold Repl.invalid_symbols. induction syms as [|s syms IH]; cbn.
  - split; [constructor | reflexivity].
  - destruct (mem s alphabet) eqn:M; cbn.
    + apply mem_In in M. rewrite IH. split; [now constructor|].
      now inversion 1.
    + split; [discriminate|]. inversion 1; subst.
      apply mem_In in H2. congruence.
Qed.

(** X17. What the test loop of main3-0.py passes to the engine: a line is
    tested only as a non-empty sequence of symbols that are all in the
    alphabet, so the empty word can never be tested. A line without a
    comma is cut into its single characters, so a symbol of several
    characters is never passed on its own; a line with a comma is cut at
    the commas, without stripping. *)
Theorem repl_accepts_validated (alphabet : list string) (line : string)
    (input_symbols : list string) :
  Repl.dispatch alphabet line = Repl.Accepts input_symbols ->
  input_symbols <> []
  /\ Forall (fun s => In s alphabet) input_symbols
  /\ (count_sep (PyStr.strip line) = 0 ->
      Forall (fun s => String.length s = 1) input_symbols
      /\ String.concat "" input_symbols = PyStr.strip line)
  /\ (count_sep (PyStr.strip line) <> 0 ->
      String.concat "," input_symbols = PyStr.strip line).
Proof.
  unfold Repl.dispatch.
  destruct (String.eqb (PyStr.lower (PyStr.strip line)) "exit");
    [discriminate|].
  destruct (PyStr.nonempty (PyStr.strip line)) eqn:NE; cbn [negb];
    [|discriminate].
  destruct (Repl.invalid_symbols alphabet
              (Repl.input_symbols (PyStr.strip line))) eqn:IV;
    [|discriminate].
  destruct (String.eqb (PyStr.lower (PyStr.strip line)) "step");
    [discriminate|].
  intros [= <-]. apply invalid_symbols_nil in IV.
  unfold Repl.input_symbols in *. rewrite contains_sep in *.
  destruct (chars_shape (PyStr.strip line)) as (C1 & C2 & C3).
  destruct (count_sep (PyStr.strip line)) as [|n] eqn:E; cbn [Nat.eqb negb] in *.
  - repeat split; auto; try lia.
    intros H. apply C3 in H. rewrite H in NE. discriminate.
  - repeat split; auto; try lia.
    + intros H. pose proof (split_sep_length (PyStr.strip line)) as L.
      rewrite H in L. discriminate.
    + intros _. apply split_sep_concat.
Qed.

Lemma repl_accepts_validated_witness :
  ["a"; "b"; "a"] <> []
  /\ Forall (fun s => In s ["a"; "b"]) ["a"; "b"; "a"]
  /\ (count_sep (PyStr.strip " aba ") = 0 ->
      Forall (fun s => String.length s = 1) ["a"; "b"; "a"]
      /\ String.concat "" ["a"; "b"; "a"] = PyStr.strip " aba ")
  /\ (count_sep (PyStr.strip " aba ") <> 0 ->
      String.concat "," ["a"; "b"; "a"] = PyStr.strip " aba ").
Proof.
  apply (repl_accepts_validated ["a"; "b"] " aba " ["a"; "b"; "a"]).
  vm_compute. reflexivity.
Defined.

Lemma lower_char_letter c :
  (PyStr.lower_char c = "s"%char -> c = "s"%char \/ c = "S"%char)
  /\ (PyStr.lower_char c = "t"%char -> c = "t"%char \/ c = "T"%char)
  /\ (PyStr.lower_char c = "e"%char -> c = "e"%char \/ c = "E"%char)
  /\ (PyStr.lower_char c = "p"%char -> c = "p"%char \/ c = "P"%char)
  /\ (PyStr.lower_char c = "s"%char \/ PyStr.lower_char c = "t"%char
      \/ PyStr.lower_char c = "e"%char \/ PyStr.lower_char c = "p"%char ->
      Ascii.eqb c ","%char = false).
Proof.
  destruct c as [[] [] [] [] [] [] [] []]; vm_compute;
    repeat split; intros H; try discriminate H; auto;
    repeat (destruct H as [H | H]; try discriminate H).
Qed.

(** X18. The step-by-step mode of main3-0.py is reached only through the
    symbol validation: the line [step] is first cut into its four
    characters, and each must be a symbol of the alphabet. With an
    alphabet that holds none of the letters of [step] as symbols, such as
    [0,1], the mode cannot be entered. *)
Theorem repl_step_needs_letters (alphabet : list string) (line : string) :
  Repl.dispatch alphabet line = Repl.Step ->
  (In "s" alphabet \/ In "S" alphabet)
  /\ (In "t" alphabet \/ In "T" alphabet)
  /\ (In "e" alphabet \/ In "E" alphabet)
  /\ (In "p" alphabet \/ In "P" alphabet).
Proof.
  unfold Repl.dispatch.
  destruct (String.eqb (PyStr.lower (PyStr.strip line)) "exit");
    [discriminate|].
  destruct (PyStr.nonempty (PyStr.strip line)); cbn [negb]; [|discriminate].
  destruct (Repl.invalid_symbols alphabet
              (Repl.input_symbols (PyStr.strip line))) eqn:IV;
    [|discriminate].
  destruct (String.eqb (PyStr.lower (PyStr.strip line)) "step") eqn:ST;
    [|discriminate].
  intros _. apply String.eqb_eq in ST. apply invalid_symbols_nil in IV.
  destruct (PyStr.strip line) as [|c0 [|c1 [|c2 [|c3 [|c4 r]]]]];
    try discriminate ST.
  cbn in ST. injection ST as E0 E1 E2 E3.
  destruct (lower_char_letter c0) as (S0 & _ & _ & _ & N0).
  destruct (lower_char_letter c1) as (_ & S1 & _ & _ & N1).
  destruct (lower_char_letter c2) as (_ & _ & S2 & _ & N2).
  destruct (lower_char_letter c3) as (_ & _ & _ & S3 & N3).
  unfold Repl.input_symbols in IV. rewrite contains_sep in IV.
  cbn [count_sep] in IV.
  rewrite N0, N1, N2, N3 in IV by auto. cbn in IV.
  inversion IV as [|? ? I0 IV1]; subst.
  inversion IV1 as [|? ? I1 IV2]; subst.
  inversion IV2 as [|? ? I2 IV3]; subst.
  inversion IV3 as [|? ? I3 _]; subst.
  repeat split.
  - destruct (S0 E0); subst; auto.
  - destruct (S1 E1); subst; auto.
  - destruct (S2 E2); subst; auto.
  - destruct (S3 E3); subst; auto.
Qed.

Lemma repl_step_needs_letters_witness :
  (In "s" ["p"; "e"; "t"; "S"] \/ In "S" ["p"; "e"; "t"; "S"])
  /\ (In "t" ["p"; "e"; "t"; "S"] \/ In "T" ["p"; "e"; "t"; "S"])
  /\ (In "e" ["p"; "e"; "t"; "S"] \/ In "E" ["p"; "e"; "t"; "S"])
  /\ (In "p" ["p"; "e"; "t"; "S"] \/ In "P" ["p"; "e"; "t"; "S"]).
Proof.
  apply (repl_step_needs_letters ["p"; "e"; "t"; "S"] " Step").
  vm_compute. reflexivity.
Defined.

(* ================================================================== *)
(** ** The interactive builder *)
(* ================================================================== *)

Lemma get_input_valid validation_func inputs : forall user_input rest,
  CreatorMain.get_input validation_func inputs = inr (user_input, rest) ->
  validation_func user_input = true.
Proof.
  induction inputs as [|line inputs IH]; intros u rest H; cbn in H;
    [discriminate|].
  destruct (validation_func (PyStr.strip line)) eqn:V; [|eauto].
  now inversion H; subst.
Qed.

Lemma creator_check_final_incl states final_states :
  CreatorMain.check_final states final_states = inr tt ->
  incl final_states states.
Proof.
  induction final_states as [|f fs IH]; cbn; intros H.
  - intros x [].
  - unfold Creator.validate_state_in_states in H.
    destruct (mem f states) eqn:M; cbn in H; [|discriminate].
    apply mem_In in M. intros x [<- | Hx]; [assumption | now apply IH].
Qed.

(** Every transition stored by the loop of fsm_creator.py has passed its
    membership checks and has the shape of its automaton type. *)
Lemma enter_transitions_invariant ty alphabet states inputs :
  forall acc table,
    Creator.enter_transitions ty alphabet states inputs acc = inr table ->
    Forall (fun kv => declared_entry alphabet states kv
                      /\ assembled_value ty (snd kv)) acc ->
    NoDup (map fst acc) ->
    Forall (fun kv => declared_entry alphabet states kv
                      /\ assembled_value ty (snd kv)) table
    /\ NoDup (map fst table).
Proof.
  induction inputs as [|line inputs IH]; intros acc table H Q ND;
    cbn [Creator.enter_transitions] in H; [discriminate|].
  destruct (String.eqb _ "done"); [inversion H; subst; auto|].
  destruct (comma_fields (PyStr.strip (PyStr.strip line)))
    as [|from [|sym [|first tos]]]; eauto.
  unfold Creator.validate_state_in_states,
    Creator.validate_symbol_in_alphabet in H.
  destruct (mem from states) eqn:M1; cbn [negb] in H; eauto.
  destruct (mem sym alphabet) eqn:M2; cbn [negb] in H; eauto.
  destruct (forallb (fun ts => mem ts states) (first :: tos)) eqn:M3;
    cbn [negb] in H; eauto.
  apply mem_In in M1, M2.
  assert (I : incl (first :: tos) states).
  { rewrite forallb_forall in M3. intros x Hx. apply mem_In. auto. }
  destruct ty.
  - destruct (1 <? List.length (first :: tos))%nat; eauto.
    apply IH in H; auto.
    + apply (dict_set_Forall key_eqb key_eqb_eq); [exact Q|].
      repeat split; cbn; auto. intros x [<- | []]. apply I. now left.
    + now apply dict_set_keys_NoDup.
  - destruct (dict_find key_eqb (from, sym) acc) as [old|] eqn:F.
    + apply (dict_find_In key_eqb key_eqb_eq) in F.
      rewrite Forall_forall in Q. destruct (Q _ F) as [(_ & _ & D3) AV].
      cbn in D3, AV. destruct old as [o | l]; [contradiction|].
      cbn [Creator.iadd bind] in H.
      apply IH in H; auto.
      * apply (dict_set_Forall key_eqb key_eqb_eq);
          [now apply Forall_forall|].
        repeat split; cbn; auto. now apply incl_app.
      * now apply dict_set_keys_NoDup.
    + apply IH in H; auto.
      * apply (dict_set_Forall key_eqb key_eqb_eq); [exact Q|].
        repeat split; cbn; auto.
      * now apply dict_set_keys_NoDup.
Qed.

(** What a completed dialogue of fsm_creator.py has collected. *)
Lemma automaton_data_fields inputs d :
  CreatorMain.automaton_data inputs = inr d ->
  well_formed d /\ assembled d
  /\ NoDup (map fst (Automaton.transitions d))
  /\ Forall (fun s => count_sep s = 0) (Automaton.states d)
  /\ Forall (fun s => count_sep s = 0) (Automaton.alphabet d).
Proof.
  unfold CreatorMain.automaton_data.
  destruct (CreatorMain.get_input _ inputs) as [|[ty r1]]; cbn [bind fst snd];
    [discriminate|].
  destruct (CreatorMain.get_input _ r1) as [|[al r2]]; cbn [bind fst snd];
    [discriminate|].
  destruct (CreatorMain.get_input _ r2) as [|[sts r3]]; cbn [bind fst snd];
    [discriminate|].
  destruct (CreatorMain.get_input _ r3) as [|[ini r4]] eqn:GI;
    cbn [bind fst snd]; [discriminate|].
  destruct (CreatorMain.get_input _ r4) as [|[fin r5]]; cbn [bind fst snd];
    [discriminate|].
  destruct (CreatorMain.check_final _ _) as [|[]] eqn:CF; cbn [bind];
    [discriminate|].
  destruct (Creator.enter_transitions _ _ _ r5 []) as [|table] eqn:ET;
    cbn [bind]; [discriminate|].
  intros [= <-].
  apply get_input_valid in GI. unfold Creator.validate_state_in_states in GI.
  apply mem_In in GI. apply creator_check_final_incl in CF.
  destruct (enter_transitions_invariant _ _ _ _ _ _ ET (Forall_nil _)
              (NoDup_nil key)) as [Q ND].
  unfold well_formed, assembled. cbn.
  repeat split; auto using comma_fields_sep_free.
  - eexists; split; [reflexivity | exact GI].
  - eapply Forall_impl; [|exact Q]. now intros kv [D _].
  - eapply Forall_impl; [|exact Q]. now intros kv [_ A].
Qed.

(** X19. Every definition collected by a completed dialogue of
    fsm_creator.py is well formed: the initial state and the final states
    are declared states, and every stored transition goes from a declared
    state on a declared symbol to declared states only, with a single
    target for [dfa] and a tuple for [nfa], whatever lines were typed and
    rejected on the way. *)
Theorem creator_data_well_formed (inputs : list string) (d : automaton) :
  CreatorMain.automaton_data inputs = inr d ->
  well_formed d /\ assembled d.
Proof.
  intros H. destruct (automaton_data_fields _ _ H) as (W & A & _). auto.
Qed.

Lemma creator_data_well_formed_witness :
  well_formed
    (Automaton.make DFA ["0"; "1"] ["q0"; "q1"] (Some "q0") ["q1"]
       [(("q0", "0"), Single "q1")])
  /\ assembled
       (Automaton.make DFA ["0"; "1"] ["q0"; "q1"] (Some "q0") ["q1"]
          [(("q0", "0"), Single "q1")]).
Proof.
  apply (creator_data_well_formed
           ["xfa"; "dfa"; ""; "0,1"; "q0, q1"; "q7"; "q0"; "q1";
            "q0,0,q0"; "q0,2,q1"; "q0,0,q0,q1"; "q0,0,q1"; "Done"; "ignored"]).
  vm_compute. reflexivity.
Defined.

Lemma fold_left_ext_in {A B : Type} (f g : A -> B -> A) (l : list B) :
  (forall a b, In b l -> f a b = g a b) ->
  forall a, fold_left f l a = fold_left g l a.
Proof.
  induction l as [|b l IH]; intros E a; cbn; [reflexivity|].
  rewrite E by now left. apply IH. intros a' b' Hb. apply E. now right.
Qed.

(** On an assembled definition the JSON of fsm_creator.py is what
    [serialize_automaton] writes for an automaton whose attributes are the
    fields of the definition as they were collected. *)
Lemma json_data_serialize d :
  assembled d -> CreatorMain.json_data d = Codec.serialize_automaton d.
Proof.
  intros A. unfold CreatorMain.json_data, Codec.serialize_automaton.
  f_equal. unfold CreatorMain.json_transitions.
  apply fold_left_ext_in. intros acc [k v] Hin.
  unfold Codec.encode_item, Codec.composite_key. cbn [fst snd]. f_equal.
  unfold assembled in A. rewrite Forall_forall in A. specialize (A _ Hin).
  cbn in A. destruct (Automaton.cls d), v; cbn in *; try contradiction;
    reflexivity.
Qed.

(** X20. From fsm_creator.py to main3-0.py: the keys of the JSON written
    for a definition collected by a completed dialogue are well formed,
    and loading that JSON with [deserialize_automaton] calls the engine
    class with the collected definition, repeated targets included: it
    gives the automaton of that definition whenever the class accepts
    it. *)
Theorem creator_json_loads (engine : Engine.t) (inputs : list string)
    (d : automaton) :
  CreatorMain.automaton_data inputs = inr d ->
  Forall one_separator (Json.transitions (CreatorMain.json_data d))
  /\ Codec.deserialize_automaton engine (CreatorMain.json_data d)
     = Engine.construct engine d
  /\ (engine d = true ->
      Codec.deserialize_automaton engine (CreatorMain.json_data d) = inr d).
Proof.
  intros H.
  destruct (automaton_data_fields _ _ H) as (W & A & ND & SS & SA).
  assert (R : Codec.constructor_arguments (CreatorMain.json_data d) = inr d).
  { rewrite json_data_serialize by exact A.
    apply encode_decode_arguments; try assumption.
    destruct W as (_ & _ & W). unfold separator_free.
    eapply Forall_impl; [|exact W]. intros kv (D1 & D2 & _).
    rewrite Forall_forall in SS, SA. auto. }
  split; [|split].
  - unfold Codec.constructor_arguments in R.
    destruct (Codec.decode_items (Json.type (CreatorMain.json_data d))
                (Json.transitions (CreatorMain.json_data d)) [])
      as [e|t] eqn:D; [discriminate|].
    exact (decode_items_wellformed _ _ _ _ D).
  - unfold Codec.deserialize_automaton. now rewrite R.
  - intros He. unfold Codec.deserialize_automaton. rewrite R.
    now apply construct_accepted.
Qed.

Lemma creator_json_loads_witness :
  Forall one_separator
    (Json.transitions
       (CreatorMain.json_data
          (Automaton.make NFA ["a"] ["s0"; "s1"] (Some "s0") ["s1"]
             [(("s0", "a"), Many ["s0"; "s1"; "s1"])])))
  /\ Codec.deserialize_automaton sample_engine
       (CreatorMain.json_data
          (Automaton.make NFA ["a"] ["s0"; "s1"] (Some "s0") ["s1"]
             [(("s0", "a"), Many ["s0"; "s1"; "s1"])]))
     = Engine.construct sample_engine
         (Automaton.make NFA ["a"] ["s0"; "s1"] (Some "s0") ["s1"]
            [(("s0", "a"), Many ["s0"; "s1"; "s1"])])
  /\ (sample_engine
        (Automaton.make NFA ["a"] ["s0"; "s1"] (Some "s0") ["s1"]
           [(("s0", "a"), Many ["s0"; "s1"; "s1"])]) = true ->
      Codec.deserialize_automaton sample_engine
        (CreatorMain.json_data
           (Automaton.make NFA ["a"] ["s0"; "s1"] (Some "s0") ["s1"]
              [(("s0", "a"), Many ["s0"; "s1"; "s1"])]))
      = inr (Automaton.make NFA ["a"] ["s0"; "s1"] (Some "s0") ["s1"]
               [(("s0", "a"), Many ["s0"; "s1"; "s1"])])).
Proof.
  apply (creator_json_loads sample_engine
           ["nfa"; "a"; "s0,s1"; "s0"; "s1"; "s0,a,s0,s1"; "s0,a,s1"; "done"]).
  vm_compute. reflexivity.
Defined.

(* ================================================================== *)
(** ** The first version of the flat builders *)
(* ================================================================== *)

Lemma find_snoc {A : Type} (f : A -> bool) l x :
  find f (l ++ [x])
  = match find f l with
    | Some y => Some y
    | None => if f x then Some x else None
    end.
Proof.
  induction l as [|a l IH]; cbn; [reflexivity|].
  destruct (f a); [reflexivity | exact IH].
Qed.

Lemma last_record_cons k t records :
  last_record k (t :: records)
  = match last_record k records with
    | Some r => Some r
    | None => if key_eqb k (raw_key t) then Some t else None
    end.
Proof.
  unfold last_record. cbn [rev].
  apply (find_snoc (fun r => key_eqb k (raw_key r))).
Qed.

Lemma dict_find_set {V : Type} k k' (v : V) d :
  dict_find key_eqb k' (dict_set key_eqb k v d)
  = if key_eqb k' k then Some v else dict_find key_eqb k' d.
Proof.
  destruct (key_eqb k' k) eqn:E.
  - apply key_eqb_eq in E. subst. apply (dict_find_set_same key_eqb key_eqb_eq).
  - apply (dict_find_set_other key_eqb key_eqb_eq). apply key_eqb_neq in E.
    congruence.
Qed.

Lemma legacy_dfa_lookup alphabet states records : forall acc table,
  Legacy.build_dfa alphabet states records acc = inr table ->
  forall k,
    dict_find key_eqb k table
    = match last_record k records with
      | Some t => Some (nth 2 (PyStr.split "," t) "")
      | None => dict_find key_eqb k acc
      end.
Proof.
  induction records as [|t rs IH]; intros acc table H k; cbn in H.
  - now inversion H; subst.
  - rewrite last_record_cons. unfold raw_key.
    destruct (PyStr.split "," t) as [|state [|symbol [|next [|x r]]]] eqn:E;
      try discriminate.
    destruct (_ || _); [discriminate|].
    rewrite (IH _ _ H k). destruct (last_record k rs); [reflexivity|].
    cbn [nth]. rewrite dict_find_set.
    destruct (key_eqb k (state, symbol)); [|reflexivity].
    now rewrite E.
Qed.

Lemma legacy_nfa_lookup alphabet states records : forall acc table,
  Legacy.build_nfa alphabet states records acc = inr table ->
  forall k,
    dict_find key_eqb k table
    = match last_record k records with
      | Some t => Some (raw_targets t)
      | None => dict_find key_eqb k acc
      end.
Proof.
  induction records as [|t rs IH]; intros acc table H k; cbn in H.
  - now inversion H; subst.
  - rewrite last_record_cons. unfold raw_key, raw_targets.
    destruct (PyStr.split "," t) as [|state [|symbol [|n ns]]] eqn:E;
      try discriminate.
    destruct (_ || _); [discriminate|].
    destruct (Legacy.check_next_states states (n :: ns) t); [discriminate|].
    rewrite (IH _ _ H k). destruct (last_record k rs); [reflexivity|].
    cbn [nth]. rewrite dict_find_set.
    destruct (key_eqb k (state, symbol)); [|reflexivity].
    now rewrite E.
Qed.

(** X21. In main.py a repeated pair silently replaces what was stored,
    for both types: after a successful build the table holds, for every
    pair, the target (dfa) or the whole target tuple (nfa) of the last
    record that names the pair, and nothing of the earlier ones. *)
Theorem legacy_last_record_wins (alphabet states records : list string) :
  (forall table,
     Legacy.build_dfa alphabet states records [] = inr table ->
     forall k, dict_find key_eqb k table
               = option_map (fun t => nth 2 (PyStr.split "," t) "")
                            (last_record k records))
  /\ (forall table,
        Legacy.build_nfa alphabet states records [] = inr table ->
        forall k, dict_find key_eqb k table
                  = option_map raw_targets (last_record k records)).
Proof.
  split; intros table H k.
  - rewrite (legacy_dfa_lookup _ _ _ _ _ H k).
    now destruct (last_record k records).
  - rewrite (legacy_nfa_lookup _ _ _ _ _ H k).
    now destruct (last_record k records).
Qed.

Lemma legacy_last_record_wins_witness :
  dict_find key_eqb ("s0", "a") [(("s0", "a"), ["s0"])]
  = option_map raw_targets
      (last_record ("s0", "a") ["s0,a,s1,s2"; "s0,a,s0"]).
Proof.
  apply (proj2 (legacy_last_record_wins ["a"] ["s0"; "s1"; "s2"]
                  ["s0,a,s1,s2"; "s0,a,s0"])).
  vm_compute. reflexivity.
Defined.

(* ================================================================== *)
(** ** The final-state marker followed by a semicolon *)
(* ================================================================== *)

Lemma prefix_semicolon c s :
  String.prefix ";" (String c s) = Ascii.eqb c ";"%char.
Proof.
  change (String.prefix ";" (String c s))
    with (if ascii_dec ";"%char c then String.prefix "" s else false).
  destruct (ascii_dec ";" c) as [E | N].
  - subst c. rewrite prefix_empty. reflexivity.
  - symmetry. apply Ascii.eqb_neq. congruence.
Qed.

Lemma split_semicolon_step c s :
  PyStr.split ";" (String c s)
  = if Ascii.eqb c ";"%char then EmptyString :: PyStr.split ";" s
    else match PyStr.split ";" s with
         | p :: ps => String c p :: ps
         | [] => [String c EmptyString]
         end.
Proof.
  unfold PyStr.split. cbn [PyStr.split_go]. rewrite prefix_semicolon.
  reflexivity.
Qed.

Lemma prefix_cons a p c r :
  String.prefix (String a p) (String c r)
  = if ascii_dec a c then String.prefix p r else false.
Proof. reflexivity. Qed.

Lemma prefix_trans a : forall b c,
  String.prefix a b = true -> String.prefix b c = true ->
  String.prefix a c = true.
Proof.
  induction a as [|x a IH]; intros b c H1 H2; [apply prefix_empty|].
  destruct b as [|y b]; [discriminate|]. destruct c as [|z c]; [discriminate|].
  rewrite prefix_cons in *.
  destruct (ascii_dec x y); [|discriminate]. subst y.
  destruct (ascii_dec x z); [|discriminate]. eauto.
Qed.

Lemma split_semicolon_nonempty s : PyStr.split ";" s <> [].
Proof.
  destruct s as [|c s]; [discriminate|].
  rewrite split_semicolon_step.
  destruct (Ascii.eqb c ";"); [discriminate|].
  destruct (PyStr.split ";" s); discriminate.
Qed.

(** The first piece of a split is a prefix of the text. *)
Lemma split_semicolon_head s :
  String.prefix (hd "" (PyStr.split ";" s)) s = true.
Proof.
  induction s as [|c s IH]; [reflexivity|].
  rewrite split_semicolon_step. destruct (Ascii.eqb c ";").
  - reflexivity.
  - destruct (PyStr.split ";" s) as [|p ps]; cbn [hd] in *;
      rewrite prefix_cons; destruct (ascii_dec c c); congruence.
Qed.

(** No piece of a text holds a word that the text does not hold. *)
Lemma split_semicolon_contains sub s :
  sub <> "" -> PyStr.contains sub s = false ->
  Forall (fun p => PyStr.contains sub p = false) (PyStr.split ";" s).
Proof.
  intros NE. induction s as [|c s IH]; intros H.
  - repeat constructor. exact H.
  - cbn [PyStr.contains] in H. apply orb_false_iff in H. destruct H as [H1 H2].
    specialize (IH H2). rewrite split_semicolon_step.
    destruct (Ascii.eqb c ";").
    + constructor; [|exact IH]. destruct sub; [congruence | reflexivity].
    + pose proof (split_semicolon_head s) as HP.
      pose proof (split_semicolon_nonempty s) as HN.
      destruct (PyStr.split ";" s) as [|p ps]; cbn [hd] in HP.
      * congruence.
      * inversion IH as [|? ? Hp Hps]; subst. constructor; [|exact Hps].
        cbn [PyStr.contains]. rewrite Hp, orb_false_r.
        destruct (String.prefix sub (String c p)) eqn:E; [|reflexivity].
        assert (String.prefix sub (String c s) = true); [|congruence].
        eapply prefix_trans; [exact E|].
        rewrite prefix_cons. destruct (ascii_dec c c); congruence.
Qed.

Lemma split_semicolon_join a b :
  PyStr.contains ";" a = false ->
  PyStr.split ";" (a ++ ";" ++ b) = a :: PyStr.split ";" b.
Proof.
  induction a as [|c a IH]; intros H.
  - cbn [append]. now rewrite split_semicolon_step.
  - cbn [PyStr.contains] in H. apply orb_false_iff in H. destruct H as [H1 H2].
    rewrite prefix_semicolon in H1.
    change (String c a ++ ";" ++ b) with (String c (a ++ ";" ++ b)).
    rewrite split_semicolon_step, H1, (IH H2). reflexivity.
Qed.

Lemma mark_final_skips parts : forall st,
  Forall (fun p => PyStr.contains "doublecircle" p = false) parts ->
  fold_left Dot.mark_final parts st = st.
Proof.
  induction parts as [|p ps IH]; intros st H; cbn; [reflexivity|].
  inversion H as [|? ? Hp Hps]; subst.
  unfold Dot.mark_final at 2. rewrite Hp. now apply IH.
Qed.

(** X22. A final-state marker followed by a semicolon declares nothing: a
    line that reads [node [shape = doublecircle];] followed by any text
    that does not itself hold the word [doublecircle], such as the state
    names of the usual Graphviz form, leaves the scan as it was, so the
    names on that line become neither final states nor states. *)
Theorem dot_marker_semicolon_ignored (st : Dot.scan) (raw rest : string) :
  PyStr.strip raw = "node [shape = doublecircle];" ++ rest ->
  PyStr.contains "doublecircle" rest = false ->
  Dot.scan_line st raw = st.
Proof.
  intros E H. unfold Dot.scan_line. rewrite E.
  assert (P : PyStr.startswith "node [shape = doublecircle]"
                ("node [shape = doublecircle];" ++ rest) = true)
    by (vm_compute; reflexivity).
  rewrite P.
  change ("node [shape = doublecircle];" ++ rest)
    with ("node [shape = doublecircle]" ++ ";" ++ rest).
  rewrite split_semicolon_join by reflexivity.
  cbn [fold_left].
  assert (M : Dot.mark_final st "node [shape = doublecircle]" = st)
    by reflexivity.
  rewrite M. apply mark_final_skips.
  apply split_semicolon_contains; [discriminate | exact H].
Qed.

Lemma dot_marker_semicolon_ignored_witness :
  Dot.scan_line Dot.scan0 "    node [shape = doublecircle]; q1 q2;  "
  = Dot.scan0.
Proof.
  apply (dot_marker_semicolon_ignored Dot.scan0
           "    node [shape = doublecircle]; q1 q2;  " " q1 q2;");
    reflexivity.
Defined.

(* ================================================================== *)
(** ** The interactive builder and the command line on the same records *)
(* ================================================================== *)

Lemma lower_char_sep c :
  Ascii.eqb (PyStr.lower_char c) ","%char = Ascii.eqb c ","%char.
Proof. destruct c as [[] [] [] [] [] [] [] []]; reflexivity. Qed.

Lemma count_sep_lower s : count_sep (PyStr.lower s) = count_sep s.
Proof.
  induction s as [|c s IH]; cbn; [reflexivity|].
  now rewrite lower_char_sep, IH.
Qed.

(** A line that ends the dialogue has a single field. *)
Lemma done_single_field line :
  String.eqb (PyStr.lower line) "done" = true ->
  exists field, comma_fields line = [field].
Proof.
  intros H. apply String.eqb_eq in H.
  assert (C : count_sep line = 0) by (rewrite <- count_sep_lower, H; reflexivity).
  unfold comma_fields. rewrite (split_sep_none _ C). cbn. eauto.
Qed.

Lemma dict_find_map {V W : Type} (f : V -> W) k (d : list (key * V)) :
  dict_find key_eqb k (map (fun kv => (fst kv, f (snd kv))) d)
  = option_map f (dict_find key_eqb k d).
Proof.
  induction d as [|[k' v] d IH]; cbn; [reflexivity|].
  destruct (key_eqb k k'); [reflexivity | exact IH].
Qed.

Lemma dict_set_map {V W : Type} (f : V -> W) k v (d : list (key * V)) :
  dict_set key_eqb k (f v) (map (fun kv => (fst kv, f (snd kv))) d)
  = map (fun kv => (fst kv, f (snd kv))) (dict_set key_eqb k v d).
Proof.
  induction d as [|[k' v'] d IH]; cbn; [reflexivity|].
  destruct (key_eqb k k'); cbn; [reflexivity | now rewrite IH].
Qed.

Lemma creator_dfa_follows_cli alphabet states records : forall acc table,
  Forall (fun t => PyStr.strip t = t) records ->
  Cli.build_dfa alphabet states records acc = inr table ->
  Creator.enter_transitions DFA alphabet states (records ++ ["done"])
    (map (fun kv => (fst kv, Single (snd kv))) acc)
  = inr (map (fun kv => (fst kv, Single (snd kv))) table).
Proof.
  induction records as [|t rs IH]; intros acc table S H; cbn in H.
  - inversion H; subst. reflexivity.
  - inversion S as [|? ? St Srs]; subst.
    cbn [app Creator.enter_transitions]. rewrite !St.
    destruct (String.eqb (PyStr.lower t) "done") eqn:D.
    + apply done_single_field in D. destruct D as [f D]. rewrite D in H.
      discriminate.
    + destruct (comma_fields t) as [|state [|symbol [|next [|x r]]]];
        try discriminate.
      unfold Creator.validate_state_in_states,
        Creator.validate_symbol_in_alphabet.
      destruct (mem state states); cbn in H |- *; [|discriminate].
      destruct (mem symbol alphabet); cbn in H |- *; [|discriminate].
      destruct (mem next states); cbn in H |- *; [|discriminate].
      destruct (dict_mem key_eqb (state, symbol) acc); [discriminate|].
      rewrite (dict_set_map Single). now apply IH.
Qed.

Lemma check_next_states_forallb states ns :
  Cli.check_next_states states ns = inr tt ->
  forallb (fun ts => mem ts states) ns = true.
Proof. apply check_next_states_ok. Qed.

Lemma creator_nfa_follows_cli alphabet states records : forall acc table,
  Forall (fun t => PyStr.strip t = t) records ->
  Cli.build_nfa alphabet states records acc = inr table ->
  Creator.enter_transitions NFA alphabet states (records ++ ["done"])
    (map (fun kv => (fst kv, Many (snd kv))) acc)
  = inr (map (fun kv => (fst kv, Many (snd kv))) table).
Proof.
  induction records as [|t rs IH]; intros acc table S H; cbn in H.
  - inversion H; subst. reflexivity.
  - inversion S as [|? ? St Srs]; subst.
    cbn [app Creator.enter_transitions]. rewrite !St.
    destruct (String.eqb (PyStr.lower t) "done") eqn:D.
    + apply done_single_field in D. destruct D as [f D]. rewrite D in H.
      discriminate.
    + destruct (comma_fields t) as [|state [|symbol [|n ns]]];
        try discriminate.
      unfold Creator.validate_state_in_states,
        Creator.validate_symbol_in_alphabet.
      destruct (mem state states); cbn [negb] in H |- *; [|discriminate].
      destruct (mem symbol alphabet); cbn [negb] in H |- *; [|discriminate].
      destruct (Cli.check_next_states states (n :: ns)) as [|[]] eqn:C;
        cbn [bind] in H; [discriminate|].
      rewrite (check_next_states_forallb _ _ C). cbn [negb].
      rewrite (dict_find_map Many).
      destruct (dict_find key_eqb (state, symbol) acc) as [old|];
        cbn [option_map Creator.iadd bind];
        rewrite (dict_set_map Many); now apply IH.
Qed.

(** X23. The two entry points agree where the command line succeeds:
    when main3-0.py builds a table from records without surrounding
    blanks, fsm_creator.py given the same records as lines, followed by
    [done], stores the same table, for both types. They differ only on
    input the command line refuses. *)
Theorem creator_agrees_with_cli (alphabet states records : list string) :
  Forall (fun t => PyStr.strip t = t) records ->
  (forall table,
     Cli.build_dfa alphabet states records [] = inr table ->
     Creator.enter_transitions DFA alphabet states (records ++ ["done"]) []
     = inr (map (fun kv => (fst kv, Single (snd kv))) table))
  /\ (forall table,
        Cli.build_nfa alphabet states records [] = inr table ->
        Creator.enter_transitions NFA alphabet states (records ++ ["done"]) []
        = inr (map (fun kv => (fst kv, Many (snd kv))) table)).
Proof.
  intros S. split; intros table H.
  - now apply (creator_dfa_follows_cli alphabet states records []).
  - now apply (creator_nfa_follows_cli alphabet states records []).
Qed.

Lemma creator_agrees_with_cli_witness :
  Creator.enter_transitions NFA ["a"] ["s0"; "s1"]
    (["s0,a,s1"; "s0, a ,s0"] ++ ["done"]) []
  = inr (map (fun kv : key * list string => (fst kv, Many (snd kv)))
           [(("s0", "a"), ["s1"; "s0"])]).
Proof.
  apply (proj2 (creator_agrees_with_cli ["a"] ["s0"; "s1"]
                  ["s0,a,s1"; "s0, a ,s0"]
                  ltac:(repeat constructor))).
  vm_compute. reflexivity.
Defined.

Example split_arrow :
  PyStr.split "->" "q0 -> q1 [label = 0];" = ["q0 "; " q1 [label = 0];"].
Proof. reflexivity. Qed.

Example split_overlap : PyStr.split "aa" "aaa" = [""; "a"].
Proof. reflexivity. Qed.

Example replace_all : PyStr.replace ";" "" " q0;;" = " q0".
Proof. reflexivity. Qed.

Example strip_both : PyStr.strip "  q0 ; " = "q0 ;".
Proof. reflexivity. Qed.

Example dot_one_edge :
  Dot.parse_dot_file sample_engine
    ("null -> q0;" ++ Dot.newline ++
     " q0 -> q1 [label = " ++ Dot.dq ++ "a, b" ++ Dot.dq ++ "];")
  = inr (Automaton.make DFA ["a"; "b"] ["q0"; "q1"] (Some "q0") []
           [(("q0", "a"), Single "q1"); (("q0", "b"), Single "q1")], DFA).
Proof. vm_compute. reflexivity. Qed.

Example create_dfa_cli :
  Cli.create sample_engine DFA "0,1" "q0,q1" "q0" "q1"
    ["q0,0,q0"; "q0,1,q1"; "q1,0,q1"; "q1,1,q0"]
  = inr (Automaton.make DFA ["0"; "1"] ["q0"; "q1"] (Some "q0") ["q1"]
           [(("q0", "0"), Single "q0"); (("q0", "1"), Single "q1");
            (("q1", "0"), Single "q1"); (("q1", "1"), Single "q0")]).
Proof. vm_compute. reflexivity. Qed.

(** Scenario 3 of the specification: a target outside the declared states. *)
Example create_unknown_state :
  Cli.create sample_engine DFA "0,1" "q0,q1" "q0" "q1" ["q0,0,q2"]
  = inl (UnknownState "q2").
Proof. vm_compute. reflexivity. Qed.

(** Scenario 2 of the specification: a third state as a second target. *)
Example dot_second_target :
  Dot.parse_dot_file sample_engine
    (unlines [ "node [shape = doublecircle] q1;"; "null -> q0;";
               edge_line "q0" "q1" "1"; edge_line "q0" "q2" "1" ])
  = inr (Automaton.make NFA ["1"] ["q1"; "q0"; "q2"] (Some "q0") ["q1"]
           [(("q0", "1"), Many ["q1"; "q2"])], NFA).
Proof. vm_compute. reflexivity. Qed.

(** The marker followed by a semicolon, as Graphviz examples write it,
    names no final state: the part that holds the marker holds no name. *)
Example dot_marker_with_semicolon :
  Dot.parse_dot_file sample_engine
    (unlines [ "node [shape = doublecircle]; q1;"; "null -> q0;";
               edge_line "q0" "q1" "1" ])
  = inr (Automaton.make DFA ["1"] ["q0"; "q1"] (Some "q0") []
           [(("q0", "1"), Single "q1")], DFA).
Proof. vm_compute. reflexivity. Qed.

(** The message for symbols outside the alphabet lists every one of them:
    with the alphabet [0], [1] the word [step] is refused letter by
    letter. *)
Example repl_invalid_symbols :
  Repl.dispatch ["0"; "1"] "step" = Repl.Invalid ["s"; "t"; "e"; "p"]
  /\ Repl.dispatch ["0"; "1"] "012" = Repl.Invalid ["2"].
Proof. split; vm_compute; reflexivity. Qed.
